(** * nordfjordeid: preconditioning notebooks, a shallow embedding

    The repository holds two Jupyter notebooks (Python 2, FEniCS, cbc.block,
    petsc4py), LaTeX notes and a Makefile.  This development embeds the
    functions of [preconditioning.ipynb] and [coupled.ipynb] that carry logic
    of their own and the Makefile, and, call by call, every code cell of the
    notebooks (module [Calls]).

    Data are modelled as the code has them:
    - a Python [float] (and a PETSc scalar) is an IEEE binary64 number, the
      kernel's primitive [float];
    - a Python [int] is a [Z];
    - Python objects live in a store ([heap]) and are passed by reference
      ([loc]); in-place operations such as [x += y] update the store;
    - an exception ends the computation and is carried in the result
      ([Raises]); nothing in the repository catches one. *)

From Stdlib Require Import ZArith Floats String Ascii Bool Lia.
From stdpp Require Import base list gmap strings.

Set Warnings "-inexact-float,-register-all".
Open Scope Z_scope.

(** ** Python values *)

(** What a caller may pass where the code expects an int. *)
Inductive pyvalue : Type :=
| PyInt (z : Z)               (* int, long *)
| PyBool (b : bool)           (* True and False are the ints 1 and 0 *)
| PyFloat (f : float)
| PyStr (s : string)
| PyNone
| PyList (items : list Z).    (* a list: not hashable *)

(** ** Python exceptions and results *)

Inductive exn : Type :=
| KeyError (key : pyvalue)        (* dict lookup with a missing key *)
| AssertionError                  (* a failed [assert] statement *)
| ZeroDivisionError               (* Python float division by zero *)
| ValueError                      (* math.sqrt of a negative number *)
| IndexError                      (* indexing past the end of an array *)
| TypeError                       (* wrong kind or number of arguments *)
| LibraryError (origin : string). (* raised inside dolfin, PETSc, numpy, ... *)

(** Which exceptions are raised by a statement of the repository's own code
    (an [assert]) rather than by the Python runtime or a library. *)
Definition raised_by_assert (e : exn) : bool :=
  match e with AssertionError => true | _ => false end.

Definition raised_by_library (e : exn) : bool :=
  match e with LibraryError _ => true | _ => false end.

(** What a routine of a library gives back: a value, or an exception. *)
Inductive result (A : Type) : Type :=
| Ok (a : A)
| Error (e : exn).
Arguments Ok {A} a.
Arguments Error {A} e.

(** How a computation of the model ends. *)
Inductive outcome (A : Type) : Type :=
| Returns (a : A)
| Raises (e : exn)
| OutOfFuel.          (* a loop of the model was cut short: never a Python result *)
Arguments Returns {A} a.
Arguments Raises {A} e.
Arguments OutOfFuel {A}.

(** ** The object store *)

(** A PETSc AIJ (compressed sparse row) matrix: each row stores its nonzero
    entries as (column, value) pairs in increasing column order. *)
Record aij : Type := { ncols : nat; rows : list (list (nat * float)) }.

Inductive object : Type :=
| Vector (v : list float)          (* dolfin GenericVector / PETSc Vec *)
| Matrix (m : aij)                 (* dolfin GenericMatrix / PETSc Mat *)
| Operator (apply : list float -> option (list float))
                                   (* cbc.block operator, e.g. AMG(A), 0.5*B *)
| Mesh (cells : list Z)            (* unit hypercube mesh, cells per direction *)
| Number (a : float).              (* a Python number, e.g. 1 passed as B *)

(** A reference is an index into the store. *)
Abbreviation loc := nat (only parsing).
Abbreviation heap := (list object) (only parsing).

(** Computations: they read and update the store and end in an [outcome]. *)
Definition M (A : Type) : Type := heap -> outcome A * heap.

Definition ret {A} (a : A) : M A := fun h => (Returns a, h).
Definition raise {A} (e : exn) : M A := fun h => (Raises e, h).
Definition out_of_fuel {A} : M A := fun h => (OutOfFuel, h).
Definition bind {A B} (m : M A) (k : A -> M B) : M B :=
  fun h => match m h with
           | (Returns a, h') => k a h'
           | (Raises e, h') => (Raises e, h')
           | (OutOfFuel, h') => (OutOfFuel, h')
           end.
Definition lift {A} (r : result A) : M A :=
  fun h => (match r with Ok a => Returns a | Error e => Raises e end, h).

Notation "'let*' x ':=' m 'in' k" := (bind m (fun x => k))
  (at level 10, x name, m at level 100, k at level 200).
Notation "'let*' ' p ':=' m 'in' k" := (bind m (fun p => k))
  (at level 10, p strict pattern, m at level 100, k at level 200).

(** [assert c] *)
Definition py_assert (c : bool) : M unit :=
  if c then ret tt else raise AssertionError.

Definition alloc (o : object) : M loc :=
  fun h => (Returns (length h), h ++ [o]).

Definition read_vector (l : loc) : M (list float) :=
  fun h => match h !! l with
           | Some (Vector v) => (Returns v, h)
           | _ => (Raises TypeError, h)
           end.

Definition read_matrix (l : loc) : M aij :=
  fun h => match h !! l with
           | Some (Matrix m) => (Returns m, h)
           | _ => (Raises TypeError, h)
           end.

Definition read_mesh (l : loc) : M (list Z) :=
  fun h => match h !! l with
           | Some (Mesh c) => (Returns c, h)
           | _ => (Raises TypeError, h)
           end.

(** In-place update of the vector stored at [l]. *)
Definition write_vector (l : loc) (v : list float) : M unit :=
  fun h => match h !! l with
           | Some (Vector _) => (Returns tt, <[l := Vector v]> h)
           | _ => (Raises TypeError, h)
           end.

Definition write_matrix (l : loc) (m : aij) : M unit :=
  fun h => match h !! l with
           | Some (Matrix _) => (Returns tt, <[l := Matrix m]> h)
           | _ => (Raises TypeError, h)
           end.

(** ** Scalars: Python float arithmetic *)

(** [a / b] on Python floats: a zero divisor (of either sign) raises. *)
Definition py_div (a b : float) : M float :=
  if (b =? 0)%float then raise ZeroDivisionError else ret (a / b)%float.

(** [sqrt] as exported by dolfin: on a float it is [math.sqrt]. *)
Definition py_sqrt (a : float) : M float :=
  if (a <? 0)%float then raise ValueError else ret (PrimFloat.sqrt a).

(** ** Linear algebra of the backend, on binary64 *)

Definition dot_list (u v : list float) : float :=
  fold_left (fun acc '(a, b) => (acc + a * b)%float) (zip u v) 0%float.

Definition vec_dot (u v : list float) : result float :=
  if (length u =? length v)%nat then Ok (dot_list u v)
  else Error (LibraryError "PETSc: incompatible vector sizes").

Definition vec_sub (u v : list float) : result (list float) :=
  if (length u =? length v)%nat
  then Ok (zip_with (fun a b => (a - b)%float) u v)
  else Error (LibraryError "PETSc: incompatible vector sizes").

Definition vec_add (u v : list float) : result (list float) :=
  if (length u =? length v)%nat
  then Ok (zip_with (fun a b => (a + b)%float) u v)
  else Error (LibraryError "PETSc: incompatible vector sizes").

Definition vec_scale (c : float) (v : list float) : list float :=
  map (fun a => (c * a)%float) v.

(** The product of two vectors, entry by entry (PETSc [VecPointwiseMult]). *)
Definition vec_mul (u v : list float) : result (list float) :=
  if (length u =? length v)%nat
  then Ok (zip_with (fun a b => (a * b)%float) u v)
  else Error (LibraryError "PETSc: incompatible vector sizes").

(** One row of a sparse matrix times a vector: the stored entries only. *)
Definition row_dot (row : list (nat * float)) (v : list float) : float :=
  fold_left (fun acc '(j, a) => (acc + a * nth j v 0%float)%float) row 0%float.

Definition mat_vec (m : aij) (v : list float) : result (list float) :=
  if (ncols m =? length v)%nat then Ok (map (fun row => row_dot row v) (rows m))
  else Error (LibraryError "PETSc: incompatible matrix and vector sizes").

(** What [A*x] computes for the object [A] and a vector [x]: a matrix
    multiplies, an operator of cbc.block is applied and gives a vector or
    fails, a vector is multiplied with [x] entry by entry (dolfin's
    [GenericVector.__mul__]), a number scales [x]. *)
Definition operator_of (o : object) : option (list float -> result (list float)) :=
  match o with
  | Matrix m => Some (mat_vec m)
  | Operator f =>
      Some (fun v => match f v with
                     | Some y => Ok y
                     | None => Error (LibraryError "block: operator application")
                     end)
  | Vector u => Some (vec_mul u)
  | Number a => Some (fun v => Ok (vec_scale a v))
  | Mesh _ => None
  end.

Definition read_operator (l : loc) : M (list float -> result (list float)) :=
  fun h => match h !! l ≫= operator_of with
           | Some f => (Returns f, h)
           | None => (Raises TypeError, h)
           end.

(** The operations of dolfin's vectors and matrices that the notebooks use.
    Each result is a new object, except for [+=]. *)

(** [A*x] *)
Definition mul (A x : loc) : M loc :=
  let* f := read_operator A in
  let* v := read_vector x in
  let* y := lift (f v) in
  alloc (Vector y).

(** [b - y] *)
Definition sub (b y : loc) : M loc :=
  let* u := read_vector b in
  let* v := read_vector y in
  let* w := lift (vec_sub u v) in
  alloc (Vector w).

(** [u.inner(v)] *)
Definition inner (u v : loc) : M float :=
  let* a := read_vector u in
  let* b := read_vector v in
  lift (vec_dot a b).

(** [rho*p] *)
Definition rmul (rho : float) (p : loc) : M loc :=
  let* v := read_vector p in
  alloc (Vector (vec_scale rho v)).

(** [x += y]: the object [x] itself is updated. *)
Definition iadd (x y : loc) : M unit :=
  let* u := read_vector x in
  let* v := read_vector y in
  let* w := lift (vec_add u v) in
  write_vector x w.

(** ** preconditioning.ipynb: [steepest_descent] *)

(** The variables the loop rebinds: the residual [r], [error] and [iter]. *)
Record sd_state : Type := { sd_r : loc; sd_error : float; sd_iter : Z }.

(** Lines 438-441: the statements before the loop. *)
Definition sd_init (A x b : loc) : M sd_state :=
  let* Ax := mul A x in
  let* r := sub b Ax in
  let* rr := inner r r in
  let* error := py_sqrt rr in
  ret {| sd_r := r; sd_error := error; sd_iter := 0 |}.

(** Line 442: [error > tolerance and iter < maxiter]. *)
Definition sd_cond (tolerance : float) (maxiter : Z) (s : sd_state) : bool :=
  (tolerance <? sd_error s)%float && (sd_iter s <? maxiter).

(** Lines 444-451: the loop body. *)
Definition sd_body (A x b B : loc) (s : sd_state) : M sd_state :=
  let* p := mul B (sd_r s) in
  let* Ap := mul A p in
  let* rp := inner (sd_r s) p in
  let* App := inner Ap p in
  let* rho := py_div rp App in
  let* rho_p := rmul rho p in
  let* _ := iadd x rho_p in
  let* Ax := mul A x in
  let* r := sub b Ax in
  let* rr := inner r r in
  let* error := py_sqrt rr in
  ret {| sd_r := r; sd_error := error; sd_iter := sd_iter s + 1 |}.

(** The [while] loop; [fuel] bounds the number of iterations the model may
    run, and running out of it is reported as [OutOfFuel]. *)
Fixpoint sd_while (fuel : nat) (A x b B : loc) (tolerance : float)
    (maxiter : Z) (s : sd_state) : M sd_state :=
  if sd_cond tolerance maxiter s then
    match fuel with
    | O => out_of_fuel
    | S fuel' =>
        let* s' := sd_body A x b B s in
        sd_while fuel' A x b B tolerance maxiter s'
    end
  else ret s.

Definition steepest_descent_fuel (fuel : nat) (A x b B : loc)
    (tolerance : float) (maxiter : Z) : M Z :=
  let* s0 := sd_init A x b in
  let* s := sd_while fuel A x b B tolerance maxiter s0 in
  ret (sd_iter s).

(** Lines 436-453: [steepest_descent(A, x, b, B, tolerance, maxiter)]; a
    caller that leaves [maxiter] out passes 200.  The loop needs at most
    [maxiter] iterations of fuel (see [sd_while_terminates]). *)
Definition steepest_descent (A x b B : loc) (tolerance : float) (maxiter : Z)
    : M Z :=
  steepest_descent_fuel (Z.to_nat maxiter) A x b B tolerance maxiter.

(** The state after exactly [k] executions of the loop body. *)
Fixpoint sd_iterate (k : nat) (A x b B : loc) (s : sd_state) : M sd_state :=
  match k with
  | O => ret s
  | S k' => let* s' := sd_body A x b B s in sd_iterate k' A x b B s'
  end.

Definition sd_after (k : nat) (A x b B : loc) : M sd_state :=
  let* s0 := sd_init A x b in sd_iterate k A x b B s0.

(** ** preconditioning.ipynb: [Diag] and [InvDiag] *)

(** The stored value at column [j] of a sparse row; 0 when none is stored. *)
Definition row_entry (row : list (nat * float)) (j : nat) : float :=
  match find (fun '(c, _) => (c =? j)%nat) row with
  | Some (_, a) => a
  | None => 0%float
  end.

Definition get_entry (m : aij) (i j : nat) : float :=
  match rows m !! i with
  | Some row => row_entry row j
  | None => 0%float
  end.

(** PETSc [MatGetDiagonal]. *)
Definition getDiagonal (m : aij) : list float :=
  imap (fun i row => row_entry row i) (rows m).

(** PETSc [VecReciprocal]: each entry becomes its reciprocal; an entry that
    is zero is left as it is. *)
Definition reciprocal (v : list float) : list float :=
  map (fun d => if (d =? 0)%float then d else (1 / d)%float) v.

(** [PETSc.Mat().createAIJ(n, nnz=1)]: an n x n matrix with nothing stored. *)
Definition createAIJ (n : nat) : aij := {| ncols := n; rows := replicate n [] |}.

(** Store [a] at column [j] of a row, replacing what is stored there. *)
Fixpoint row_set (row : list (nat * float)) (j : nat) (a : float)
    : list (nat * float) :=
  match row with
  | [] => [(j, a)]
  | (c, w) :: rest =>
      if (j <? c)%nat then (j, a) :: row
      else if (j =? c)%nat then (j, a) :: rest
      else (c, w) :: row_set rest j a
  end.

(** PETSc [MatDiagonalSet] with INSERT_VALUES. *)
Definition setDiagonal (m : aij) (d : list float) : result aij :=
  if (length d =? length (rows m))%nat
  then Ok {| ncols := ncols m;
                  rows := imap (fun i '(row, a) => row_set row i a)
                               (zip (rows m) d) |}
  else Error (LibraryError "PETSc: incompatible matrix and vector sizes").

(** [as_backend_type(A).mat().getDiagonal()]: a new vector. *)
Definition mat_getDiagonal (A : loc) : M loc :=
  let* m := read_matrix A in
  alloc (Vector (getDiagonal m)).

(** [dvec.reciprocal()]: in place. *)
Definition vec_reciprocal (dvec : loc) : M unit :=
  let* d := read_vector dvec in
  write_vector dvec (reciprocal d).

(** [dvec.size] *)
Definition vec_size (dvec : loc) : M nat :=
  let* d := read_vector dvec in
  ret (length d).

Definition Mat_createAIJ (n : nat) : M loc := alloc (Matrix (createAIJ n)).

(** [mat.setDiagonal(dvec)]: in place. *)
Definition mat_setDiagonal (mat dvec : loc) : M unit :=
  let* m := read_matrix mat in
  let* d := read_vector dvec in
  let* m' := lift (setDiagonal m d) in
  write_matrix mat m'.

(** Lines 310-316.  [PETScMatrix(diagAinv)] wraps the PETSc matrix without
    copying it. *)
Definition Diag (A : loc) : M loc :=
  let* dvec := mat_getDiagonal A in
  let* n := vec_size dvec in
  let* diagAinv := Mat_createAIJ n in
  let* _ := mat_setDiagonal diagAinv dvec in
  ret diagAinv.

(** Lines 319-326. *)
Definition InvDiag (A : loc) : M loc :=
  let* dvec := mat_getDiagonal A in
  let* _ := vec_reciprocal dvec in
  let* n := vec_size dvec in
  let* diagAinv := Mat_createAIJ n in
  let* _ := mat_setDiagonal diagAinv dvec in
  ret diagAinv.

(** The product of two sparse matrices, row by row over the stored entries
    (PETSc [MatMatMult]). *)
Fixpoint row_add (row : list (nat * float)) (j : nat) (a : float)
    : list (nat * float) :=
  match row with
  | [] => [(j, a)]
  | (c, w) :: rest =>
      if (j <? c)%nat then (j, a) :: row
      else if (j =? c)%nat then (c, (w + a)%float) :: rest
      else (c, w) :: row_add rest j a
  end.

Definition row_axpy (acc : list (nat * float)) (a : float)
    (brow : list (nat * float)) : list (nat * float) :=
  fold_left (fun acc '(j, b) => row_add acc j (a * b)%float) brow acc.

Definition mat_mat (A B : aij) : aij :=
  {| ncols := ncols B;
     rows := map (fun arow =>
                    fold_left (fun acc '(k, a) =>
                                 row_axpy acc a (nth k (rows B) []))
                              arow [])
                 (rows A) |}.

(** The diagonal matrix with the given diagonal, as [Diag] stores it. *)
Definition diag_aij (d : list float) : aij :=
  {| ncols := length d; rows := imap (fun i a => [(i, a)]) d |}.

(** An n x n matrix all of whose entries are those of the identity. *)
Definition is_identity (n : nat) (m : aij) : Prop :=
  forall i j : nat, (i < n)%nat -> (j < n)%nat ->
    get_entry m i j = if (i =? j)%nat then 1%float else 0%float.

Definition is_square (m : aij) : bool := (ncols m =? length (rows m))%nat.

Definition diagonal_nonzero (m : aij) : bool :=
  forallb (fun a => negb (a =? 0)%float) (getDiagonal m).

(** ** preconditioning.ipynb: [HyperCubeMesh] *)

(** The integer that a binary64 number is equal to, if it is one. *)
Definition float_as_Z (f : float) : option Z :=
  match Prim2SF f with
  | S754_zero _ => Some 0
  | S754_finite s m e =>
      (fun v : Z => if s then - v else v) <$>
      (if 0 <=? e then Some (Z.pos m * 2 ^ e)
       else if Z.pos m mod 2 ^ (- e) =? 0 then Some (Z.pos m / 2 ^ (- e))
       else None)
  | _ => None
  end.

(** Keys are compared with [==]: [True] and [1.0] are equal to the int 1 and
    have its hash.  The int that a value is equal to, if there is one. *)
Definition as_int_key (k : pyvalue) : option Z :=
  match k with
  | PyInt z => Some z
  | PyBool b => Some (if b then 1 else 0)
  | PyFloat f => float_as_Z f
  | _ => None
  end.

Definition hashable (k : pyvalue) : bool :=
  match k with PyList _ => false | _ => true end.

(** [d[k]] on a dict whose keys are ints. *)
Definition dict_getitem {V} (d : gmap Z V) (k : pyvalue) : M V :=
  if hashable k then
    match as_int_key k ≫= (fun z => d !! z) with
    | Some v => ret v
    | None => raise (KeyError k)
    end
  else raise TypeError.

(** [(a, )*n]: the count must be an int (a bool is one); a float is refused,
    also one with an integer value. *)
Definition singleton_times {A} (a : A) (n : pyvalue) : M (list A) :=
  match n with
  | PyInt z => ret (replicate (Z.to_nat z) a)
  | PyBool b => ret (if b then [a] else [])
  | _ => raise TypeError
  end.

(** dolfin's unit mesh constructors: called with one positional argument per
    direction, each at least 1; the mesh is a new object. *)
Definition unit_mesh (name : string) (gdim : nat) (args : list Z) : M loc :=
  if (length args =? gdim)%nat then
    if forallb (fun n => 1 <=? n) args then alloc (Mesh args)
    else raise (LibraryError name)
  else raise TypeError.

Definition UnitIntervalMesh : list Z -> M loc := unit_mesh "UnitIntervalMesh" 1.
Definition UnitSquareMesh : list Z -> M loc := unit_mesh "UnitSquareMesh" 2.
Definition UnitCubeMesh : list Z -> M loc := unit_mesh "UnitCubeMesh" 3.

(** Lines 53-56: the dict is indexed first, then the tuple [(ncells, )*dim]
    is built and the constructor called.  [ncells] is an int. *)
Definition HyperCubeMesh (dim : pyvalue) (ncells : Z) : M loc :=
  let* ctor := dict_getitem
                 ({[ 1 := UnitIntervalMesh;
                     2 := UnitSquareMesh;
                     3 := UnitCubeMesh ]} : gmap Z (list Z -> M loc)) dim in
  let* args := singleton_times ncells dim in
  ctor args.

(** [mesh.num_vertices()]: a unit mesh with n cells per direction has n+1
    vertices per direction. *)
Definition vertices_of (cells : list Z) : Z :=
  fold_right (fun n acc => (n + 1) * acc) 1 cells.

Definition num_vertices (mesh : loc) : M Z :=
  let* c := read_mesh mesh in ret (vertices_of c).

(** [mesh.geometry().dim()] *)
Definition geometry_dim (mesh : loc) : M Z :=
  let* c := read_mesh mesh in ret (Z.of_nat (length c)).

(** ** Functions that call into FEniCS, numpy, scipy and sympy

    The library routines are parameters: a routine may return a value or
    raise.  Dense numpy arrays are lists of rows. *)

Definition ndarray := list (list float).

(** [np.sort] on a one-dimensional array. *)
Fixpoint insert_sorted (a : float) (l : list float) : list float :=
  match l with
  | [] => [a]
  | b :: l' => if (a <=? b)%float then a :: l else b :: insert_sorted a l'
  end.

Definition np_sort (l : list float) : list float :=
  fold_right insert_sorted [] l.

(** [a[[0, -1]]]: the first and the last entry. *)
Definition first_and_last (l : list float) : M (float * float) :=
  match l, last l with
  | a :: _, Some z => ret (a, z)
  | _, _ => raise IndexError
  end.

Section StiffnessCond.
(** [mesh.hmin()] *)
Variable hmin : loc -> M float.
(** Lines 92-101: function space, forms, boundary condition,
    [assemble_system] and [A.array()]. *)
Variable assemble_stiffness : loc -> M ndarray.
(** [np.linalg.eigvalsh] *)
Variable eigvalsh : ndarray -> M (list float).

(** Lines 76-105.  The last division is on numpy scalars: it never raises. *)
Definition stiffness_cond (dim n : Z) : M (float * float) :=
  let* mesh := HyperCubeMesh (PyInt dim) n in
  let* nv := num_vertices mesh in
  let* _ := py_assert (nv <? 5000) in
  let* mesh := HyperCubeMesh (PyInt dim) n in
  let* h := hmin mesh in
  let* A := assemble_stiffness mesh in
  let* eigs := eigvalsh A in
  let* '(lmin, lmax) := first_and_last (np_sort eigs) in
  ret (h, (lmax / lmin)%float).
End StiffnessCond.

(** ** coupled.ipynb: [hs_norm] *)

Section HsNorm.
(** A dolfin function or expression. *)
Variable func : Type.
(** Line 395: [interpolate(f, V).vector().array()] on the P1 space. *)
Variable interpolate_array : loc -> func -> M (list float).
(** Lines 390-403: the stiffness and mass matrices as dense arrays. *)
Variable assemble_stiffness_mass : loc -> func -> M (ndarray * ndarray).
(** [scipy.linalg.eigh(A, M)] *)
Variable eigh : ndarray -> ndarray -> M (list float * ndarray).
(** numpy: [X.dot(Y)], [X.dot(v)], [X.T], [np.diag(l**s)], [np.sum(u*v)] *)
Variable np_dot : ndarray -> ndarray -> M ndarray.
Variable np_dot_vec : ndarray -> list float -> M (list float).
Variable np_T : ndarray -> ndarray.
Variable np_diag_pow : list float -> float -> M ndarray.
Variable np_sum_mul : list float -> list float -> M float.

(** Lines 382-412. *)
Definition hs_norm (mesh : loc) (s : float) (f : func) : M float :=
  let* gdim := geometry_dim mesh in
  let* _ := py_assert (gdim =? 1) in
  let* nv := num_vertices mesh in
  let* _ := py_assert (nv <? 5000) in
  let* f_vec := interpolate_array mesh f in
  let* '(A, Mm) := assemble_stiffness_mass mesh f in
  let* '(lmbda, U) := eigh A Mm in
  let* V := np_dot Mm U in
  let* Lambda := np_diag_pow lmbda s in
  let* LVt := np_dot Lambda (np_T V) in
  let* H := np_dot V LVt in
  let* Hf := np_dot_vec H f_vec in
  let* total := np_sum_mul f_vec Hf in
  py_sqrt total.
End HsNorm.

(** ** coupled.ipynb: [expr_body] *)

(** [s.replace(old, new)] for a non-empty [old]; [skip] counts the characters
    of a match that are still to be dropped. *)
Fixpoint replace_from (old new : string) (skip : nat) (s : string) : string :=
  match s with
  | EmptyString => EmptyString
  | String c s' =>
      match skip with
      | S k => replace_from old new k s'
      | O =>
          if String.prefix old s
          then (new ++ replace_from old new (String.length old - 1) s')%string
          else String c (replace_from old new O s')
      end
  end.

Definition str_replace (old new s : string) : string := replace_from old new O s.

Section ExprBody.
(** A sympy expression, its [free_symbols] (symbols are compared by name)
    and [sympy.printing.ccode]. *)
Variable sympy : Type.
Variable free_symbols : sympy -> gset string.
Variable ccode : sympy -> M string.

(** The argument: an expression, or an object with [__len__] that holds
    arguments. *)
Inductive pyexpr : Type :=
| Scalar (e : sympy)
| Iterable (es : list pyexpr).

(** The result: a string, or a list of results. *)
Inductive body : Type :=
| Code (s : string)
| Bodies (bs : list body).

Definition xyz : gset string := {[ "x[0]"; "x[1]"; "x[2]" ]}.

(** Lines 48-64.  [kwargs] is the callee's own dict: updating it has no
    effect on the caller. *)
Fixpoint expr_body (kwargs : gmap string float) (expr : pyexpr) : M body :=
  match expr with
  | Scalar e =>
      let xyz_used := xyz ∩ free_symbols e in
      let* _ := py_assert (bool_decide (xyz_used ⊆ xyz)) in
      let params := (free_symbols e ∖ xyz_used) ∩ dom kwargs in
      let* c := ccode e in
      let expr' := str_replace "M_PI" "pi" c in
      let kwargs' :=
        set_fold (fun p (kw : gmap string float) => <[p := 0%float]> kw)
                 kwargs params in
      ret (Code expr')
  | Iterable es =>
      let* bs :=
        (fix each (l : list pyexpr) : M (list body) :=
           match l with
           | [] => ret []
           | e :: l' =>
               let* b := expr_body kwargs e in
               let* bs := each l' in
               ret (b :: bs)
           end) es in
      ret (Bodies bs)
  end.
End ExprBody.

(** ** The notebooks, call by call

    The second embedding keeps what the first leaves to parameters: which
    routines of which libraries the code calls, in which order, and where
    a value that is printed comes from.  A value is a [term]: a literal of
    the notebook, or the result [Res routine args] of a call, which is not
    interpreted.  A term records how a value was obtained, not what it is.
    A program is the tree of the calls it makes; where the code tests a
    value that a library produced, the tree branches.  A call may raise: a
    run of the program is a path of the tree, or a part of one.

    Routines are named as the imports bind them ([dolfin.FunctionSpace],
    [block.iterative.Richardson]); a method is [.name] with the receiver as
    first argument; an operator or a builtin applied to a value that a
    library produced is a call named by the operator ([*], [len]), since
    the class of the value decides what runs; so is [x += y], after which
    [x] names what the call returned.  Arithmetic on literals of the
    notebook is computed, and a function of the notebook is unfolded where
    it is called, so that a cell which only defines functions calls
    nothing.  An [import] binds names and is no call; the IPython magic
    [%matplotlib inline] is left out. *)

Module Calls.

Inductive term : Type :=
| Int (z : Z)
| Flt (f : float)
| Str (s : string)
| Bool (b : bool)
| NoneT
| Slice                                   (* [:] *)
| Name (qualified : string)               (* a name bound by an import, [dolfin.dx],
                                             or by an earlier cell *)
| Fn (name : string)                      (* a function defined in the notebook *)
| Tuple (ts : list term)                  (* a tuple or list built by the notebook *)
| Kw (key : string) (t : term)            (* a keyword argument *)
| Res (routine : string) (args : list term)   (* what a call returned *)
| Attr (t : term) (name : string)         (* [t.name] *)
| Item (t : term) (i : Z)                 (* the i-th value when [t] is unpacked *)
| Next (iterable : term).                 (* the loop variable of [for v in iterable] *)

Inductive prog (A : Type) : Type :=
| Ret (a : A)
| Raise (e : exn)                         (* a failed [assert], a missing key *)
| Call (routine : string) (args : list term) (k : prog A)
| Output (items : list term) (k : prog A)
| Branch (test : term) (yes no : prog A)  (* a test on a value of a library *)
| Loop (iterable : term) (body : prog unit) (k : prog A).
                                          (* [for] over an iterable of a library:
                                             [body] any number of times *)
Arguments Ret {A} a.
Arguments Raise {A} e.
Arguments Call {A} routine args k.
Arguments Output {A} items k.
Arguments Branch {A} test yes no.
Arguments Loop {A} iterable body k.

Fixpoint bind {A B : Type} (m : prog A) (f : A -> prog B) : prog B :=
  match m with
  | Ret a => f a
  | Raise e => Raise e
  | Call r args k => Call r args (bind k f)
  | Output items k => Output items (bind k f)
  | Branch t y n => Branch t (bind y f) (bind n f)
  | Loop it body k => Loop it body (bind k f)
  end.

Notation "'let+' x ':=' m 'in' k" := (bind m (fun x => k))
  (at level 10, x name, m at level 100, k at level 200).
Notation "'let+' ' p ':=' m 'in' k" := (bind m (fun p => k))
  (at level 10, p strict pattern, m at level 100, k at level 200).

(** *** Expressions and statements of Python *)

(** An expression: the calls of its evaluation, then its value. *)
Definition E : Type := prog term.
Definition lit (t : term) : E := Ret t.
Coercion lit : term >-> E.
Coercion Int : Z >-> term.
Coercion Str : string >-> term.
Coercion Flt : float >-> term.

Notation "[| |]" := (@nil E).
Notation "[| x ; .. ; y |]" := (@cons E x .. (@cons E y (@nil E)) ..).

(** Operands and arguments are evaluated from left to right. *)
Fixpoint eval_all (es : list E) : prog (list term) :=
  match es with
  | [] => Ret []
  | e :: es' => let+ t := e in let+ ts := eval_all es' in Ret (t :: ts)
  end.

(** [routine(args)] *)
Definition app (routine : string) (args : list E) : E :=
  let+ ts := eval_all args in Call routine ts (Ret (Res routine ts)).
(** [recv.name(args)] *)
Definition meth (recv : E) (name : string) (args : list E) : E :=
  app ("." ++ name) (recv :: args).
(** [recv.name] *)
Definition attr (recv : E) (name : string) : E :=
  let+ t := recv in Ret (Attr t name).
(** [key=e] *)
Definition kw (key : string) (e : E) : E := let+ t := e in Ret (Kw key t).
(** [(e1, ..., en)] and [[e1, ..., en]] *)
Definition tuple (es : list E) : E := let+ ts := eval_all es in Ret (Tuple ts).
(** [e[i]] *)
Definition getitem (e i : E) : E := app "[]" [| e; i |].
(** [target[index] = value]: the value is evaluated first. *)
Definition setitem (target index value : E) : prog unit :=
  let+ v := value in let+ t := target in let+ i := index in
  Call "[]=" [t; i; v] (Ret tt).
(** [target += value]: what [target] names afterwards *)
Definition iadd (target value : E) : E := app "+=" [| target; value |].
(** [assert test] *)
Definition assert_ (test : E) : prog unit :=
  let+ t := test in Branch t (Ret tt) (Raise AssertionError).
(** [if test: yes else: no] on a value of a library *)
Definition if_ {A : Type} (test : E) (yes no : prog A) : prog A :=
  let+ t := test in Branch t yes no.
(** [print e1, ..., en]; for [print fmt % (e1, ..., en)] the format comes
    first. *)
Definition print (items : list E) : prog unit :=
  let+ ts := eval_all items in Output ts (Ret tt).
(** [for x in xs: body] over a tuple or list of the notebook *)
Fixpoint for_each {X : Type} (xs : list X) (body : X -> prog unit) : prog unit :=
  match xs with
  | [] => Ret tt
  | x :: xs' => let+ _ := body x in for_each xs' body
  end.
(** [[f(x) for x in xs]] and [map(f, xs)] *)
Fixpoint map_each {X Y : Type} (xs : list X) (f : X -> prog Y) : prog (list Y) :=
  match xs with
  | [] => Ret []
  | x :: xs' => let+ y := f x in let+ ys := map_each xs' f in Ret (y :: ys)
  end.
(** [for v in iterable: body] over an iterable of a library *)
Definition for_in (iterable : E) (body : term -> prog unit) : prog unit :=
  let+ it := iterable in Loop it (body (Next it)) (Ret tt).

(** [float(z)] and [z1/z2] for ints of the notebook turned to floats. *)
Definition float_of_Z (z : Z) : float := SF2Prim (binary_normalize prec emax z 0 false).

Declare Scope py_scope.
Delimit Scope py_scope with py.
Notation "a * b" := (app "*" [| a; b |]) : py_scope.
Notation "a + b" := (app "+" [| a; b |]) : py_scope.
Notation "a - b" := (app "-" [| a; b |]) : py_scope.
Notation "a / b" := (app "/" [| a; b |]) : py_scope.
Notation "- a" := (app "neg" [| a |]) : py_scope.

(** Names that [from dolfin import *] binds, as the notebooks use them. *)
Definition inner (a b : E) : E := app "dolfin.inner" [| a; b |].
Definition grad (a : E) : E := app "dolfin.grad" [| a |].
Definition dot (a b : E) : E := app "dolfin.dot" [| a; b |].
Definition div (a : E) : E := app "dolfin.div" [| a |].
Definition Constant (a : E) : E := app "dolfin.Constant" [| a |].
Definition dx : term := Name "dolfin.dx".
Definition pi : term := Name "dolfin.pi".
Definition ln (a : E) : E := app "dolfin.ln" [| a |].

(** *** preconditioning.ipynb *)

(** Lines 51-56.  The cell defines the function and calls nothing. *)
Definition HyperCubeMesh (dim ncells : Z) : E :=
  match ({[ 1 := "dolfin.UnitIntervalMesh";
            2 := "dolfin.UnitSquareMesh";
            3 := "dolfin.UnitCubeMesh" ]} : gmap Z string) !! dim with
  | Some ctor =>
      app ctor (List.map (fun c : Z => lit c) (replicate (Z.to_nat dim) ncells))
  | None => Raise (KeyError (PyInt dim))
  end.

Definition cell_51 : prog unit := Ret tt.

(** Lines 74-105. *)
Definition stiffness_cond (dim n : Z) : prog (term * term) :=
  let+ mesh := HyperCubeMesh dim n in
  let+ _ := assert_ (app "<" [| meth mesh "num_vertices" [| |]; 5000 |]) in
  let+ mesh := HyperCubeMesh dim n in
  let+ h := meth mesh "hmin" [| |] in
  let+ V := app "dolfin.FunctionSpace" [| mesh; "CG"; 1 |] in
  let+ u := app "dolfin.TrialFunction" [| V |] in
  let+ v := app "dolfin.TestFunction" [| V |] in
  let+ a := (inner (grad u) (grad v) * dx)%py in
  let+ L := (inner (Constant 0) v * dx)%py in
  let+ bc := app "dolfin.DirichletBC" [| V; Constant 0; "on_boundary" |] in
  let+ Ab := app "dolfin.assemble_system" [| a; L; bc |] in
  let+ A := meth (Item Ab 0) "array" [| |] in
  let+ mm := getitem (app "numpy.sort" [| app "numpy.linalg.eigvalsh" [| A |] |])
                     (Tuple [Int 0; Int (-1)]) in
  let+ c := (Item mm 1 / Item mm 0)%py in
  Ret (h, c).

Definition cell_74 : prog unit := Ret tt.

(** Lines 116-119. *)
Definition cell_116 : prog unit :=
  let+ _ := setitem (Name "matplotlib.rcParams") "figure.figsize"
                    (Tuple [Int 14; Int 8]) in
  setitem (Name "matplotlib.rcParams") "font.size" 14.

(** Lines 130-137. *)
Definition cell_130 : prog unit :=
  let+ rows := map_each (seqZ 2 9)
                 (fun i => let+ '(h, c) := stiffness_cond 1 (2 ^ i) in
                           Ret (Tuple [h; c])) in
  let+ arr := app "numpy.array" [| Tuple rows |] in
  let h := Item (Attr arr "T") 0 in
  let cond := Item (Attr arr "T") 1 in
  let+ _ := app "matplotlib.pyplot.loglog" [| h; cond; kw "label" "$\kappa$" |] in
  let+ _ := app "matplotlib.pyplot.loglog"
              [| h; app "**" [| h; Int (-2) |]; kw "label" "$h^{-2}$" |] in
  let+ _ := app "matplotlib.pyplot.legend" [| kw "loc" "best" |] in
  Ret tt.

(** Lines 155-181.  The defaults [Constant(1)] are built when the cell that
    defines the function runs. *)
Definition poisson (dim n : Z) (sigma epsilon : term) : prog (term * term * term) :=
  let+ mesh := HyperCubeMesh dim n in
  let+ V := app "dolfin.FunctionSpace" [| mesh; "CG"; 1 |] in
  let+ u := app "dolfin.TrialFunction" [| V |] in
  let+ v := app "dolfin.TestFunction" [| V |] in
  let+ bc := app "dolfin.DirichletBC" [| V; Constant 0; "near(x[0], 0)" |] in
  let+ boundaries := app "dolfin.FacetFunction" [| "size_t"; mesh; 1 |] in
  let+ _ := meth (app "dolfin.CompiledSubDomain" [| "near(x[0], 0)" |]) "mark"
                 [| boundaries; 0 |] in
  let+ dsN := app "dolfin.Measure"
                [| "ds"; kw "domain" mesh; kw "subdomain_data" boundaries;
                   kw "subdomain_id" 1 |] in
  let+ a := (inner (grad u) (grad v) * dx + inner (sigma * u) v * dx
             + inner (epsilon * u) v * dsN)%py in
  let+ L := (inner (Constant 0) v * dx)%py in
  let+ Ab := app "dolfin.assemble_system" [| a; L; bc |] in
  Ret (Item Ab 0, Item Ab 1, V).

Definition one : term := Res "dolfin.Constant" [Int 1].

Definition cell_155 : prog unit :=
  let+ _ := Constant 1 in let+ _ := Constant 1 in Ret tt.

(** Lines 209-221. *)
Definition riesz_H1 (V : term) : E :=
  let+ u := app "dolfin.TrialFunction" [| V |] in
  let+ v := app "dolfin.TestFunction" [| V |] in
  let+ bc := app "dolfin.DirichletBC" [| V; Constant 0; "near(x[0], 0)" |] in
  let+ a := (inner (grad u) (grad v) * dx + inner u v * dx)%py in
  let+ L := (inner (Constant 0) v * dx)%py in
  let+ Ab := app "dolfin.assemble_system" [| a; L; bc |] in
  app "block.algebraic.petsc.AMG" [| Item Ab 0 |].

Definition cell_209 : prog unit := Ret tt.

(** Lines 232-242. *)
Definition riesz_H10 (V : term) : E :=
  let+ u := app "dolfin.TrialFunction" [| V |] in
  let+ v := app "dolfin.TestFunction" [| V |] in
  let+ bc := app "dolfin.DirichletBC" [| V; Constant 0; "near(x[0], 0)" |] in
  let+ a := (inner (grad u) (grad v) * dx)%py in
  let+ L := (inner (Constant 0) v * dx)%py in
  let+ Ab := app "dolfin.assemble_system" [| a; L; bc |] in
  app "block.algebraic.petsc.AMG" [| Item Ab 0 |].

Definition cell_232 : prog unit := Ret tt.

(** Lines 260-280. *)
Definition cell_260 : prog unit :=
  for_each [8; 16; 32; 64; 128; 256; 512] (fun n : Z =>
    let+ '(A, b, V) := poisson 2 n one one in
    let+ B := riesz_H10 V in
    let+ uh := app "dolfin.Function" [| V |] in
    let+ x := meth uh "vector" [| |] in
    let+ _ := meth x "set_local"
                [| app "numpy.random.rand" [| meth x "local_size" [| |] |] |] in
    let rho := 0.5%float in
    let+ Ainv := app "block.iterative.Richardson"
                   [| kw "A" A; kw "precond" (rho * B)%py; kw "initial_guess" x;
                      kw "tolerance" 1e-4%float |] in
    let+ _ := setitem x Slice (Ainv * b)%py in
    let+ niters := (app "len" [| attr Ainv "residuals" |] - 1)%py in
    print [| "n = %d, dofs = %d, niters = %d"; n; meth A "size" [| 0 |]; niters |]).

(** Lines 308-326. *)
Definition Diag (A : term) : E :=
  let+ dvec := meth (meth (app "dolfin.as_backend_type" [| A |]) "mat" [| |])
                    "getDiagonal" [| |] in
  let+ diagAinv := meth (app "petsc4py.PETSc.Mat" [| |]) "createAIJ"
                        [| attr dvec "size"; kw "nnz" 1 |] in
  let+ _ := meth diagAinv "setDiagonal" [| dvec |] in
  app "dolfin.PETScMatrix" [| diagAinv |].

Definition InvDiag (A : term) : E :=
  let+ dvec := meth (meth (app "dolfin.as_backend_type" [| A |]) "mat" [| |])
                    "getDiagonal" [| |] in
  let+ _ := meth dvec "reciprocal" [| |] in
  let+ diagAinv := meth (app "petsc4py.PETSc.Mat" [| |]) "createAIJ"
                        [| attr dvec "size"; kw "nnz" 1 |] in
  let+ _ := meth diagAinv "setDiagonal" [| dvec |] in
  app "dolfin.PETScMatrix" [| diagAinv |].

Definition cell_308 : prog unit := Ret tt.

(** Lines 338-352. *)
Definition cell_338 : prog unit :=
  for_each [8; 16; 32; 64; 128; 256; 512] (fun n : Z =>
    let+ '(A, b, V) := poisson 1 n one one in
    let+ B := InvDiag A in
    let+ uh := app "dolfin.Function" [| V |] in
    let+ x := meth uh "vector" [| |] in
    let+ _ := meth x "set_local"
                [| app "numpy.random.rand" [| meth x "local_size" [| |] |] |] in
    let+ Ainv := app "block.iterative.Richardson"
                   [| kw "A" A; kw "precond" ((2 / 3)%float * B)%py;
                      kw "initial_guess" x; kw "tolerance" 1e-4%float |] in
    let+ _ := setitem x Slice (Ainv * b)%py in
    let+ niters := (app "len" [| attr Ainv "residuals" |] - 1)%py in
    print [| "n = %d, dofs = %d, niters = %d"; n; meth A "size" [| 0 |]; niters |]).

(** Lines 371-386. *)
Definition projection (dim n : Z) : prog (term * term * term) :=
  let+ mesh := HyperCubeMesh dim n in
  let+ V := app "dolfin.FunctionSpace" [| mesh; "CG"; 1 |] in
  let+ u := app "dolfin.TrialFunction" [| V |] in
  let+ v := app "dolfin.TestFunction" [| V |] in
  let+ a := (inner u v * dx)%py in
  let+ L := (inner (Constant 1) v * dx)%py in
  let+ Ab := app "dolfin.assemble_system" [| a; L |] in
  Ret (Item Ab 0, Item Ab 1, V).

Definition cell_371 : prog unit := Ret tt.

(** Lines 397-418.  [dim] is 3, so [dim < 3 or ...] goes on to test
    [V.dim() < 5000]. *)
Definition cell_397 : prog unit :=
  for_each [2; 4; 8; 16; 32] (fun n : Z =>
    let+ '(M, b, V) := projection 3 n in
    let+ B := InvDiag M in
    let+ _ := if_ (app "<" [| meth V "dim" [| |]; 5000 |])
                (let+ Binv := Diag M in
                 let+ mm := getitem
                              (app "numpy.sort"
                                 [| app "scipy.linalg.eigvalsh"
                                      [| meth M "array" [| |];
                                         meth Binv "array" [| |] |] |])
                              (Tuple [Int 0; Int (-1)]) in
                 let lmin := Item mm 0 in
                 let lmax := Item mm 1 in
                 print [| "lmin = %g, lmax = %g, cond = %g"; lmin; lmax;
                          (lmax / lmin)%py |])
                (Ret tt) in
    let+ uh := app "dolfin.Function" [| V |] in
    let+ x := meth uh "vector" [| |] in
    let+ Ainv := app "block.iterative.Richardson"
                   [| kw "A" M; kw "precond" ((2 / 3)%float * B)%py;
                      kw "initial_guess" x; kw "tolerance" 1e-4%float;
                      kw "maxiter" 10000 |] in
    let+ _ := setitem x Slice (Ainv * b)%py in
    let+ niters := (app "len" [| attr Ainv "residuals" |] - 1)%py in
    let tab := String (ascii_of_nat 9) EmptyString in
    print [| (app "<" [| meth V "dim" [| |]; 5000 |] * tab)%py;
             "n = %d, dofs = %d, niters = %d"; n; meth M "size" [| 0 |]; niters |]).

(** Lines 436-453.  [remaining] is [maxiter - iter]: the test
    [iter < maxiter] is that of [remaining] against zero. *)
Fixpoint sd_loop (remaining : nat) (A x b B r error : term) (tolerance : float)
    (iter : Z) : prog Z :=
  let+ above := app ">" [| error; tolerance |] in
  Branch above
    match remaining with
    | O => Ret iter
    | S remaining' =>
        let+ p := (B * r)%py in
        let+ Ap := (A * p)%py in
        let+ rho := (meth r "inner" [| p |] / meth Ap "inner" [| p |])%py in
        let+ x := iadd x (rho * p)%py in
        let+ r := (b - A * x)%py in
        let+ error := app "dolfin.sqrt" [| meth r "inner" [| r |] |] in
        sd_loop remaining' A x b B r error tolerance (iter + 1)
    end
    (Ret iter).

Definition steepest_descent (A x b B : term) (tolerance : float) (maxiter : Z)
    : prog Z :=
  let+ r := (b - A * x)%py in
  let+ error := app "dolfin.sqrt" [| meth r "inner" [| r |] |] in
  sd_loop (Z.to_nat maxiter) A x b B r error tolerance 0.

Definition cell_436 : prog unit := Ret tt.

(** Lines 468-478: one round of the loop of the cell. *)
Definition cell_464_round (n : Z) : prog unit :=
  let+ '(A, b, V) := poisson 2 n one one in
  let+ B := riesz_H10 V in
  let+ uh := app "dolfin.Function" [| V |] in
  let+ x := meth uh "vector" [| |] in
  let+ _ := meth x "set_local"
              [| app "numpy.random.rand" [| meth x "local_size" [| |] |] |] in
  let+ niters := steepest_descent A x b B 1e-4 200 in
  print [| "n = %d, dofs = %d, niters = %d"; n; meth A "size" [| 0 |];
           Int niters |].

(** Lines 464-478. *)
Definition cell_464 : prog unit :=
  for_each [8; 16; 32; 64; 128; 256; 512] cell_464_round.

(** Lines 496-514. *)
Definition cell_496 : prog unit :=
  for_each [8; 16; 32; 64; 128; 256; 512] (fun n : Z =>
    let+ '(A, b, V) := poisson 2 n one one in
    let+ B := riesz_H10 V in
    let+ uh := app "dolfin.Function" [| V |] in
    let+ x := meth uh "vector" [| |] in
    let+ _ := meth x "set_local"
                [| app "numpy.random.rand" [| meth x "local_size" [| |] |] |] in
    let+ Ainv := app "block.iterative.ConjGrad"
                   [| kw "A" A; kw "precond" B; kw "initial_guess" x;
                      kw "tolerance" 1e-4%float |] in
    let+ _ := setitem x Slice (Ainv * b)%py in
    let+ niters := (app "len" [| attr Ainv "residuals" |] - 1)%py in
    print [| "n = %d, dofs = %d, niters = %d"; n; meth A "size" [| 0 |]; niters |]).

(** Lines 545-572. *)
Definition cd_system_Galerkin (n : Z) (epsilon : term)
    : prog (term * term * term) :=
  let+ mesh := app "dolfin.UnitSquareMesh" [| n; n |] in
  let+ V := app "dolfin.FunctionSpace" [| mesh; "CG"; 1 |] in
  let+ u := app "dolfin.TrialFunction" [| V |] in
  let+ v := app "dolfin.TestFunction" [| V |] in
  let+ bc := app "dolfin.DirichletBC" [| V; Constant 0; "near(x[0], 0)" |] in
  let+ beta := app "dolfin.Expression"
                 [| Tuple [Str "A*x[1]*(1-x[1])"; Str "0"]; kw "degree" 2;
                    kw "A" 1%float |] in
  let+ f := Constant 1 in
  let+ a := (Constant epsilon * inner (grad u) (grad v) * dx
             + inner (dot beta (grad u)) v * dx)%py in
  let+ L := (inner f v * dx)%py in
  let+ A := app "dolfin.assemble" [| a |] in
  let+ b := app "dolfin.assemble" [| L |] in
  let+ _ := meth bc "apply" [| A; b |] in
  Ret (A, b, V).

Definition cell_545 : prog unit := Ret tt.

(** Lines 591-609. *)
Definition cell_591 : prog unit :=
  for_each [8; 16; 32; 64; 128] (fun n : Z =>
    let+ '(A, b, V) := cd_system_Galerkin n 1%float in
    let+ B := riesz_H1 V in
    let+ uh := app "dolfin.Function" [| V |] in
    let+ x := meth uh "vector" [| |] in
    let+ _ := meth x "set_local"
                [| app "numpy.random.rand" [| meth x "local_size" [| |] |] |] in
    let rho := 0.8%float in
    let+ Ainv := app "block.iterative.Richardson"
                   [| kw "A" A; kw "precond" (rho * B)%py; kw "initial_guess" x;
                      kw "tolerance" 1e-4%float |] in
    let+ _ := setitem x Slice (Ainv * b)%py in
    let+ niters := (app "len" [| attr Ainv "residuals" |] - 1)%py in
    print [| "n = %d, dofs = %d, niters = %d"; n; meth A "size" [| 0 |]; niters |]).

(** Lines 627-646. *)
Definition cell_627 : prog unit :=
  for_each [8; 16; 32; 64; 128; 256; 512] (fun n : Z =>
    let+ '(A, b, V) := cd_system_Galerkin n 1e-3%float in
    let+ B := riesz_H1 V in
    let+ uh := app "dolfin.Function" [| V |] in
    let+ x := meth uh "vector" [| |] in
    let+ _ := meth x "set_local"
                [| app "numpy.random.rand" [| meth x "local_size" [| |] |] |] in
    let+ Ainv := app "block.iterative.LGMRES"
                   [| kw "A" A; kw "precond" B; kw "initial_guess" x;
                      kw "tolerance" 1e-6%float |] in
    let+ _ := setitem x Slice (Ainv * b)%py in
    let+ niters := (app "len" [| attr Ainv "residuals" |] - 1)%py in
    print [| "n = %d, dofs = %d, niters = %d"; n; meth A "size" [| 0 |]; niters |]).

(** Lines 673-719.  [abs(0.25)] is 0.25.  The chained comparison of line 716
    stops at the first pair that differs. *)
Definition cd_system_SUPG (n : Z) (epsilon : term)
    : prog (term * term * term * term) :=
  let+ mesh := app "dolfin.UnitSquareMesh" [| n; n |] in
  let+ V := app "dolfin.FunctionSpace" [| mesh; "CG"; 1 |] in
  let+ u := app "dolfin.TrialFunction" [| V |] in
  let+ v := app "dolfin.TestFunction" [| V |] in
  let+ bc := app "dolfin.DirichletBC" [| V; Constant 0; "near(x[0], 0)" |] in
  let+ beta := app "dolfin.Expression"
                 [| Tuple [Str "x[1]*(1-x[1])"; Str "0"]; kw "degree" 2 |] in
  let+ f := Constant 1 in
  let+ a := (Constant epsilon * inner (grad u) (grad v) * dx
             + inner (dot beta (grad u)) v * dx)%py in
  let+ L := (inner f v * dx)%py in
  let+ h := meth mesh "hmin" [| |] in
  let beta_max := 0.25%float in
  let+ delta := Constant (h / 2%float / beta_max)%py in
  let+ a := iadd a (delta * inner (dot beta (grad u)) (dot beta (grad v)) * dx)%py in
  let+ L := iadd L (inner f (delta * dot beta (grad v)) * dx)%py in
  let+ A := app "dolfin.assemble" [| a |] in
  let+ b := app "dolfin.assemble" [| L |] in
  let+ _ := meth bc "apply" [| A; b |] in
  let+ a := (Constant epsilon * inner (grad u) (grad v) * dx
             + delta * inner (dot beta (grad u)) (dot beta (grad v)) * dx)%py in
  let+ L := (inner (Constant 0) v * dx)%py in
  let+ Bb := app "dolfin.assemble_system" [| a; L; bc |] in
  let B := Item Bb 0 in
  let+ s1 := meth A "size" [| 0 |] in
  let+ s2 := meth A "size" [| 1 |] in
  let+ _ := assert_ (app "==" [| s1; s2 |]) in
  let+ s3 := meth B "size" [| 0 |] in
  let+ _ := assert_ (app "==" [| s2; s3 |]) in
  let+ s4 := meth B "size" [| 1 |] in
  let+ _ := assert_ (app "==" [| s3; s4 |]) in
  let+ s5 := meth b "size" [| |] in
  let+ _ := assert_ (app "==" [| s4; s5 |]) in
  let+ B := app "block.algebraic.petsc.AMG" [| B |] in
  Ret (A, b, B, V).

Definition cell_673 : prog unit := Ret tt.

(** Lines 737-750. *)
Definition cell_737 : prog unit :=
  for_each [8; 16; 32; 64; 128; 256; 512] (fun n : Z =>
    let+ '(A, b, B, V) := cd_system_SUPG n 1e-4%float in
    let+ uh := app "dolfin.Function" [| V |] in
    let+ x := meth uh "vector" [| |] in
    let+ _ := meth x "set_local"
                [| app "numpy.random.rand" [| meth x "local_size" [| |] |] |] in
    let+ Ainv := app "block.iterative.LGMRES"
                   [| kw "A" A; kw "precond" B; kw "initial_guess" x;
                      kw "tolerance" 1e-4%float |] in
    let+ _ := setitem x Slice (Ainv * b)%py in
    let+ niters := (app "len" [| attr Ainv "residuals" |] - 1)%py in
    print [| "n = %d, dofs = %d, niters = %d"; n; meth A "size" [| 0 |]; niters |]).

(** The code cells of preconditioning.ipynb, in order. *)
Definition preconditioning : list (prog unit) :=
  [cell_51; cell_74; cell_116; cell_130; cell_155; cell_209; cell_232; cell_260;
   cell_308; cell_338; cell_371; cell_397; cell_436; cell_464; cell_496;
   cell_545; cell_591; cell_627; cell_673; cell_737].

(** *** coupled.ipynb *)

(** Lines 48-64, as [as_expression] calls it: without keyword arguments, so
    [set(kwargs.keys())] is the empty set.  The argument is an expression of
    sympy or a tuple of arguments, which is what [hasattr(expr, '__len__')]
    tells apart.  The generator of line 60 calls [str] for each of
    [params]. *)
Fixpoint expr_body (expr : pyexpr term) : E :=
  match expr with
  | Scalar _ e =>
      let+ xyz := app "set" [| app "sympy.symbols" [| "x[0], x[1], x[2]" |] |] in
      let+ xyz_used := app "&" [| xyz; attr e "free_symbols" |] in
      let+ _ := assert_ (app "<=" [| xyz_used; xyz |]) in
      let+ params := app "&" [| (attr e "free_symbols" - xyz_used)%py; Tuple [] |] in
      let+ code := meth (app "sympy.printing.ccode" [| e |]) "replace"
                        [| "M_PI"; "pi" |] in
      let+ _ := for_in params (fun p => let+ _ := app "str" [| p |] in Ret tt) in
      Ret code
  | Iterable _ es =>
      let+ bodies :=
        (fix each (l : list (pyexpr term)) : prog (list term) :=
           match l with
           | [] => Ret []
           | e :: l' =>
               let+ t := expr_body e in
               let+ ts := each l' in
               Ret (t :: ts)
           end) es in
      Ret (Tuple bodies)
  end.

(** Lines 67-69; [degree] is left to its default 4. *)
Definition as_expression (expr : pyexpr term) : E :=
  app "dolfin.Expression" [| expr_body expr; kw "degree" 4 |].

Definition cell_43 : prog unit := Ret tt.

(** Lines 92-125. *)
Definition mixed_poisson (n : Z) (f : term) : prog (term * term * term) :=
  let+ mesh := app "dolfin.UnitSquareMesh" [| n; n |] in
  let+ V := app "dolfin.VectorElement"
              [| "Discontinuous Lagrange"; meth mesh "ufl_cell" [| |]; 0 |] in
  let+ Q := app "dolfin.FiniteElement"
              [| "Lagrange"; meth mesh "ufl_cell" [| |]; 1 |] in
  let+ W := app "dolfin.FunctionSpace"
              [| mesh; app "dolfin.MixedElement" [| Tuple [V; Q] |] |] in
  let+ su := app "dolfin.TrialFunctions" [| W |] in
  let sigma := Item su 0 in
  let u := Item su 1 in
  let+ tv := app "dolfin.TestFunctions" [| W |] in
  let tau := Item tv 0 in
  let v := Item tv 1 in
  let+ a := (inner sigma tau * dx - inner (grad u) tau * dx
             - inner (grad v) sigma * dx)%py in
  let+ L := (- inner f v * dx)%py in
  let+ bc := app "dolfin.DirichletBC"
               [| meth W "sub" [| 1 |]; Constant 0; "on_boundary" |] in
  let+ wh := app "dolfin.Function" [| W |] in
  let+ _ := app "dolfin.solve" [| app "==" [| a; L |]; wh; bc |] in
  let+ split := meth wh "split" [| kw "deepcopy" (Bool true) |] in
  let+ h := meth mesh "hmin" [| |] in
  Ret (h, Item split 0, Item split 1).

Definition cell_90 : prog unit := Ret tt.

(** The sympy set-up that opens the cells at lines 136 and 254. *)
Definition manufactured : prog (term * term * term) :=
  let+ xy := app "sympy.symbols" [| "x[0] x[1]" |] in
  let x := Item xy 0 in
  let y := Item xy 1 in
  let+ u := (x * (1 - x) * y * (1 - y)
             * app "sympy.sin" [| (Name "sympy.pi" * (x + y))%py |])%py in
  let+ f := (- (meth u "diff" [| x; 2 |] + meth u "diff" [| y; 2 |]))%py in
  let+ sigma1 := meth u "diff" [| x; 1 |] in
  let+ sigma2 := meth u "diff" [| y; 1 |] in
  let+ u := as_expression (Scalar _ u) in
  let+ f := as_expression (Scalar _ f) in
  let+ sigma := as_expression (Iterable _ [Scalar _ sigma1; Scalar _ sigma2]) in
  Ret (u, f, sigma).

(** The rate [ln(e/es[-1])/ln(h/hs[-1])], or -1 in the first round. *)
Definition rate (e h : term) (es hs : list term) : E :=
  match last es, last hs with
  | Some e0, Some h0 => (ln (e / e0) / ln (h / h0))%py
  | _, _ => Int (-1)
  end.

(** Lines 136-159. *)
Fixpoint cell_136_loop (ns : list Z) (u f sigma : term) (hs sigmas us : list term)
    : prog unit :=
  match ns with
  | [] => Ret tt
  | n :: ns' =>
      let+ '(h, sigmah, uh) := mixed_poisson n f in
      let+ es := app "dolfin.errornorm" [| sigma; sigmah; "L2" |] in
      let+ eu := app "dolfin.errornorm" [| u; uh; "H10" |] in
      let+ rates := rate es h sigmas hs in
      let+ rateu := rate eu h us hs in
      let+ _ := print [| "|sigma-sigmah|_0 = %g(%.2f), |u-uh|_1 = %g(%.2f)";
                         es; rates; eu; rateu |] in
      cell_136_loop ns' u f sigma (hs ++ [h]) (sigmas ++ [es]) (us ++ [eu])
  end.

Definition cell_136 : prog unit :=
  let+ '(u, f, sigma) := manufactured in
  cell_136_loop [2; 4; 8; 16; 32; 64] u f sigma [] [] [].

(** Lines 182-243. *)
Definition mixed_poisson_block (n : Z) (f : term)
    : prog (term * term * term * term) :=
  let+ mesh := app "dolfin.UnitSquareMesh" [| n; n |] in
  let+ V := app "dolfin.VectorElement"
              [| "Lagrange"; meth mesh "ufl_cell" [| |]; 1 |] in
  let+ Q := app "dolfin.FiniteElement"
              [| "Lagrange"; meth mesh "ufl_cell" [| |]; 2 |] in
  let+ W0 := app "dolfin.FunctionSpace" [| mesh; V |] in
  let+ W1 := app "dolfin.FunctionSpace" [| mesh; Q |] in
  let+ sigma := app "dolfin.TrialFunction" [| W0 |] in
  let+ u := app "dolfin.TrialFunction" [| W1 |] in
  let+ tau := app "dolfin.TestFunction" [| W0 |] in
  let+ v := app "dolfin.TestFunction" [| W1 |] in
  let+ a00 := (inner sigma tau * dx)%py in
  let+ a01 := (- inner (grad u) tau * dx)%py in
  let+ a10 := (- inner (grad v) sigma * dx)%py in
  let+ AA := app "block.block_assemble"
               [| Tuple [Tuple [a00; a01]; Tuple [a10; Int 0]] |] in
  let+ L0 := (inner (Constant (Tuple [Int 0; Int 0])) tau * dx)%py in
  let+ L1 := (- inner f v * dx)%py in
  let+ bb := app "block.block_assemble" [| Tuple [L0; L1] |] in
  let+ bcsQ := tuple [| app "dolfin.DirichletBC" [| W1; Constant 0; "on_boundary" |] |] in
  let+ bcs := app "block.block_bc" [| Tuple [Tuple []; bcsQ]; Bool true |] in
  let+ _ := meth (meth bcs "apply" [| AA |]) "apply" [| bb |] in
  let+ M := app "dolfin.assemble" [| (inner sigma tau * dx)%py |] in
  let+ Nb := app "dolfin.assemble_system"
               [| (inner (grad u) (grad v) * dx)%py; L1; bcsQ |] in
  let+ M := app "block.algebraic.petsc.AMG" [| M |] in
  let+ N := app "block.algebraic.petsc.AMG" [| Item Nb 0 |] in
  let+ BB := app "block.block_mat"
               [| Tuple [Tuple [M; Int 0]; Tuple [Int 0; N]] |] in
  let+ sigmah := app "dolfin.Function" [| W0 |] in
  let+ uh := app "dolfin.Function" [| W1 |] in
  let+ x := app "block.block_vec"
              [| tuple [| meth sigmah "vector" [| |]; meth uh "vector" [| |] |] |] in
  let+ _ := meth x "randomize" [| |] in
  let+ AAinv := app "block.iterative.MinRes"
                  [| AA; kw "precond" BB; kw "tolerance" 1e-10%float; kw "show" 2;
                     kw "initial_guess" x |] in
  let+ x := (AAinv * bb)%py in
  let+ _ := setitem (meth sigmah "vector" [| |]) Slice (getitem x 0) in
  let+ _ := setitem (meth uh "vector" [| |]) Slice (getitem x 1) in
  let+ h := meth mesh "hmin" [| |] in
  let+ niters := (app "len" [| attr AAinv "residuals" |] - 1)%py in
  Ret (h, sigmah, uh, niters).

Definition cell_177 : prog unit := Ret tt.

(** Lines 254-278. *)
Fixpoint cell_254_loop (ns : list Z) (u f sigma : term) (hs sigmas us : list term)
    : prog unit :=
  match ns with
  | [] => Ret tt
  | n :: ns' =>
      let+ '(h, sigmah, uh, niters) := mixed_poisson_block n f in
      let+ es := app "dolfin.errornorm" [| sigma; sigmah; "L2" |] in
      let+ eu := app "dolfin.errornorm" [| u; uh; "H10" |] in
      let+ rates := rate es h sigmas hs in
      let+ rateu := rate eu h us hs in
      let+ _ := print
                  [| "|sigma-sigmah|_0 = %g(%.2f), |u-uh|_1 = %g(%.2f), niters = %d";
                     es; rates; eu; rateu; niters |] in
      cell_254_loop ns' u f sigma (hs ++ [h]) (sigmas ++ [es]) (us ++ [eu])
  end.

Definition cell_254 : prog unit :=
  let+ '(u, f, sigma) := manufactured in
  cell_254_loop [2; 4; 8; 16; 32; 64; 128] u f sigma [] [] [].

(** Lines 332-351.  In the body of the loop, [f] stands for the array as it
    is at the start of a round. *)
Definition cell_332 : prog unit :=
  let+ x := app "numpy.linspace" [| 0; 1; 1000 |] in
  let+ f := app "numpy.zeros_like" [| x |] in
  let+ A := app "dolfin.sqrt" [| 2 |] in
  let k_max := 10000 in
  let+ ks := app "numpy.arange" [| 1; k_max + 1 |] in
  let+ spectrum := app "numpy.zeros_like" [| ks; kw "dtype" (Name "float") |] in
  let+ _ := for_in ks (fun k =>
              let+ ck := (Int (-2) * A * app "dolfin.cos" [| (k * pi / 2)%py |]
                          / (k * pi))%py in
              let+ _ := setitem spectrum (k - 1)%py (app "abs" [| ck |]) in
              let+ _ := iadd f (ck * A * app "numpy.sin" [| (k * pi * x)%py |])%py in
              Ret tt) in
  let+ mask := getitem (app "numpy.where" [| app ">" [| spectrum; 1e-13%float |] |]) 0 in
  let+ _ := app "matplotlib.pyplot.loglog"
              [| getitem ks mask; getitem spectrum mask; "o";
                 kw "linestyle" "none" |] in
  let+ _ := app "matplotlib.pyplot.loglog"
              [| ks; (1%float / app "**" [| ks; 2 |])%py |] in
  Ret tt.

(** Lines 382-412. *)
Definition hs_norm (mesh : term) (s : float) (f : term) : E :=
  let+ _ := assert_ (app "==" [| meth (meth mesh "geometry" [| |]) "dim" [| |]; 1 |]) in
  let+ _ := assert_ (app "<" [| meth mesh "num_vertices" [| |]; 5000 |]) in
  let+ V := app "dolfin.FunctionSpace" [| mesh; "CG"; 1 |] in
  let+ bc := app "dolfin.DirichletBC" [| V; Constant 0; "on_boundary" |] in
  let+ u := app "dolfin.TrialFunction" [| V |] in
  let+ v := app "dolfin.TestFunction" [| V |] in
  let+ f_vec := meth (meth (app "dolfin.interpolate" [| f; V |]) "vector" [| |])
                     "array" [| |] in
  let+ a := (inner (grad u) (grad v) * dx)%py in
  let+ m := (inner u v * dx)%py in
  let+ L := (inner f v * dx)%py in
  let+ Ab := app "dolfin.assemble_system" [| a; L; bc |] in
  let+ Mb := app "dolfin.assemble_system" [| m; L; bc |] in
  let+ A := meth (Item Ab 0) "array" [| |] in
  let+ M := meth (Item Mb 0) "array" [| |] in
  let+ lU := app "scipy.linalg.eigh" [| A; M |] in
  let lmbda := Item lU 0 in
  let U := Item lU 1 in
  let+ V := meth M "dot" [| U |] in
  let+ Lambda := app "numpy.diag" [| app "**" [| lmbda; s |] |] in
  let+ H := meth V "dot" [| meth Lambda "dot" [| attr V "T" |] |] in
  app "dolfin.sqrt" [| app "numpy.sum" [| (f_vec * meth H "dot" [| f_vec |])%py |] |].

Definition cell_379 : prog unit := Ret tt.

(** Lines 430-443. *)
Definition cell_430 : prog unit :=
  for_each (seqZ 3 8) (fun i : Z =>
    let+ mesh := app "dolfin.UnitIntervalMesh" [| 2 ^ i |] in
    let+ dX := app "dolfin.Measure" [| "dx"; kw "domain" mesh |] in
    let+ V := app "dolfin.FunctionSpace" [| mesh; "CG"; 2 |] in
    let+ f := app "dolfin.interpolate"
                [| app "dolfin.Expression" [| "x[0]*(1-x[0])"; kw "degree" 2 |]; V |] in
    let+ L2 := app "dolfin.sqrt" [| app "dolfin.assemble" [| (inner f f * dX)%py |] |] in
    let+ H10 := app "dolfin.sqrt"
                  [| app "dolfin.assemble"
                       [| (inner (meth f "dx" [| 0 |]) (meth f "dx" [| 0 |]) * dX)%py |] |] in
    let+ L2_ := hs_norm mesh 0 f in
    let+ H10_ := hs_norm mesh 1 f in
    print [| app "abs" [| (L2 - L2_)%py |]; app "abs" [| (H10 - H10_)%py |] |]).

(** Lines 483-539. *)
Definition babuska (n : Z) (f g gamma : term) : prog (term * term * term) :=
  let n := n * 4 in
  let+ omega_mesh := app "dolfin.UnitSquareMesh" [| n; n |] in
  let+ facet_f := app "dolfin.FacetFunction" [| "size_t"; omega_mesh; 0 |] in
  let+ _ := meth gamma "mark" [| facet_f; 1 |] in
  let+ gamma_mesh := app "trace_tools.embedded_mesh.EmbeddedMesh"
                       [| omega_mesh; facet_f; 1 |] in
  let+ V := app "dolfin.FunctionSpace" [| omega_mesh; "CG"; 1 |] in
  let+ Q := app "dolfin.FunctionSpace" [| attr gamma_mesh "mesh"; "CG"; 1 |] in
  let+ u := app "dolfin.TrialFunction" [| V |] in
  let+ p := app "dolfin.TrialFunction" [| Q |] in
  let+ v := app "dolfin.TestFunction" [| V |] in
  let+ q := app "dolfin.TestFunction" [| Q |] in
  let+ dxGamma := app "dolfin.Measure"
                    [| "dx"; kw "domain" (attr gamma_mesh "mesh") |] in
  let+ a00 := (inner (grad u) (grad v) * dx + inner u v * dx)%py in
  let+ a01 := (inner p v * dxGamma)%py in
  let+ a10 := (inner u q * dxGamma)%py in
  let+ L0 := (inner f v * dx)%py in
  let+ L1 := (inner g q * dxGamma)%py in
  let+ A00 := app "dolfin.assemble" [| a00 |] in
  let+ A01 := app "trace_tools.trace_assembler.trace_assemble" [| a01; gamma_mesh |] in
  let+ A10 := app "trace_tools.trace_assembler.trace_assemble" [| a10; gamma_mesh |] in
  let+ b0 := app "dolfin.assemble" [| L0 |] in
  let+ b1 := app "dolfin.assemble" [| L1 |] in
  let+ AA := app "block.block_mat"
               [| Tuple [Tuple [A00; A01]; Tuple [A10; Int 0]] |] in
  let+ bb := app "block.block_vec" [| Tuple [b0; b1] |] in
  let+ P00 := app "block.algebraic.petsc.AMG" [| A00 |] in
  let+ m := (inner p q * dxGamma)%py in
  let+ a := (inner (grad p) (grad q) * dxGamma + m)%py in
  let+ P11 := app "trace_tools.norms.inv_interpolation_norm_eig"
                [| a; kw "s" (-0.5)%float; kw "m" m |] in
  let+ BB := app "block.block_mat"
               [| Tuple [Tuple [P00; Int 0]; Tuple [Int 0; P11]] |] in
  let+ AAinv := app "block.iterative.MinRes"
                  [| AA; kw "precond" BB; kw "tolerance" 1e-10%float;
                     kw "maxiter" 300; kw "show" 0 |] in
  let+ UP := (AAinv * bb)%py in
  let+ uh := app "dolfin.Function" [| V; Item UP 0 |] in
  let+ ph := app "dolfin.Function" [| Q; Item UP 1 |] in
  let+ niters := (app "len" [| attr AAinv "residuals" |] - 1)%py in
  let+ dimV := meth V "dim" [| |] in
  let+ dimQ := meth Q "dim" [| |] in
  Ret (dimV, dimQ, niters).

(** Lines 469-481: the cell that defines [babuska] first extends
    [sys.path]. *)
Definition cell_469 : prog unit :=
  let+ _ := meth (Name "sys.path") "append"
                 [| "/home/miro3/Documents/Programming/fenics_ii/py" |] in
  Ret tt.

(** Lines 557-564. *)
Definition cell_557 : prog unit :=
  let+ gamma := app "dolfin.CompiledSubDomain" [| "near(x[0], 0)" |] in
  let+ f := app "dolfin.Expression" [| "sin(pi*(x[0]-x[1]))"; kw "degree" 3 |] in
  let+ g := app "dolfin.Expression" [| "cos(pi*(x[0]+x[1]))"; kw "degree" 3 |] in
  for_each [2; 4; 8; 16; 32] (fun n : Z =>
    let+ '(dimV, dimQ, niters) := babuska n f g gamma in
    print [| "dim(V) = %d dim(Q) = %d niters = %d"; dimV; dimQ; niters |]).

(** The code cells of coupled.ipynb, in order. *)
Definition coupled : list (prog unit) :=
  [cell_43; cell_90; cell_136; cell_177; cell_254; cell_332; cell_379; cell_430;
   cell_469; cell_557].

(** *** The Stokes notebook (part_000) *)

(** Lines 35-41. *)
Definition cell_35 : prog unit :=
  setitem (Name "matplotlib.pyplot.rcParams") "figure.figsize"
          (Tuple [Int 24; Int 24]).

(** Lines 54-110.  The nested function [right] is called back by dolfin
    while [outflow.mark] runs. *)
Definition stokes_solver (h u_deg p_deg : Z)
    : prog (term * term * term * term * term) :=
  let+ mesh := app "dolfin.UnitSquareMesh" [| h; h |] in
  let+ sub_domains := app "dolfin.FacetFunction" [| "size_t"; mesh; 0 |] in
  let+ _ := meth (app "dolfin.DomainBoundary" [| |]) "mark" [| sub_domains; 1 |] in
  let+ outflow := app "dolfin.AutoSubDomain" [| Fn "right" |] in
  let+ _ := meth outflow "mark" [| sub_domains; 2 |] in
  let+ x := app "dolfin.SpatialCoordinate" [| mesh |] in
  let+ p_e := app "dolfin.sin" [| (2 * pi * getitem x 0)%py |] in
  let+ u_e := app "dolfin.sin" [| (pi * getitem x 0 * getitem x 1)%py |] in
  let+ u_e := app "dolfin.curl" [| u_e |] in
  let+ f := (- div (grad u_e) + grad p_e)%py in
  let+ ds_ := app "dolfin.Measure"
                [| "ds"; kw "domain" mesh; kw "subdomain_data" sub_domains |] in
  let+ n := app "dolfin.FacetNormal" [| mesh |] in
  let+ P2 := app "dolfin.VectorElement"
               [| "Lagrange"; meth mesh "ufl_cell" [| |]; u_deg |] in
  let+ P1 := app "dolfin.FiniteElement"
               [| "Lagrange"; meth mesh "ufl_cell" [| |]; p_deg |] in
  let+ TH := (P2 * P1)%py in
  let+ W := app "dolfin.FunctionSpace" [| mesh; TH |] in
  let+ u_projected :=
    app "dolfin.project"
      [| u_e;
         app "dolfin.FunctionSpace"
           [| mesh;
              app "dolfin.VectorElement"
                [| "Lagrange"; meth mesh "ufl_cell" [| |]; u_deg + 3 |] |] |] in
  let+ p_projected :=
    app "dolfin.project"
      [| p_e;
         app "dolfin.FunctionSpace"
           [| mesh;
              app "dolfin.FiniteElement"
                [| "Lagrange"; meth mesh "ufl_cell" [| |]; p_deg + 3 |] |] |] in
  let+ u_bc := app "dolfin.DirichletBC"
                 [| meth W "sub" [| 0 |]; u_projected; sub_domains; 1 |] in
  let bcs := Tuple [u_bc] in
  let+ up := app "dolfin.TrialFunctions" [| W |] in
  let u := Item up 0 in
  let p := Item up 1 in
  let+ vq := app "dolfin.TestFunctions" [| W |] in
  let v := Item vq 0 in
  let q := Item vq 1 in
  let+ a := ((inner (grad u) (grad v) - div v * p + q * div u) * dx)%py in
  let+ n := Constant (Tuple [Int 1; Int 0]) in
  let+ g := (p_e * n + grad u_e * n)%py in
  let+ L := (inner f v * dx + inner g v * app "()" [| ds_; 2 |])%py in
  let+ w := app "dolfin.Function" [| W |] in
  let+ _ := app "dolfin.solve" [| app "==" [| a; L |]; w; bcs |] in
  let+ split := meth w "split" [| Bool true |] in
  let u := Item split 0 in
  let p := Item split 1 in
  let+ E_u := app "dolfin.errornorm" [| u_projected; u; kw "norm_type" "H1" |] in
  let+ E_p := app "dolfin.errornorm" [| p_projected; p; kw "norm_type" "L2" |] in
  Ret (u, p, mesh, E_u, E_p).

Definition cell_54 : prog unit := Ret tt.

(** Lines 133-152.  [hs] is [5, 10, 40, 80]; from the second round on,
    [h/hs[kk-1]] is a quotient of numbers of the notebook. *)
Fixpoint cell_133_inner (u_deg p_deg : Z) (prev : option Z) (hs : list Z)
    (Es : list (term * term)) : prog (list (term * term)) :=
  match hs with
  | [] => Ret Es
  | h :: hs' =>
      let+ '(u, p, mesh, E_u, E_p) := stokes_solver h u_deg p_deg in
      let+ '(rate_u, rate_p) :=
        match last Es, prev with
        | Some (E_u0, E_p0), Some h0 =>
            let ratio := (float_of_Z h / float_of_Z h0)%float in
            let+ rate_u := (ln (E_u / E_u0) / ln ratio)%py in
            let+ rate_p := (ln (E_p / E_p0) / ln ratio)%py in
            Ret (rate_u, rate_p)
        | _, _ => Ret (Name "numpy.nan", Name "numpy.nan")
        end in
      let+ _ := print [| E_u; "@"; rate_u; E_p; "@"; rate_p |] in
      cell_133_inner u_deg p_deg (Some h) hs' (Es ++ [(E_u, E_p)])
  end.

Definition cell_133 : prog unit :=
  let hs := [5; 10; 40; 80] in
  let+ errors := map_each [(2, 1); (1, 1)] (fun '(u_deg, p_deg) =>
                   let+ _ := print [| Int u_deg; Int p_deg |] in
                   let+ Es := cell_133_inner u_deg p_deg None hs [] in
                   Ret (Tuple (List.map (fun '(a, b) => Tuple [a; b]) Es))) in
  let+ _ := app "numpy.array" [| Tuple errors |] in
  Ret tt.

(** Lines 175-201.  [hs] and [errors] are those of the cell before; the
    four rounds of the loop are those of [zip]. *)
Definition cell_175 (errors : term) : prog unit :=
  let hs := Tuple [Int 5; Int 10; Int 40; Int 80] in
  let+ fa := app "matplotlib.pyplot.subplots"
               [| 2; 2; kw "figsize" (Tuple [Int 24; Int 24]) |] in
  let fig := Item fa 0 in
  let+ ax := meth (Item fa 1) "flatten" [| |] in
  let+ _ := for_each [(0, 0, 0); (1, 0, 1); (2, 1, 0); (3, 1, 1)] (fun '(i, j, k) =>
    let+ _ :=
      match i with
      | 0 =>
          let+ _ := meth (getitem ax i) "set_ylabel"
                      [| "$P_2-P_1 \ Elements \ Error$"; kw "fontsize" 28 |] in
          let+ _ := meth (getitem ax i) "set_title"
                      [| "$H^1 \ Norm \ - \ Velocity$"; kw "fontsize" 28 |] in
          Ret tt
      | 1 =>
          let+ _ := meth (getitem ax i) "set_title"
                      [| "$L_2 \ Norm \ - \ Pressure$"; kw "fontsize" 28 |] in
          Ret tt
      | 2 =>
          let+ _ := meth (getitem ax i) "set_ylabel"
                      [| "$P_1-P_1 \ Elements \ Error$"; kw "fontsize" 28 |] in
          let+ _ := meth (getitem ax i) "set_xlabel"
                      [| "$Meshsize \ h$"; kw "fontsize" 28 |] in
          Ret tt
      | 3 =>
          let+ _ := meth (getitem ax i) "set_xlabel"
                      [| "$Meshsize \ h$"; kw "fontsize" 28 |] in
          Ret tt
      | _ => Ret tt
      end in
    let+ ab := app "numpy.polyfit"
                 [| app "numpy.log" [| hs |];
                    app "numpy.log" [| getitem errors (Tuple [Int j; Slice; Int k]) |];
                    kw "deg" 1 |] in
    let a := Item ab 0 in
    let+ _ := meth (getitem ax i) "loglog"
                [| hs; getitem errors (Tuple [Int j; Slice; Int k]);
                   kw "c" "black"; kw "linewidth" 4 |] in
    let+ _ := meth (getitem ax i) "grid" [| kw "which" "both" |] in
    let+ slope_str := app "%" [| "Slope: %.1f"; a |] in
    let+ _ := meth (getitem ax i) "annotate"
                [| slope_str; kw "xycoords" "axes fraction";
                   kw "xy" (Tuple [Flt 0.6; Flt 0.6]);
                   kw "xytext" (Tuple [Flt 0.7; Flt 0.6]);
                   kw "textcoords" "axes fraction"; kw "fontsize" 32 |] in
    let+ _ := for_in (meth (attr (getitem ax i) "xaxis") "get_major_ticks" [| |])
                (fun tick => let+ _ := meth (attr tick "label") "set_fontsize" [| 24 |] in
                             Ret tt) in
    for_in (meth (attr (getitem ax i) "yaxis") "get_major_ticks" [| |])
      (fun tick => let+ _ := meth (attr tick "label") "set_fontsize" [| 24 |] in
                   Ret tt)) in
  let+ _ := meth fig "savefig"
              [| "stokes_exercise.png"; kw "bbox_extra_artists" NoneT;
                 kw "bbox_inches" "tight"; kw "dpi" 72 |] in
  Ret tt.

(** The code cells of the Stokes notebook, in order. *)
Definition stokes : list (prog unit) :=
  [cell_35; cell_54; cell_133; cell_175 (Name "errors")].

(** *** What a program calls and prints *)

(** Every call the program can make satisfies [P]. *)
Fixpoint all_calls {A : Type} (P : string -> list term -> bool) (p : prog A) : bool :=
  match p with
  | Ret _ | Raise _ => true
  | Call r args k => P r args && all_calls P k
  | Output _ k => all_calls P k
  | Branch _ y n => all_calls P y && all_calls P n
  | Loop _ body k => all_calls P body && all_calls P k
  end.

(** Some call the program can make satisfies [P]. *)
Definition some_call {A : Type} (P : string -> list term -> bool) (p : prog A) : bool :=
  negb (all_calls (fun r args => negb (P r args)) p).

(** Every line the program can print satisfies [Q], which is given the
    calls made before the line, the latest first. *)
Fixpoint all_prints {A : Type} (Q : list (string * list term) -> list term -> bool)
    (before : list (string * list term)) (p : prog A) : bool :=
  match p with
  | Ret _ | Raise _ => true
  | Call r args k => all_prints Q ((r, args) :: before) k
  | Output items k => if Q before items then all_prints Q before k else false
  | Branch _ y n => if all_prints Q before y then all_prints Q before n else false
  | Loop _ body k =>
      if all_prints Q before body then all_prints Q before k else false
  end.

(** Every value the program can return satisfies [R]. *)
Fixpoint all_results {A : Type} (R : A -> bool) (p : prog A) : bool :=
  match p with
  | Ret a => R a
  | Raise _ => true
  | Call _ _ k | Output _ k | Loop _ _ k => all_results R k
  | Branch _ y n => all_results R y && all_results R n
  end.

(** What happens in one run: the calls and the lines printed, in order. *)
Inductive event : Type :=
| Called (routine : string) (args : list term)
| Printed (items : list term).

(** The run in which no call raises, the tests come out as [choices] says
    (true when they run out), and a loop over an iterable of a library finds
    it empty. *)
Fixpoint run {A : Type} (choices : list bool) (p : prog A) : list event :=
  match p with
  | Ret _ | Raise _ => []
  | Call r args k => Called r args :: run choices k
  | Output items k => Printed items :: run choices k
  | Branch _ y n =>
      match choices with
      | false :: rest => run rest n
      | true :: rest => run rest y
      | [] => run [] y
      end
  | Loop _ _ k => run choices k
  end.

(** Equality of terms. *)
Fixpoint term_eqb (s t : term) : bool :=
  let fix all2 (ss ts : list term) : bool :=
    match ss, ts with
    | [], [] => true
    | s :: ss', t :: ts' => term_eqb s t && all2 ss' ts'
    | _, _ => false
    end in
  match s, t with
  | Int a, Int b => (a =? b)%Z
  | Flt a, Flt b => PrimFloat.Leibniz.eqb a b
  | Str a, Str b => String.eqb a b
  | Bool a, Bool b => Bool.eqb a b
  | NoneT, NoneT => true
  | Slice, Slice => true
  | Name a, Name b => String.eqb a b
  | Fn a, Fn b => String.eqb a b
  | Tuple ss, Tuple ts => all2 ss ts
  | Kw k s', Kw l t' => String.eqb k l && term_eqb s' t'
  | Res r ss, Res q ts => String.eqb r q && all2 ss ts
  | Attr s' a, Attr t' b => term_eqb s' t' && String.eqb a b
  | Item s' i, Item t' j => term_eqb s' t' && (i =? j)%Z
  | Next s', Next t' => term_eqb s' t'
  | _, _ => false
  end.

(** [sub] occurs in [s]. *)
Fixpoint contains (sub s : string) : bool :=
  String.prefix sub s ||
  match s with
  | EmptyString => false
  | String _ s' => contains sub s'
  end.

(** The line printed last in a run, if the run ends with one. *)
Definition last_line (events : list event) : list term :=
  match last events with
  | Some (Printed items) => items
  | _ => []
  end.

(** The solver classes of cbc.block: the names of [block.iterative]. *)
Definition block_iterative (routine : string) : bool :=
  String.prefix "block.iterative." routine.

(** dolfin's own solves: [solve], and [project], which solves for the
    projection. *)
Definition dolfin_solve (routine : string) : bool :=
  String.eqb routine "dolfin.solve" || String.eqb routine "dolfin.project".

(** The line reports an iteration count: its format names [niters]. *)
Definition reports_count (items : list term) : bool :=
  existsb (fun t => match t with Str s => contains "niters" s | _ => false end)
          items.

(** In each such line of the notebooks the count is the last value. *)
Definition count (items : list term) : option term := last items.

(** [len(S.residuals) - 1] *)
Definition residuals_of (S : term) : term :=
  Res "-" [Res "len" [Attr S "residuals"]; Int 1].

(** The routine that returned the [S] of a count [len(S.residuals) - 1]. *)
Definition count_routine (c : term) : option string :=
  match c with
  | Res _ [Res _ [Attr (Res routine args) _]; _] =>
      if term_eqb c (residuals_of (Res routine args)) then Some routine else None
  | _ => None
  end.

(** The count is [len(S.residuals) - 1] for an object [S] that a solver
    class of [block.iterative] returned and that was applied to a right-hand
    side, [S*b], before the line is printed. *)
Definition external_count (before : list (string * list term))
    (items : list term) : bool :=
  if reports_count items then
    match count items with
    | Some c =>
        existsb (fun call =>
                   match call with
                   | (op, [Res routine args; _]) =>
                       String.eqb op "*" && block_iterative routine &&
                       term_eqb c (residuals_of (Res routine args))
                   | _ => false
                   end) before
    | None => false
    end
  else true.

(** The count is a number that the notebook's own code computed, between 0
    and [maxiter]. *)
Definition own_count (maxiter : Z) (before : list (string * list term))
    (items : list term) : bool :=
  if reports_count items then
    match count items with
    | Some (Int k) => (0 <=? k)%Z && (k <=? maxiter)%Z
    | _ => false
    end
  else true.

(** The line reports no count. *)
Definition no_count (before : list (string * list term)) (items : list term)
    : bool :=
  negb (reports_count items).

(** Some line the program can print reports an iteration count. *)
Definition prints_count {A : Type} (p : prog A) : bool :=
  negb (all_prints no_count [] p).

(** The routine is neither a solver class of cbc.block nor a solve of
    dolfin. *)
Definition no_solver (routine : string) (args : list term) : bool :=
  negb (block_iterative routine || dolfin_solve routine).

(** The operators and methods of the backend that [steepest_descent]
    applies. *)
Definition vector_operations : list string :=
  ["-"; "*"; "/"; "+="; ">"; ".inner"; "dolfin.sqrt"].

(** The solver classes that the notebooks import from [block.iterative]. *)
Definition block_solvers : list string :=
  ["block.iterative.Richardson"; "block.iterative.ConjGrad";
   "block.iterative.LGMRES"; "block.iterative.MinRes"].

(** A call of one of dolfin's solves names no method: it has no keyword
    argument and no string among its arguments. *)
Definition default_method (routine : string) (args : list term) : bool :=
  implb (dolfin_solve routine)
        (forallb (fun t => match t with Kw _ _ | Str _ => false | _ => true end)
                 args).

(** A solver class of [block.iterative] is one of [block_solvers]. *)
Definition known_solver (routine : string) (args : list term) : bool :=
  implb (block_iterative routine) (bool_decide (routine ∈ block_solvers)).

(** The routines of the four methods Richardson, steepest descent,
    conjugate gradient and GMRES: three classes of [block.iterative] and the
    notebook's own [steepest_descent]. *)
Definition four_methods : list string :=
  ["block.iterative.Richardson"; "steepest_descent";
   "block.iterative.ConjGrad"; "block.iterative.LGMRES"].

(** The code cells of the three notebooks. *)
Definition notebooks : list (prog unit) := preconditioning ++ coupled ++ stokes.
End Calls.

(** ** The Makefile *)

Record rule : Type := {
  targets : list string;
  prerequisites : list string;
  recipe : list string
}.

Definition dquote : string := String (ascii_of_nat 34) EmptyString.

Definition latexmk_line : string :=
  ("latexmk -pdfps -pdflatex=" ++ dquote ++ "pdflatex --shell-escape %O %S"
     ++ dquote ++ " $<")%string.

Definition makefile : list rule := [
  {| targets := [".PHONY"]; prerequisites := ["all"; "clean"]; recipe := [] |};
  {| targets := ["all"]; prerequisites := ["precond.pdf"; "coupled.pdf"];
     recipe := [] |};
  {| targets := ["precond.pdf"];
     prerequisites := ["precond.tex"; "p_intro.tex"; "p_lax_milgram.tex"];
     recipe := [latexmk_line] |};
  {| targets := ["coupled.pdf"]; prerequisites := ["coupled.tex"];
     recipe := [latexmk_line] |};
  {| targets := ["view"]; prerequisites := [];
     recipe := ["evince precond.pdf &"; "# evince coupled.pdf &"] |};
  {| targets := ["clean"]; prerequisites := []; recipe := ["latexmk -C"] |}
]%string.

(** make: a target whose name starts with a period is special. *)
Definition special (t : string) : bool := String.prefix "." t.

Definition ordinary_rules (mk : list rule) : list rule :=
  filter (fun r => forallb (fun t => negb (special t)) (targets r)) mk.

(** The default goal: the first target of the first ordinary rule. *)
Definition default_goal (mk : list rule) : option string :=
  match ordinary_rules mk with
  | r :: _ => head (targets r)
  | [] => None
  end.

Definition phony (mk : list rule) (t : string) : bool :=
  existsb (fun r => bool_decide (".PHONY"%string ∈ targets r)
                    && bool_decide (t ∈ prerequisites r)) mk.

Definition rule_for (mk : list rule) (t : string) : option rule :=
  List.find (fun r => bool_decide (t ∈ targets r)) (ordinary_rules mk).

(** A recipe line with the automatic variable [$<] expanded to the first
    prerequisite. *)
Definition expand (r : rule) (line : string) : string :=
  str_replace "$<" (default EmptyString (head (prerequisites r))) line.

(** What make found out about a target: it stands with a modification time,
    or its recipe has just been run. *)
Inductive status : Type := UpToDate (mtime : nat) | Remade.

Definition newer_than (target_mtime : nat) (s : status) : bool :=
  match s with
  | Remade => true
  | UpToDate m => (target_mtime <? m)%nat
  end.

(** [make t]; [mtime] gives the modification time of a file that exists.
    The result is the list of commands run, in order.  [None]: make stops
    with "No rule to make target" (or the model ran out of [fuel], the depth
    of the dependency graph). *)
Fixpoint remake (fuel : nat) (mk : list rule) (mtime : string -> option nat)
    (t : string) : option (list string * status) :=
  match fuel with
  | O => None
  | S fuel' =>
      match rule_for mk t with
      | None =>
          match mtime t with
          | Some m => Some ([], UpToDate m)
          | None => None
          end
      | Some r =>
          match
            (fix each (ps : list string) : option (list string * list status) :=
               match ps with
               | [] => Some ([], [])
               | p :: ps' =>
                   match remake fuel' mk mtime p, each ps' with
                   | Some (c, s), Some (cs, ss) => Some (c ++ cs, s :: ss)
                   | _, _ => None
                   end
               end) (prerequisites r)
          with
          | None => None
          | Some (cmds, sts) =>
              let stale :=
                match mtime t with
                | None => true
                | Some m => existsb (newer_than m) sts
                end in
              if phony mk t || stale
              then Some (cmds ++ map (expand r) (recipe r), Remade)
              else Some (cmds, UpToDate (default O (mtime t)))
          end
      end
  end.

(** [make] with no argument, on a file system that maps the files that
    exist to their modification times. *)
Definition make (mk : list rule) (fs : gmap string nat) : option (list string) :=
  match default_goal mk with
  | Some goal => fst <$> remake (S (length mk)) mk (fun t => fs !! t) goal
  | None => None
  end.

(** The claim's reading of "rebuilt from": a document is out of date when it
    is missing or older than one of its sources. *)
Definition out_of_date (fs : gmap string nat) (doc : string)
    (sources : list string) : bool :=
  match fs !! doc with
  | None => true
  | Some m => existsb (fun s => match fs !! s with
                                | Some ms => (m <? ms)%nat
                                | None => true
                                end) sources
  end.

Definition latexmk_on (tex : string) : string :=
  ("latexmk -pdfps -pdflatex=" ++ dquote ++ "pdflatex --shell-escape %O %S"
     ++ dquote ++ " " ++ tex)%string.

(** ** Predicates on computations *)

(** [total m]: [m] runs no loop of the model, it never reports [OutOfFuel]. *)
Definition total {A} (m : M A) : Prop := forall h, fst (m h) <> OutOfFuel.

(** The exceptions [steepest_descent] can end in: the division by a zero
    [Ap.inner(p)], or an operation of the backend applied to objects of the
    wrong kind or size. *)
Definition sd_exception (e : exn) : Prop :=
  e = ZeroDivisionError \/ e = ValueError \/ e = TypeError \/
  raised_by_library e = true.

Definition raises_only (P : exn -> Prop) {A} (m : M A) : Prop :=
  forall h e h', m h = (Raises e, h') -> P e.

(** [frame W h h']: the store [h'] extends [h]; an object of [h] is the same
    in [h'], unless it is a vector at a location in [W], which is still a
    vector in [h']. *)
Definition frame (W : loc -> Prop) (h h' : heap) : Prop :=
  (length h <= length h')%nat /\
  forall (l : loc) (o : object), h !! l = Some o ->
    h' !! l = Some o \/
    (W l /\ exists v v', o = Vector v /\ h' !! l = Some (Vector v')).

Definition writes_only (W : loc -> Prop) {A} (m : M A) : Prop :=
  forall h, frame W h (snd (m h)).

Definition nowhere : loc -> Prop := fun _ => False.

(** ** Concrete stores used in the examples below *)

Definition diag2 (a b : float) : aij :=
  {| ncols := 2; rows := [[(0%nat, a)]; [(1%nat, b)]] |}.

(** A = diag(1, -1), x = (0, 0), b = (1, 1), B = identity. *)
Definition h_indefinite : heap :=
  [Matrix (diag2 1 (-1)); Vector [0%float; 0%float];
   Vector [1%float; 1%float]; Matrix (diag2 1 1)].

(** A = diag(1, 11), x = (0, 0), b = (3, 1), B = identity. *)
Definition h_spd : heap :=
  [Matrix (diag2 1 11); Vector [0%float; 0%float];
   Vector [3%float; 1%float]; Matrix (diag2 1 1)].

(** A = (2), B = (1) and one vector (1), passed both as x and as b. *)
Definition h_alias : heap :=
  [Matrix {| ncols := 1; rows := [[(0%nat, 2%float)]] |}; Vector [1%float];
   Matrix {| ncols := 1; rows := [[(0%nat, 1%float)]] |}].

(** The 1 x 1 matrix (49). *)
Definition h_49 : heap := [Matrix {| ncols := 1; rows := [[(0%nat, 49%float)]] |}].

(** The matrix with rows (2, 1) and (0, 4). *)
Definition h_upper : heap :=
  [Matrix {| ncols := 2;
             rows := [[(0%nat, 2%float); (1%nat, 1%float)]; [(1%nat, 4%float)]] |}].

(** A file system: the sources are there, [precond.pdf] is older than
    [precond.tex] and [coupled.pdf] is up to date. *)
Definition fs_stale_precond : gmap string nat :=
  {[ "precond.tex" := 5%nat; "p_intro.tex" := 1%nat;
     "p_lax_milgram.tex" := 1%nat; "coupled.tex" := 2%nat;
     "precond.pdf" := 4%nat; "coupled.pdf" := 3%nat ]}.

(** A = diag(1, 11), b = (3, 1) and one vector (1, 1), passed both as x and
    as B. *)
Definition h_alias_precond : heap :=
  [Matrix (diag2 1 11); Vector [1%float; 1%float]; Vector [3%float; 1%float]].

(** The first round of the steepest descent experiment (lines 464-478 of
    preconditioning.ipynb) when the test [error > tolerance] holds twice and
    then fails. *)
Definition two_rounds : list Calls.event :=
  Calls.run [true; true; false] (Calls.cell_464_round 8).

(** A library routine that the examples never reach. *)
Definition unreached {A} : M A := raise (LibraryError "not reached").

(** ** Further definitions *)

(** [make goal]: make called with a goal on the command line. *)
Definition make_goal (mk : list rule) (fs : gmap string nat) (goal : string)
    : option (list string) :=
  fst <$> remake (S (length mk)) mk (fun t => fs !! t) goal.

(** [old in s]: [old] occurs in [s]. *)
Fixpoint occurs (old s : string) : bool :=
  match s with
  | EmptyString => String.prefix old s
  | String _ s' => String.prefix old s || occurs old s'
  end.

(** The nested list with the shape of [expr] and [c e] at the place of each
    expression [e]. *)
Fixpoint body_map {sympy : Type} (c : sympy -> string) (expr : pyexpr sympy)
    : body :=
  match expr with
  | Scalar _ e => Code (c e)
  | Iterable _ es => Bodies (List.map (body_map c) es)
  end.

Section AsExpression.
Variable sympy : Type.
Variable free_symbols : sympy -> gset string.
Variable ccode : sympy -> M string.
(** dolfin's [Expression(body, degree=degree, **kwargs)] *)
Variable Expression : body -> Z -> gmap string float -> M loc.

(** coupled.ipynb, lines 67-69: [expr_body] is called without keyword
    arguments; a caller that leaves [degree] out passes 4. *)
Definition as_expression (expr : pyexpr sympy) (degree : Z)
    (kwargs : gmap string float) : M loc :=
  let* b := expr_body sympy free_symbols ccode ∅ expr in
  Expression b degree kwargs.
End AsExpression.

(** No entry of the array is NaN. *)
Definition no_nan (l : list float) : bool :=
  forallb (fun e => negb (is_nan e)) l.

(** A list of binary64 numbers in ascending order. *)
Fixpoint ascending (l : list float) : Prop :=
  match l with
  | [] => True
  | a :: l' => Forall (fun b => (a <=? b)%float = true) l' /\ ascending l'
  end.

(** The object at [l] is a vector with [n] entries, an [n] x [n] matrix. *)
Definition vec_at (h : heap) (l : loc) (n : nat) : Prop :=
  exists v, h !! l = Some (Vector v) /\ length v = n.

Definition mat_at (h : heap) (l : loc) (n : nat) : Prop :=
  exists m, h !! l = Some (Matrix m) /\ ncols m = n /\ length (rows m) = n.

(** The object at [l] can be applied to a vector with [n] entries and gives
    one with [n] entries: an [n] x [n] matrix, or an operator of cbc.block
    that does so. *)
Definition op_at (h : heap) (l : loc) (n : nat) : Prop :=
  exists f, h !! l ≫= operator_of = Some f /\
    forall v : list float, length v = n ->
      exists y, f v = Ok y /\ length y = n.

(** The arguments of [steepest_descent] fit together: [A] and [B] act on
    vectors with [n] entries, [x] and [b] are such vectors. *)
Definition well_sized (n : nat) (A x b B : loc) (h : heap) : Prop :=
  op_at h A n /\ op_at h B n /\ vec_at h x n /\ vec_at h b n.

(** [h'] has every vector and operator of [h], with the same size. *)
Definition keeps_sizes (h h' : heap) : Prop :=
  forall (l : loc) (n : nat),
    (vec_at h l n -> vec_at h' l n) /\ (op_at h l n -> op_at h' l n).

(** [m], run on [h], returns a value that satisfies [Q] or raises from the
    division, and keeps the sizes of the store. *)
Definition sized_step {A} (m : M A) (h : heap) (Q : A -> heap -> Prop) : Prop :=
  match m h with
  | (Returns a, h') => keeps_sizes h h' /\ Q a h'
  | (Raises e, h') => e = ZeroDivisionError /\ keeps_sizes h h'
  | (OutOfFuel, _) => False
  end.

(** A binary64 number that is not below zero: a zero of either sign, a
    positive number, plus infinity or NaN. *)
Definition not_negative (x : spec_float) : Prop :=
  match x with
  | S754_finite true _ _ | S754_infinity true => False
  | _ => True
  end.

(** In the store [h], the vector [sd_r s] is the residual [b - A*x] of the
    vector that [x] holds, and [sd_error s] is its norm. *)
Definition residual_of (A x b : loc) (s : sd_state) (h : heap) : Prop :=
  exists (f : list float -> result (list float)) (vx vb y : list float),
    h !! A ≫= operator_of = Some f /\
    h !! x = Some (Vector vx) /\
    h !! b = Some (Vector vb) /\
    f vx = Ok y /\
    length vb = length y /\
    let r := zip_with (fun a c => (a - c)%float) vb y in
    h !! sd_r s = Some (Vector r) /\
    sd_error s = PrimFloat.sqrt (dot_list r r).

(** The exceptions of the vector and matrix operations. *)
Definition backend_exception (e : exn) : Prop :=
  e = TypeError \/ raised_by_library e = true.

(** A = (1), x = (0), b = (1e200), B = (1): the squares overflow. *)
Definition h_overflow : heap :=
  [Matrix {| ncols := 1; rows := [[(0%nat, 1%float)]] |}; Vector [0%float];
   Vector [1e200%float];
   Matrix {| ncols := 1; rows := [[(0%nat, 1%float)]] |}].

(** * Properties *)

(** ** The computation monad *)

Lemma bind_returns {A B} (m : M A) (k : A -> M B) h a h1 :
  m h = (Returns a, h1) -> bind m k h = k a h1.
Proof. intros E. unfold bind. rewrite E. reflexivity. Qed.

(** An exception raised by a callee leaves through the caller unchanged. *)
Lemma bind_raises {A B} (m : M A) (k : A -> M B) h e h1 :
  m h = (Raises e, h1) -> bind m k h = (Raises e, h1).
Proof. intros E. unfold bind. rewrite E. reflexivity. Qed.

Lemma bind_inv_returns {A B} (m : M A) (k : A -> M B) h b h' :
  bind m k h = (Returns b, h') ->
  exists a h1, m h = (Returns a, h1) /\ k a h1 = (Returns b, h').
Proof.
  unfold bind. destruct (m h) as [[a|e|] h1] eqn:E; intros H; try discriminate.
  exists a, h1. split; [reflexivity | exact H].
Qed.

Lemma bind_inv_raises {A B} (m : M A) (k : A -> M B) h e h' :
  bind m k h = (Raises e, h') ->
  m h = (Raises e, h') \/
  exists a h1, m h = (Returns a, h1) /\ k a h1 = (Raises e, h').
Proof.
  unfold bind. destruct (m h) as [[a|e0|] h1] eqn:E; intros H; try discriminate.
  - right. exists a, h1. split; [reflexivity | exact H].
  - left. inversion H. reflexivity.
Qed.

Lemma total_ret {A} (a : A) : total (ret a).
Proof. intros h. discriminate. Qed.

Lemma total_raise {A} e : total (@raise A e).
Proof. intros h. discriminate. Qed.

Lemma total_bind {A B} (m : M A) (k : A -> M B) :
  total m -> (forall a, total (k a)) -> total (bind m k).
Proof.
  intros Hm Hk h. unfold bind. specialize (Hm h).
  destruct (m h) as [[a|e|] h1]; simpl in *.
  - apply Hk.
  - discriminate.
  - congruence.
Qed.

Lemma total_lift {A} (r : result A) : total (lift r).
Proof. intros h. unfold lift. destruct r; discriminate. Qed.

Lemma total_alloc o : total (alloc o).
Proof. intros h. discriminate. Qed.

Lemma total_read_vector l : total (read_vector l).
Proof. intros h. unfold read_vector. destruct (h !! l) as [[]|]; discriminate. Qed.

Lemma total_read_matrix l : total (read_matrix l).
Proof. intros h. unfold read_matrix. destruct (h !! l) as [[]|]; discriminate. Qed.

Lemma total_read_operator l : total (read_operator l).
Proof.
  intros h. unfold read_operator. destruct (h !! l ≫= operator_of); discriminate.
Qed.

Lemma total_write_vector l v : total (write_vector l v).
Proof. intros h. unfold write_vector. destruct (h !! l) as [[]|]; discriminate. Qed.

Lemma total_py_div a b : total (py_div a b).
Proof. intros h. unfold py_div. destruct (b =? 0)%float; discriminate. Qed.

Lemma total_py_sqrt a : total (py_sqrt a).
Proof. intros h. unfold py_sqrt. destruct (a <? 0)%float; discriminate. Qed.

Create HintDb total discriminated.
#[local] Hint Resolve total_ret total_raise total_lift total_alloc
  total_read_vector total_read_matrix total_read_operator total_write_vector
  total_py_div total_py_sqrt : total.

Ltac total_steps :=
  repeat first [ solve [ auto with total ] | apply total_bind; [ | intros ? ] ].

Lemma total_mul A x : total (mul A x).
Proof. unfold mul. total_steps. Qed.

Lemma total_sub b y : total (sub b y).
Proof. unfold sub. total_steps. Qed.

Lemma total_inner u v : total (inner u v).
Proof. unfold inner. total_steps. Qed.

Lemma total_rmul rho p : total (rmul rho p).
Proof. unfold rmul. total_steps. Qed.

Lemma total_iadd x y : total (iadd x y).
Proof. unfold iadd. total_steps. Qed.

#[local] Hint Resolve total_mul total_sub total_inner total_rmul total_iadd : total.

Lemma total_sd_init A x b : total (sd_init A x b).
Proof. unfold sd_init. total_steps. Qed.

Lemma total_sd_body A x b B s : total (sd_body A x b B s).
Proof. unfold sd_body. total_steps. Qed.

(** ** [steepest_descent]: the loop *)

Lemma sd_body_iter A x b B s h s' h' :
  sd_body A x b B s h = (Returns s', h') -> sd_iter s' = sd_iter s + 1.
Proof.
  unfold sd_body. intros H.
  repeat (apply bind_inv_returns in H; destruct H as (? & ? & _ & H)).
  inversion H. reflexivity.
Qed.

Lemma sd_init_iter A x b h s0 h0 :
  sd_init A x b h = (Returns s0, h0) -> sd_iter s0 = 0.
Proof.
  unfold sd_init. intros H.
  repeat (apply bind_inv_returns in H; destruct H as (? & ? & _ & H)).
  inversion H. reflexivity.
Qed.

Lemma sd_iterate_iter k A x b B : forall s h s' h',
  sd_iterate k A x b B s h = (Returns s', h') ->
  sd_iter s' = sd_iter s + Z.of_nat k.
Proof.
  induction k as [|k IH]; intros s h s' h' H; simpl in H.
  - inversion H. lia.
  - apply bind_inv_returns in H. destruct H as (s1 & h1 & Hb & H).
    apply IH in H. apply sd_body_iter in Hb. lia.
Qed.

Lemma sd_iterate_S k A x b B s h s1 h1 :
  sd_body A x b B s h = (Returns s1, h1) ->
  sd_iterate (S k) A x b B s h = sd_iterate k A x b B s1 h1.
Proof. intros H. simpl. apply bind_returns. exact H. Qed.

(** A run of the loop that returns has executed the body some [k] times;
    the loop condition held before each of them and fails at the end. *)
Lemma sd_while_returns fuel A x b B tol maxiter : forall s h s' h',
  sd_while fuel A x b B tol maxiter s h = (Returns s', h') ->
  exists k : nat,
    sd_iterate k A x b B s h = (Returns s', h') /\
    sd_cond tol maxiter s' = false /\
    forall j : nat, (j < k)%nat ->
      exists sj hj, sd_iterate j A x b B s h = (Returns sj, hj) /\
                    sd_cond tol maxiter sj = true.
Proof.
  induction fuel as [|fuel IH]; intros s h s' h' H; simpl in H.
  - destruct (sd_cond tol maxiter s) eqn:C; [discriminate|].
    inversion H; subst. exists O. repeat split; [exact C|]. intros j Hj. lia.
  - destruct (sd_cond tol maxiter s) eqn:C.
    + apply bind_inv_returns in H. destruct H as (s1 & h1 & Hb & H).
      destruct (IH _ _ _ _ H) as (k & Hk & Hc & Hlt).
      exists (S k). split; [|split].
      * rewrite (sd_iterate_S _ _ _ _ _ _ _ _ _ Hb). exact Hk.
      * exact Hc.
      * intros [|j] Hj.
        -- exists s, h. split; [reflexivity | exact C].
        -- destruct (Hlt j) as (sj & hj & Hs & Hcj); [lia|].
           exists sj, hj. split; [|exact Hcj].
           rewrite (sd_iterate_S _ _ _ _ _ _ _ _ _ Hb). exact Hs.
    + inversion H; subst. exists O. repeat split; [exact C|]. intros j Hj. lia.
Qed.

(** The loop ends: [maxiter - iter] iterations of fuel are never used up. *)
Lemma sd_while_terminates fuel A x b B tol maxiter : forall s h,
  (Z.to_nat (maxiter - sd_iter s) <= fuel)%nat ->
  fst (sd_while fuel A x b B tol maxiter s h) <> OutOfFuel.
Proof.
  induction fuel as [|fuel IH]; intros s h Hf; simpl.
  - destruct (sd_cond tol maxiter s) eqn:C; [|discriminate].
    unfold sd_cond in C. apply andb_true_iff in C. destruct C as [_ C].
    apply Z.ltb_lt in C. lia.
  - destruct (sd_cond tol maxiter s) eqn:C; [|discriminate].
    unfold sd_cond in C. apply andb_true_iff in C. destruct C as [_ C].
    apply Z.ltb_lt in C. unfold bind.
    destruct (sd_body A x b B s h) as [[s1|e|] h1] eqn:Hb; simpl.
    + apply IH. apply sd_body_iter in Hb. lia.
    + discriminate.
    + pose proof (total_sd_body A x b B s h) as T. rewrite Hb in T. exact T.
Qed.

(** More fuel does not change a run that did not use its fuel up. *)
Lemma sd_while_more_fuel fuel A x b B tol maxiter : forall fuel' s h,
  (fuel <= fuel')%nat ->
  fst (sd_while fuel A x b B tol maxiter s h) <> OutOfFuel ->
  sd_while fuel' A x b B tol maxiter s h = sd_while fuel A x b B tol maxiter s h.
Proof.
  induction fuel as [|fuel IH]; intros fuel' s h Hle Hne.
  - simpl in *. destruct fuel' as [|fuel']; simpl;
      destruct (sd_cond tol maxiter s); try reflexivity; simpl in Hne; congruence.
  - destruct fuel' as [|fuel']; [lia|]. simpl in *.
    destruct (sd_cond tol maxiter s); [|reflexivity].
    unfold bind in *. destruct (sd_body A x b B s h) as [[s1|e|] h1]; try reflexivity.
    apply IH; [lia | exact Hne].
Qed.

Lemma raises_only_ret P {A} (a : A) : raises_only P (ret a).
Proof. intros h e h' H. discriminate. Qed.

Lemma raises_only_bind P {A B} (m : M A) (k : A -> M B) :
  raises_only P m -> (forall a, raises_only P (k a)) -> raises_only P (bind m k).
Proof.
  intros Hm Hk h e h' H. apply bind_inv_raises in H.
  destruct H as [H | (a & h1 & _ & H)]; [exact (Hm _ _ _ H) | exact (Hk _ _ _ _ H)].
Qed.

Lemma raises_only_alloc P o : raises_only P (alloc o).
Proof. intros h e h' H. discriminate. Qed.

Lemma sd_exception_read_vector l : raises_only sd_exception (read_vector l).
Proof.
  intros h e h' H. unfold read_vector in H.
  destruct (h !! l) as [[]|]; inversion H; unfold sd_exception; auto.
Qed.

Lemma sd_exception_read_operator l : raises_only sd_exception (read_operator l).
Proof.
  intros h e h' H. unfold read_operator in H.
  destruct (h !! l ≫= operator_of); inversion H; unfold sd_exception; auto.
Qed.

Lemma sd_exception_apply o f v :
  operator_of o = Some f -> raises_only sd_exception (lift (f v)).
Proof.
  intros Hf h e h' H. unfold lift in H.
  destruct o as [u | m | g | |a]; inversion Hf; subst.
  - unfold vec_mul in H. destruct (_ =? _)%nat; inversion H; unfold sd_exception; auto.
  - unfold mat_vec in H. destruct (_ =? _)%nat; inversion H; unfold sd_exception; auto.
  - destruct (g v); inversion H; unfold sd_exception; auto.
  - discriminate.
Qed.

Lemma sd_exception_write_vector l v : raises_only sd_exception (write_vector l v).
Proof.
  intros h e h' H. unfold write_vector in H.
  destruct (h !! l) as [[]|]; inversion H; unfold sd_exception; auto.
Qed.

Lemma sd_exception_py_div a b : raises_only sd_exception (py_div a b).
Proof.
  intros h e h' H. unfold py_div in H.
  destruct (b =? 0)%float; inversion H; unfold sd_exception; auto.
Qed.

Lemma sd_exception_py_sqrt a : raises_only sd_exception (py_sqrt a).
Proof.
  intros h e h' H. unfold py_sqrt in H.
  destruct (a <? 0)%float; inversion H; unfold sd_exception; auto.
Qed.

Lemma sd_exception_vec_dot u v : raises_only sd_exception (lift (vec_dot u v)).
Proof.
  intros h e h' H. unfold lift, vec_dot in H.
  destruct (_ =? _)%nat; inversion H; unfold sd_exception; auto.
Qed.

Lemma sd_exception_vec_sub u v : raises_only sd_exception (lift (vec_sub u v)).
Proof.
  intros h e h' H. unfold lift, vec_sub in H.
  destruct (_ =? _)%nat; inversion H; unfold sd_exception; auto.
Qed.

Lemma sd_exception_vec_add u v : raises_only sd_exception (lift (vec_add u v)).
Proof.
  intros h e h' H. unfold lift, vec_add in H.
  destruct (_ =? _)%nat; inversion H; unfold sd_exception; auto.
Qed.

Create HintDb raises discriminated.
#[local] Hint Resolve raises_only_ret raises_only_alloc sd_exception_read_vector
  sd_exception_write_vector sd_exception_py_div sd_exception_py_sqrt
  sd_exception_vec_dot sd_exception_vec_sub sd_exception_vec_add : raises.

Ltac raises_steps :=
  repeat first [ solve [ auto with raises ]
               | apply raises_only_bind; [ | intros ? ] ].

Lemma sd_exception_mul A x : raises_only sd_exception (mul A x).
Proof.
  intros h e h' H. unfold mul in H.
  apply bind_inv_raises in H. destruct H as [H | (f & h1 & Hf & H)].
  { exact (sd_exception_read_operator _ _ _ _ H). }
  assert (Ho : exists o, operator_of o = Some f).
  { unfold read_operator in Hf. destruct (h !! A) as [o|]; simpl in Hf.
    - exists o. destruct (operator_of o); inversion Hf. reflexivity.
    - discriminate. }
  destruct Ho as [o Ho].
  apply bind_inv_raises in H. destruct H as [H | (v & h2 & _ & H)].
  { exact (sd_exception_read_vector _ _ _ _ H). }
  apply bind_inv_raises in H. destruct H as [H | (y & h3 & _ & H)].
  { exact (sd_exception_apply o f v Ho _ _ _ H). }
  discriminate.
Qed.

#[local] Hint Resolve sd_exception_mul : raises.

Lemma sd_exception_sd_init A x b : raises_only sd_exception (sd_init A x b).
Proof. unfold sd_init, sub, inner. raises_steps. Qed.

Lemma sd_exception_sd_body A x b B s :
  raises_only sd_exception (sd_body A x b B s).
Proof. unfold sd_body, sub, inner, rmul, iadd. raises_steps. Qed.

Lemma sd_exception_sd_while fuel A x b B tol maxiter : forall s,
  raises_only sd_exception (sd_while fuel A x b B tol maxiter s).
Proof.
  induction fuel as [|fuel IH]; intros s; simpl;
    destruct (sd_cond tol maxiter s); try apply raises_only_ret.
  - intros h e h' H. discriminate.
  - apply raises_only_bind; [apply sd_exception_sd_body | exact IH].
Qed.

Lemma sd_after_unfold k A x b B h s0 h0 :
  sd_init A x b h = (Returns s0, h0) ->
  sd_after k A x b B h = sd_iterate k A x b B s0 h0.
Proof. intros H. unfold sd_after. apply bind_returns. exact H. Qed.

(** C1 (as amended): a call with [maxiter >= 0] ends after at most [maxiter]
    iterations of the loop, whatever fuel beyond [maxiter] the model is
    given.  Either an exception leaves the function (the division by a zero
    [Ap.inner(p)], or an operation on objects of the wrong kind or size), or
    it returns [iter] with [0 <= iter <= maxiter], after exactly [iter]
    executions of the body, and then [error > tolerance] is false or
    [iter = maxiter]. *)
Theorem steepest_descent_terminates_bounded (A x b B : loc) (tolerance : float)
    (maxiter : Z) (h : heap) :
  0 <= maxiter ->
  (forall fuel : nat, (Z.to_nat maxiter <= fuel)%nat ->
     steepest_descent_fuel fuel A x b B tolerance maxiter h =
     steepest_descent A x b B tolerance maxiter h) /\
  match steepest_descent A x b B tolerance maxiter h with
  | (Returns iter, h') =>
      0 <= iter <= maxiter /\
      exists s : sd_state,
        sd_after (Z.to_nat iter) A x b B h = (Returns s, h') /\
        sd_iter s = iter /\
        ((tolerance <? sd_error s)%float = false \/ iter = maxiter)
  | (Raises e, _) => sd_exception e
  | (OutOfFuel, _) => False
  end.
Proof.
  intros Hmax. unfold steepest_descent, steepest_descent_fuel.
  destruct (sd_init A x b h) as [[s0|e|] h0] eqn:Hinit.
  - pose proof (sd_init_iter _ _ _ _ _ _ Hinit) as Hs0.
    assert (Hterm : fst (sd_while (Z.to_nat maxiter) A x b B tolerance maxiter s0 h0)
                    <> OutOfFuel).
    { apply sd_while_terminates. rewrite Hs0. lia. }
    split.
    + intros fuel Hfuel. rewrite !(bind_returns _ _ _ _ _ Hinit).
      unfold bind. rewrite (sd_while_more_fuel _ _ _ _ _ _ _ fuel s0 h0 Hfuel Hterm).
      reflexivity.
    + rewrite (bind_returns _ _ _ _ _ Hinit). unfold bind.
      destruct (sd_while (Z.to_nat maxiter) A x b B tolerance maxiter s0 h0)
        as [[s|e|] h'] eqn:Hw; simpl in *.
      * destruct (sd_while_returns _ _ _ _ _ _ _ _ _ _ _ Hw) as (k & Hk & Hc & Hlt).
        pose proof (sd_iterate_iter _ _ _ _ _ _ _ _ _ Hk) as Hit.
        rewrite Hs0 in Hit. simpl in Hit.
        assert (Hle : sd_iter s <= maxiter).
        { destruct k as [|k]; [lia|].
          destruct (Hlt k) as (sj & hj & Hj & Hcj); [lia|].
          apply sd_iterate_iter in Hj. unfold sd_cond in Hcj.
          apply andb_true_iff in Hcj. destruct Hcj as [_ Hcj].
          apply Z.ltb_lt in Hcj. lia. }
        split; [lia|]. exists s. split; [|split].
        -- rewrite (sd_after_unfold _ _ _ _ _ _ _ _ Hinit).
           replace (Z.to_nat (sd_iter s)) with k by lia. exact Hk.
        -- reflexivity.
        -- unfold sd_cond in Hc. apply andb_false_iff in Hc.
           destruct Hc as [Hc|Hc]; [left; exact Hc|right].
           apply Z.ltb_ge in Hc. lia.
      * exact (sd_exception_sd_while _ _ _ _ _ _ _ _ _ _ _ Hw).
      * apply Hterm. reflexivity.
  - split.
    + intros fuel _. rewrite !(bind_raises _ _ _ _ _ Hinit). reflexivity.
    + rewrite (bind_raises _ _ _ _ _ Hinit).
      exact (sd_exception_sd_init _ _ _ _ _ _ Hinit).
  - exfalso. pose proof (total_sd_init A x b h) as T. rewrite Hinit in T.
    apply T. reflexivity.
Qed.

(** C1, the claim as stated fails: with A = diag(1, -1), b = (1, 1), x = 0
    and B the identity, the first iteration computes [Ap.inner(p) = 0] and
    the call ends in ZeroDivisionError instead of returning a count. *)
Lemma steepest_descent_zero_division :
  fst (steepest_descent 0%nat 1%nat 2%nat 3%nat 1e-4 200 h_indefinite)
  = Raises ZeroDivisionError.
Proof. vm_compute. reflexivity. Qed.

(** C1, an instance: the positive definite system [h_spd] with
    [maxiter = 200]. *)
Lemma steepest_descent_terminates_bounded_witness :
  0 <= 200 /\
  match steepest_descent 0%nat 1%nat 2%nat 3%nat 1e-4 200 h_spd with
  | (Returns iter, h') =>
      0 <= iter <= 200 /\
      exists s : sd_state,
        sd_after (Z.to_nat iter) 0%nat 1%nat 2%nat 3%nat h_spd = (Returns s, h') /\
        sd_iter s = iter /\
        ((1e-4 <? sd_error s)%float = false \/ iter = 200)
  | (Raises e, _) => sd_exception e
  | (OutOfFuel, _) => False
  end.
Proof.
  split; [lia|].
  apply (steepest_descent_terminates_bounded 0%nat 1%nat 2%nat 3%nat 1e-4 200 h_spd).
  lia.
Defined.

(** C5 (as amended): when a call returns [iter], every residual error
    computed before the last one, that is after [j < iter] executions of the
    body, exceeds the tolerance: the loop stops at the first error that does
    not.  Nothing orders the errors among themselves. *)
Theorem steepest_descent_errors_exceed_tolerance (A x b B : loc)
    (tolerance : float) (maxiter : Z) (h : heap) (iter : Z) (h' : heap) :
  steepest_descent A x b B tolerance maxiter h = (Returns iter, h') ->
  forall j : nat, Z.of_nat j < iter ->
    exists sj hj,
      sd_after j A x b B h = (Returns sj, hj) /\
      sd_iter sj = Z.of_nat j /\
      (tolerance <? sd_error sj)%float = true.
Proof.
  unfold steepest_descent, steepest_descent_fuel. intros H j Hj.
  apply bind_inv_returns in H. destruct H as (s0 & h0 & Hinit & H).
  apply bind_inv_returns in H. destruct H as (s & h1 & Hw & H).
  inversion H; subst; clear H.
  pose proof (sd_init_iter _ _ _ _ _ _ Hinit) as Hs0.
  destruct (sd_while_returns _ _ _ _ _ _ _ _ _ _ _ Hw) as (k & Hk & _ & Hlt).
  apply sd_iterate_iter in Hk.
  destruct (Hlt j) as (sj & hj & Hsj & Hc); [lia|].
  exists sj, hj. split; [|split].
  - rewrite (sd_after_unfold _ _ _ _ _ _ _ _ Hinit). exact Hsj.
  - apply sd_iterate_iter in Hsj. lia.
  - unfold sd_cond in Hc. apply andb_true_iff in Hc. tauto.
Qed.

(** C5, the claim as stated fails: on the symmetric positive definite
    system A = diag(1, 11), b = (3, 1), x = 0 with B the identity, the call
    returns after 26 iterations, and the residual error grows from
    sqrt(10) before the loop to sqrt(22.5) after the first iteration, both
    above the tolerance 1e-4. *)
Lemma steepest_descent_residual_increases :
  fst (steepest_descent 0%nat 1%nat 2%nat 3%nat 1e-4 200 h_spd) = Returns 26 /\
  exists s0 h0 s1 h1,
    sd_after 0 0%nat 1%nat 2%nat 3%nat h_spd = (Returns s0, h0) /\
    sd_after 1 0%nat 1%nat 2%nat 3%nat h_spd = (Returns s1, h1) /\
    sd_error s0 = PrimFloat.sqrt 10 /\
    sd_error s1 = PrimFloat.sqrt 22.5 /\
    (sd_error s0 <? sd_error s1)%float = true /\
    (1e-4 <? sd_error s1)%float = true.
Proof.
  split; [vm_compute; reflexivity|].
  do 4 eexists. split; [vm_compute; reflexivity|].
  split; [vm_compute; reflexivity|].
  repeat split; vm_compute; reflexivity.
Qed.

(** C5, an instance: the error after the first iteration on [h_spd]. *)
Lemma steepest_descent_errors_exceed_tolerance_witness :
  exists sj hj,
    sd_after 1 0%nat 1%nat 2%nat 3%nat h_spd = (Returns sj, hj) /\
    sd_iter sj = 1 /\
    (1e-4 <? sd_error sj)%float = true.
Proof.
  eapply (steepest_descent_errors_exceed_tolerance 0%nat 1%nat 2%nat 3%nat
            1e-4 200 h_spd 26) with (j := 1%nat).
  - vm_compute. reflexivity.
  - lia.
Defined.

(** ** [steepest_descent]: what it writes *)

Lemma frame_refl W h : frame W h h.
Proof. split; [lia|]. intros l o H. left. exact H. Qed.

Lemma frame_trans W h1 h2 h3 : frame W h1 h2 -> frame W h2 h3 -> frame W h1 h3.
Proof.
  intros [L12 F12] [L23 F23]. split; [lia|]. intros l o H.
  destruct (F12 l o H) as [H2 | (Wl & v & v' & -> & H2)].
  - exact (F23 l o H2).
  - destruct (F23 l _ H2) as [H3 | (_ & w & w' & Hw & H3)].
    + right. split; [exact Wl|]. exists v, v'. split; [reflexivity | exact H3].
    + right. split; [exact Wl|]. exists v, w'. split; [reflexivity | exact H3].
Qed.

Lemma frame_weaken (W W' : loc -> Prop) h h' :
  (forall l, W l -> W' l) -> frame W h h' -> frame W' h h'.
Proof.
  intros HW [L F]. split; [exact L|]. intros l o H.
  destruct (F l o H) as [H'|(Wl & H')]; [left; exact H' | right].
  split; [exact (HW l Wl) | exact H'].
Qed.

Lemma writes_only_weaken (W W' : loc -> Prop) {A} (m : M A) :
  (forall l, W l -> W' l) -> writes_only W m -> writes_only W' m.
Proof. intros HW Hm h. exact (frame_weaken W W' _ _ HW (Hm h)). Qed.

Lemma writes_only_ret W {A} (a : A) : writes_only W (ret a).
Proof. intros h. apply frame_refl. Qed.

Lemma writes_only_raise W {A} e : writes_only W (@raise A e).
Proof. intros h. apply frame_refl. Qed.

Lemma writes_only_lift W {A} (r : result A) : writes_only W (lift r).
Proof. intros h. apply frame_refl. Qed.

Lemma writes_only_bind W {A B} (m : M A) (k : A -> M B) :
  writes_only W m -> (forall a, writes_only W (k a)) -> writes_only W (bind m k).
Proof.
  intros Hm Hk h. unfold bind. specialize (Hm h).
  destruct (m h) as [[a|e|] h1]; simpl in *; try exact Hm.
  exact (frame_trans _ _ _ _ Hm (Hk a h1)).
Qed.

Lemma writes_only_alloc W o : writes_only W (alloc o).
Proof.
  intros h. unfold alloc. cbn [snd]. split.
  - rewrite length_app. lia.
  - intros l o' H. left. apply lookup_app_l_Some. exact H.
Qed.

Lemma writes_only_read_vector W l : writes_only W (read_vector l).
Proof.
  intros h. unfold read_vector. destruct (h !! l) as [[]|]; apply frame_refl.
Qed.

Lemma writes_only_read_operator W l : writes_only W (read_operator l).
Proof.
  intros h. unfold read_operator.
  destruct (h !! l ≫= operator_of); apply frame_refl.
Qed.

Lemma writes_only_write_vector (W : loc -> Prop) l v :
  W l -> writes_only W (write_vector l v).
Proof.
  intros Wl h. unfold write_vector.
  destruct (h !! l) as [[u| | | |]|] eqn:E; try apply frame_refl. cbn [snd]. split.
  - rewrite length_insert. lia.
  - intros l' o H. destruct (decide (l' = l)) as [->|Hne].
    + right. split; [exact Wl|]. exists u, v. split; [congruence|].
      apply list_lookup_insert_eq. apply lookup_lt_Some in E. exact E.
    + left. rewrite list_lookup_insert_ne by congruence. exact H.
Qed.

Lemma writes_only_py_div W a b : writes_only W (py_div a b).
Proof. intros h. unfold py_div. destruct (b =? 0)%float; apply frame_refl. Qed.

Lemma writes_only_py_sqrt W a : writes_only W (py_sqrt a).
Proof. intros h. unfold py_sqrt. destruct (a <? 0)%float; apply frame_refl. Qed.

Create HintDb frame discriminated.
#[local] Hint Resolve writes_only_ret writes_only_raise writes_only_lift
  writes_only_alloc writes_only_read_vector writes_only_read_operator
  writes_only_py_div writes_only_py_sqrt : frame.

Ltac frame_steps :=
  repeat first [ solve [ auto with frame ]
               | solve [ apply writes_only_write_vector; reflexivity ]
               | apply writes_only_bind; [ | intros ? ] ].

(** The statements before the loop write nothing. *)
Lemma writes_only_sd_init W A x b : writes_only W (sd_init A x b).
Proof. unfold sd_init, mul, sub, inner. frame_steps. Qed.

(** The body writes [x] only. *)
Lemma writes_only_sd_body A x b B s : writes_only (eq x) (sd_body A x b B s).
Proof. unfold sd_body, mul, sub, inner, rmul, iadd. frame_steps. Qed.

Lemma writes_only_sd_while fuel A x b B tol maxiter : forall s,
  writes_only (eq x) (sd_while fuel A x b B tol maxiter s).
Proof.
  induction fuel as [|fuel IH]; intros s; simpl;
    destruct (sd_cond tol maxiter s); try apply writes_only_ret.
  - intros h. apply frame_refl.
  - apply writes_only_bind; [apply writes_only_sd_body | exact IH].
Qed.

Lemma writes_only_steepest_descent A x b B tol maxiter :
  writes_only (eq x) (steepest_descent A x b B tol maxiter).
Proof.
  unfold steepest_descent, steepest_descent_fuel.
  apply writes_only_bind; [apply writes_only_sd_init|]. intros s0.
  apply writes_only_bind; [apply writes_only_sd_while|]. intros s.
  apply writes_only_ret.
Qed.



(** ** [Diag] and [InvDiag] *)

Lemma row_entry_single j a : row_entry [(j, a)] j = a.
Proof. unfold row_entry. simpl. rewrite Nat.eqb_refl. reflexivity. Qed.

Lemma row_entry_single_ne i j a : i <> j -> row_entry [(i, a)] j = 0%float.
Proof.
  intros H. unfold row_entry. simpl.
  destruct (Nat.eqb_spec i j); [contradiction | reflexivity].
Qed.

Lemma reciprocal_nonzero d :
  forallb (fun a => negb (a =? 0)%float) d = true ->
  reciprocal d = map (fun a => (1 / a)%float) d.
Proof.
  induction d as [|a d IH]; simpl; intros H; [reflexivity|].
  apply andb_true_iff in H. destruct H as [Ha Hd].
  rewrite (IH Hd). destruct (a =? 0)%float; [discriminate | reflexivity].
Qed.

(** Setting the diagonal of a matrix with nothing stored. *)
Lemma set_diagonal_rows d : forall g : nat -> nat,
  imap (fun i '(row, a) => row_set row (g i) a) (zip (replicate (length d) []) d)
  = imap (fun i a => [(g i, a)]) d.
Proof.
  induction d as [|a d IH]; intros g; [reflexivity|].
  simpl. f_equal. exact (IH (g ∘ S)).
Qed.

Lemma setDiagonal_createAIJ d :
  setDiagonal (createAIJ (length d)) d = Ok (diag_aij d).
Proof.
  unfold setDiagonal, createAIJ, diag_aij. simpl.
  rewrite length_replicate, Nat.eqb_refl. f_equal. f_equal.
  exact (set_diagonal_rows d (fun i => i)).
Qed.

Lemma getDiagonal_rows d : forall g : nat -> nat,
  imap (fun i row => row_entry row (g i)) (imap (fun i a => [(g i, a)]) d) = d.
Proof.
  induction d as [|a d IH]; intros g; [reflexivity|].
  simpl. rewrite row_entry_single. f_equal. exact (IH (g ∘ S)).
Qed.

Lemma getDiagonal_diag_aij d : getDiagonal (diag_aij d) = d.
Proof. exact (getDiagonal_rows d (fun i => i)). Qed.

Lemma rows_diag_aij_lookup d i :
  rows (diag_aij d) !! i = (fun a => [(i, a)]) <$> d !! i.
Proof. unfold diag_aij. simpl. apply list_lookup_imap. Qed.

Lemma get_entry_diag_aij d i j :
  get_entry (diag_aij d) i j =
  match d !! i with
  | Some a => if (i =? j)%nat then a else 0%float
  | None => 0%float
  end.
Proof.
  unfold get_entry. rewrite rows_diag_aij_lookup.
  destruct (d !! i) as [a|]; simpl; [|reflexivity].
  destruct (Nat.eqb_spec i j) as [->|Hne].
  - apply row_entry_single.
  - apply row_entry_single_ne. exact Hne.
Qed.

(** The product of two diagonal matrices of the same size. *)
Lemma mat_mat_diag d e :
  length d = length e ->
  mat_mat (diag_aij d) (diag_aij e)
  = diag_aij (zip_with (fun a b => (a * b)%float) d e).
Proof.
  intros Hlen. unfold mat_mat.
  change (diag_aij (zip_with (fun a b => (a * b)%float) d e))
    with {| ncols := length (zip_with (fun a b => (a * b)%float) d e);
            rows := imap (fun i a => [(i, a)])
                         (zip_with (fun a b => (a * b)%float) d e) |}.
  change (ncols (diag_aij e)) with (length e).
  f_equal.
  - rewrite length_zip_with. lia.
  - apply list_eq. intros i.
    rewrite list_lookup_fmap, rows_diag_aij_lookup, list_lookup_imap, lookup_zip_with.
    destruct (d !! i) as [a|] eqn:Ea; simpl; [|reflexivity].
    destruct (e !! i) as [b|] eqn:Eb; simpl.
    + rewrite nth_lookup, list_lookup_imap, Eb. reflexivity.
    + apply lookup_lt_Some in Ea. apply lookup_ge_None in Eb. lia.
Qed.

Lemma is_identity_diag_aij p :
  is_identity (length p) (diag_aij p) <-> forall a, a ∈ p -> a = 1%float.
Proof.
  unfold is_identity. split.
  - intros H a Ha. apply list_elem_of_lookup in Ha. destruct Ha as [i Hi].
    pose proof (lookup_lt_Some _ _ _ Hi) as Hlt.
    specialize (H i i Hlt Hlt). rewrite get_entry_diag_aij, Hi, Nat.eqb_refl in H.
    exact H.
  - intros H i j Hi Hj. rewrite get_entry_diag_aij.
    destruct (lookup_lt_is_Some_2 p i Hi) as [a Ha]. rewrite Ha.
    destruct (i =? j)%nat; [|reflexivity].
    apply H. apply list_elem_of_lookup. exists i. exact Ha.
Qed.

Lemma lookup_snoc2_fst (h : heap) (a b : object) :
  (h ++ [a; b]) !! length h = Some a.
Proof. rewrite lookup_app_r by lia. rewrite Nat.sub_diag. reflexivity. Qed.

Lemma lookup_snoc2_snd (h : heap) (a b : object) :
  (h ++ [a; b]) !! S (length h) = Some b.
Proof.
  rewrite lookup_app_r by lia.
  replace (S (length h) - length h)%nat with 1%nat by lia. reflexivity.
Qed.

Lemma insert_snoc2_fst (h : heap) (a b c : object) :
  <[length h := c]> (h ++ [a; b]) = h ++ [c; b].
Proof.
  rewrite insert_app_r_alt by lia. rewrite Nat.sub_diag. reflexivity.
Qed.

Lemma insert_snoc2_snd (h : heap) (a b c : object) :
  <[S (length h) := c]> (h ++ [a; b]) = h ++ [a; c].
Proof.
  rewrite insert_app_r_alt by lia.
  replace (S (length h) - length h)%nat with 1%nat by lia. reflexivity.
Qed.

Lemma lookup_snoc1 (h : heap) (a : object) : (h ++ [a]) !! length h = Some a.
Proof. rewrite lookup_app_r by lia. rewrite Nat.sub_diag. reflexivity. Qed.

Lemma insert_snoc1 (h : heap) (a c : object) :
  <[length h := c]> (h ++ [a]) = h ++ [c].
Proof.
  rewrite insert_app_r_alt by lia. rewrite Nat.sub_diag. reflexivity.
Qed.

(** [Diag] run on a matrix: two objects are added to the store, the vector
    [dvec] and the result. *)
Lemma Diag_run A m h :
  h !! A = Some (Matrix m) ->
  Diag A h = (Returns (S (length h)),
              h ++ [Vector (getDiagonal m); Matrix (diag_aij (getDiagonal m))]).
Proof.
  intros HA. unfold Diag, mat_getDiagonal, vec_size, Mat_createAIJ,
    mat_setDiagonal, bind, read_matrix, read_vector, write_matrix, alloc, lift, ret.
  rewrite HA. rewrite lookup_snoc1. rewrite <- app_assoc. simpl.
  rewrite length_app. simpl. replace (length h + 1)%nat with (S (length h)) by lia.
  rewrite lookup_snoc2_snd, lookup_snoc2_fst, setDiagonal_createAIJ.
  rewrite lookup_snoc2_snd, insert_snoc2_snd. reflexivity.
Qed.

Lemma InvDiag_run A m h :
  h !! A = Some (Matrix m) ->
  InvDiag A h = (Returns (S (length h)),
                 h ++ [Vector (reciprocal (getDiagonal m));
                       Matrix (diag_aij (reciprocal (getDiagonal m)))]).
Proof.
  intros HA. unfold InvDiag, mat_getDiagonal, vec_reciprocal, vec_size,
    Mat_createAIJ, mat_setDiagonal, bind, read_matrix, read_vector,
    write_vector, write_matrix, alloc, lift, ret.
  rewrite HA. rewrite !lookup_snoc1. rewrite insert_snoc1, lookup_snoc1.
  rewrite <- app_assoc. simpl.
  rewrite length_app. simpl. replace (length h + 1)%nat with (S (length h)) by lia.
  rewrite lookup_snoc2_snd, lookup_snoc2_fst, setDiagonal_createAIJ.
  rewrite lookup_snoc2_snd, insert_snoc2_snd. reflexivity.
Qed.

Lemma zip_with_mul_reciprocal d :
  zip_with (fun a b => (a * b)%float) d (map (fun a => (1 / a)%float) d)
  = map (fun a => (a * (1 / a))%float) d.
Proof. induction d as [|a d IH]; simpl; [reflexivity | rewrite IH; reflexivity]. Qed.

(** C8 (as amended): for a square matrix [A] with nonzero diagonal, [Diag]
    and [InvDiag] each add two objects to the store and change none that was
    there, [A] included; [Diag(A)] is the diagonal matrix with the diagonal of
    [A], [InvDiag(A)] the diagonal matrix of the binary64 reciprocals
    [1/a]; their product is the diagonal matrix of the products [a * (1/a)]
    as rounded in binary64, which is the identity exactly when each of them
    is 1. *)
Theorem InvDiag_inverts_Diag_up_to_rounding (A : loc) (m : aij) (h : heap) :
  h !! A = Some (Matrix m) ->
  is_square m = true ->
  diagonal_nonzero m = true ->
  let d := getDiagonal m in
  let r := map (fun a => (1 / a)%float) d in
  Diag A h = (Returns (S (length h)), h ++ [Vector d; Matrix (diag_aij d)]) /\
  InvDiag A h = (Returns (S (length h)), h ++ [Vector r; Matrix (diag_aij r)]) /\
  getDiagonal (diag_aij d) = d /\
  getDiagonal (diag_aij r) = r /\
  (forall i j : nat, i <> j ->
     get_entry (diag_aij d) i j = 0%float /\ get_entry (diag_aij r) i j = 0%float) /\
  mat_mat (diag_aij d) (diag_aij r)
  = diag_aij (map (fun a => (a * (1 / a))%float) d) /\
  (is_identity (length d) (mat_mat (diag_aij d) (diag_aij r)) <->
   forall a : float, a ∈ d -> (a * (1 / a))%float = 1%float).
Proof.
  intros HA _ Hnz d r.
  assert (Hr : reciprocal d = r) by (apply reciprocal_nonzero; exact Hnz).
  assert (Hprod : mat_mat (diag_aij d) (diag_aij r)
                  = diag_aij (map (fun a => (a * (1 / a))%float) d)).
  { rewrite mat_mat_diag by (unfold r; rewrite length_map; reflexivity).
    unfold r. rewrite zip_with_mul_reciprocal. reflexivity. }
  split; [exact (Diag_run A m h HA)|].
  split; [rewrite <- Hr; exact (InvDiag_run A m h HA)|].
  split; [apply getDiagonal_diag_aij|].
  split; [apply getDiagonal_diag_aij|].
  split.
  { intros i j Hne. rewrite !get_entry_diag_aij.
    destruct (Nat.eqb_spec i j); [contradiction|].
    destruct (d !! i), (r !! i); split; reflexivity. }
  split; [exact Hprod|].
  rewrite Hprod.
  replace (length d) with (length (map (fun a => (a * (1 / a))%float) d))
    by apply length_map.
  rewrite is_identity_diag_aij. split.
  - intros H a Ha. apply H. apply list_elem_of_fmap. exists a. split; [reflexivity | exact Ha].
  - intros H p Hp. apply list_elem_of_fmap in Hp. destruct Hp as (a & -> & Ha).
    exact (H a Ha).
Qed.

(** C8, the claim as stated fails: for the 1 x 1 matrix (49) the entry of
    [Diag(A) * InvDiag(A)] is 49 * (1/49) = 0.9999999999999999 in binary64,
    the largest double below 1, so the product is not the identity. *)
Lemma InvDiag_not_exact_inverse :
  exists D Dinv h1 h2,
    Diag 0%nat h_49 = (Returns 2%nat, h1) /\ h1 !! 2%nat = Some (Matrix D) /\
    InvDiag 0%nat h_49 = (Returns 2%nat, h2) /\ h2 !! 2%nat = Some (Matrix Dinv) /\
    get_entry D 0 0 = 49%float /\
    get_entry (mat_mat D Dinv) 0 0 = 0x1.fffffffffffffp-1%float /\
    (get_entry (mat_mat D Dinv) 0 0 <? 1)%float = true /\
    ~ is_identity 1 (mat_mat D Dinv).
Proof.
  do 4 eexists.
  split; [vm_compute; reflexivity|]. split; [vm_compute; reflexivity|].
  split; [vm_compute; reflexivity|]. split; [vm_compute; reflexivity|].
  split; [vm_compute; reflexivity|]. split; [vm_compute; reflexivity|].
  split; [vm_compute; reflexivity|].
  intros H. specialize (H 0%nat 0%nat ltac:(lia) ltac:(lia)).
  apply (f_equal (fun a => (a =? 1)%float)) in H.
  vm_compute in H. discriminate.
Qed.

(** C8, an instance: the matrix with rows (2, 1) and (0, 4), whose diagonal
    entries are powers of two. *)
Lemma InvDiag_inverts_Diag_up_to_rounding_witness :
  Diag 0%nat h_upper
  = (Returns 2%nat,
     h_upper ++ [Vector [2%float; 4%float];
                 Matrix (diag_aij [2%float; 4%float])]) /\
  InvDiag 0%nat h_upper
  = (Returns 2%nat,
     h_upper ++ [Vector [0.5%float; 0.25%float];
                 Matrix (diag_aij [0.5%float; 0.25%float])]) /\
  is_identity 2 (mat_mat (diag_aij [2%float; 4%float])
                         (diag_aij [0.5%float; 0.25%float])).
Proof.
  pose proof (InvDiag_inverts_Diag_up_to_rounding 0%nat _ h_upper
                eq_refl eq_refl eq_refl) as (HD & HI & _ & _ & _ & _ & Hid).
  split; [exact HD|]. split; [exact HI|].
  apply Hid. intros a Ha.
  apply elem_of_cons in Ha. destruct Ha as [->|Ha]; [reflexivity|].
  apply elem_of_cons in Ha. destruct Ha as [->|Ha]; [reflexivity|].
  apply elem_of_nil in Ha. contradiction.
Defined.

(** ** [HyperCubeMesh] *)

Lemma unit_mesh_run name (gdim : nat) (args : list Z) (h : heap) :
  length args = gdim ->
  forallb (fun n => 1 <=? n) args = true ->
  unit_mesh name gdim args h = (Returns (length h), h ++ [Mesh args]).
Proof.
  intros Hlen Hpos. unfold unit_mesh. rewrite Hlen, Nat.eqb_refl, Hpos. reflexivity.
Qed.

Lemma mesh_dict_missing (dim : Z) :
  dim <> 1 -> dim <> 2 -> dim <> 3 ->
  ({[ 1 := UnitIntervalMesh; 2 := UnitSquareMesh; 3 := UnitCubeMesh ]}
     : gmap Z (list Z -> M loc)) !! dim = None.
Proof.
  intros H1 H2 H3.
  rewrite lookup_insert_ne by congruence.
  rewrite lookup_insert_ne by congruence.
  apply lookup_singleton_ne. congruence.
Qed.

Lemma HyperCubeMesh_run_aux (ncells : Z) (h : heap) :
  1 <= ncells ->
  HyperCubeMesh (PyInt 1) ncells h = (Returns (length h), h ++ [Mesh [ncells]]) /\
  HyperCubeMesh (PyInt 2) ncells h
  = (Returns (length h), h ++ [Mesh [ncells; ncells]]) /\
  HyperCubeMesh (PyInt 3) ncells h
  = (Returns (length h), h ++ [Mesh [ncells; ncells; ncells]]).
Proof.
  intros Hn.
  assert (Hb : (1 <=? ncells) = true) by (apply Z.leb_le; exact Hn).
  change (HyperCubeMesh (PyInt 1) ncells h)
    with (unit_mesh "UnitIntervalMesh" 1 [ncells] h).
  change (HyperCubeMesh (PyInt 2) ncells h)
    with (unit_mesh "UnitSquareMesh" 2 [ncells; ncells] h).
  change (HyperCubeMesh (PyInt 3) ncells h)
    with (unit_mesh "UnitCubeMesh" 3 [ncells; ncells; ncells] h).
  repeat split; apply unit_mesh_run; simpl; rewrite ?Hb; reflexivity.
Qed.

Lemma unit_mesh_refused name (gdim : nat) (args : list Z) (h : heap) :
  length args = gdim ->
  forallb (fun n => 1 <=? n) args = false ->
  unit_mesh name gdim args h = (Raises (LibraryError name), h).
Proof.
  intros Hlen Hpos. unfold unit_mesh. rewrite Hlen, Nat.eqb_refl, Hpos. reflexivity.
Qed.

Lemma mesh_key_missing (dim : pyvalue) :
  hashable dim = true ->
  as_int_key dim <> Some 1 -> as_int_key dim <> Some 2 -> as_int_key dim <> Some 3 ->
  forall (ncells : Z) (h : heap),
    HyperCubeMesh dim ncells h = (Raises (KeyError dim), h).
Proof.
  intros Hh H1 H2 H3 ncells h. unfold HyperCubeMesh, dict_getitem, bind.
  rewrite Hh. destruct (as_int_key dim) as [z|]; [|reflexivity].
  simpl. rewrite mesh_dict_missing by congruence. reflexivity.
Qed.



(** ** Exceptions: the [assert] statements, and propagation *)

Lemma vertices_of_replicate (k : nat) (n : Z) :
  vertices_of (replicate k n) = (n + 1) ^ Z.of_nat k.
Proof.
  induction k as [|k IH]; [reflexivity|].
  rewrite Nat2Z.inj_succ, Z.pow_succ_r by lia. simpl. rewrite IH. reflexivity.
Qed.

Lemma HyperCubeMesh_run (dim n : Z) (h : heap) :
  dim = 1 \/ dim = 2 \/ dim = 3 -> 1 <= n ->
  HyperCubeMesh (PyInt dim) n h
  = (Returns (length h), h ++ [Mesh (replicate (Z.to_nat dim) n)]).
Proof.
  intros Hdim Hn.
  destruct (HyperCubeMesh_run_aux n h Hn) as (H1 & H2 & H3).
  destruct Hdim as [-> | [-> | ->]]; assumption.
Qed.

Lemma num_vertices_run (mesh : loc) (cells : list Z) (h : heap) :
  h !! mesh = Some (Mesh cells) ->
  num_vertices mesh h = (Returns (vertices_of cells), h).
Proof.
  intros H. unfold num_vertices, bind, read_mesh. rewrite H. reflexivity.
Qed.

Lemma geometry_dim_run (mesh : loc) (cells : list Z) (h : heap) :
  h !! mesh = Some (Mesh cells) ->
  geometry_dim mesh h = (Returns (Z.of_nat (length cells)), h).
Proof.
  intros H. unfold geometry_dim, bind, read_mesh. rewrite H. reflexivity.
Qed.

Section ErrorHandling.
Variable hmin : loc -> M float.
Variable assemble_stiffness : loc -> M ndarray.
Variable eigvalsh : ndarray -> M (list float).
Variable func : Type.
Variable interpolate_array : loc -> func -> M (list float).
Variable assemble_stiffness_mass : loc -> func -> M (ndarray * ndarray).
Variable eigh : ndarray -> ndarray -> M (list float * ndarray).
Variable np_dot : ndarray -> ndarray -> M ndarray.
Variable np_dot_vec : ndarray -> list float -> M (list float).
Variable np_T : ndarray -> ndarray.
Variable np_diag_pow : list float -> float -> M ndarray.
Variable np_sum_mul : list float -> list float -> M float.
Variable sympy : Type.
Variable free_symbols : sympy -> gset string.
Variable ccode : sympy -> M string.

Let stiffness := stiffness_cond hmin assemble_stiffness eigvalsh.
Let norm := hs_norm func interpolate_array assemble_stiffness_mass eigh np_dot
              np_dot_vec np_T np_diag_pow np_sum_mul.
Let body_of := expr_body sympy free_symbols ccode.

(** The state of [stiffness_cond] when it reaches line 90, for a mesh with
    fewer than 5000 vertices: both meshes are in the store. *)
Lemma stiffness_cond_prefix (dim n : Z) (h : heap) (k : loc -> M (float * float)) :
  dim = 1 \/ dim = 2 \/ dim = 3 -> 1 <= n ->
  let cells := replicate (Z.to_nat dim) n in
  (let* mesh := HyperCubeMesh (PyInt dim) n in
   let* nv := num_vertices mesh in
   let* _ := py_assert (nv <? 5000) in
   let* mesh := HyperCubeMesh (PyInt dim) n in
   k mesh) h
  = if (n + 1) ^ dim <? 5000
    then k (S (length h)) ((h ++ [Mesh cells]) ++ [Mesh cells])
    else (Raises AssertionError, h ++ [Mesh cells]).
Proof.
  intros Hdim Hn cells.
  rewrite (bind_returns _ _ _ _ _ (HyperCubeMesh_run dim n h Hdim Hn)).
  fold cells.
  rewrite (bind_returns _ _ _ _ _
             (num_vertices_run (length h) cells (h ++ [Mesh cells])
                               (lookup_snoc1 h (Mesh cells)))).
  unfold cells at 1. rewrite vertices_of_replicate.
  replace (Z.of_nat (Z.to_nat dim)) with dim by lia.
  destruct ((n + 1) ^ dim <? 5000) eqn:E.
  - unfold py_assert. rewrite (bind_returns _ _ (h ++ [Mesh cells]) tt _ eq_refl).
    rewrite (bind_returns _ _ _ _ _
               (HyperCubeMesh_run dim n (h ++ [Mesh cells]) Hdim Hn)).
    rewrite length_app. simpl. replace (length h + 1)%nat with (S (length h)) by lia.
    reflexivity.
  - reflexivity.
Qed.

Lemma expr_body_assert_holds (e : sympy) :
  bool_decide (xyz ∩ free_symbols e ⊆ xyz) = true.
Proof. apply bool_decide_eq_true. apply intersection_subseteq_l. Qed.

Lemma pyexpr_nested_ind (P : pyexpr sympy -> Prop) :
  (forall e, P (Scalar sympy e)) ->
  (forall es, Forall P es -> P (Iterable sympy es)) ->
  forall x, P x.
Proof.
  intros HS HI. fix IH 1. intros [e|es].
  - apply HS.
  - apply HI. induction es as [|y es IHes]; constructor; [apply IH | exact IHes].
Qed.

(** Whatever [expr_body] raises was raised by [ccode]: its own [assert]
    never fails. *)
Lemma expr_body_raises kwargs : forall expr h e h',
  body_of kwargs expr h = (Raises e, h') ->
  exists s h1, ccode s h1 = (Raises e, h').
Proof.
  intros expr. induction expr as [s|es IH] using pyexpr_nested_ind;
    intros h e h' H; unfold body_of in *; simpl in H.
  - rewrite expr_body_assert_holds in H. unfold py_assert in H.
    rewrite (bind_returns _ _ h tt h eq_refl) in H.
    apply bind_inv_raises in H. destruct H as [H | (c & h1 & _ & H)].
    + exists s, h. exact H.
    + discriminate.
  - apply bind_inv_raises in H. destruct H as [H | (bs & h1 & _ & H)]; [|discriminate].
    revert h H.
    induction IH as [|y es Hy _ IHes]; intros h H; [discriminate|].
    apply bind_inv_raises in H. destruct H as [H | (b & h1 & _ & H)].
    + exact (Hy _ _ _ H).
    + apply bind_inv_raises in H. destruct H as [H | (bs & h2 & _ & H)].
      * exact (IHes _ H).
      * discriminate.
Qed.

Lemma length_insert_sorted (a : float) (l : list float) :
  length (insert_sorted a l) = S (length l).
Proof.
  induction l as [|b l IH]; simpl; [reflexivity|].
  destruct (a <=? b)%float; simpl; [reflexivity | rewrite IH; reflexivity].
Qed.

Lemma length_np_sort (l : list float) : length (np_sort l) = length l.
Proof.
  induction l as [|a l IH]; simpl; [reflexivity|].
  rewrite length_insert_sorted, IH. reflexivity.
Qed.

(** Indexing a sorted array with [[0, -1]]. *)
Lemma first_and_last_np_sort (eigs : list float) (h : heap) :
  match eigs with
  | [] => first_and_last (np_sort eigs) h = (Raises IndexError, h)
  | _ :: _ => exists lmin lmax : float,
                first_and_last (np_sort eigs) h = (Returns (lmin, lmax), h)
  end.
Proof.
  destruct eigs as [|e0 eigs]; [reflexivity|].
  pose proof (length_np_sort (e0 :: eigs)) as Hlen.
  destruct (np_sort (e0 :: eigs)) as [|a l] eqn:E; [discriminate|].
  unfold first_and_last.
  destruct (last (a :: l)) as [z|] eqn:Ez; [|apply last_None in Ez; discriminate].
  exists a, z. reflexivity.
Qed.

(** One call in a sequence: an exception passes through, a value goes on. *)
Ltac call_step a hh :=
  split;
  [ let e := fresh "e" in let h' := fresh "h'" in let Hr := fresh "Hr" in
    intros e h' Hr; apply bind_raises; exact Hr
  | let Hr := fresh "Hr" in
    intros a hh Hr; rewrite (bind_returns _ _ _ _ _ Hr); cbn beta iota ].

End ErrorHandling.


(** ** The solvers the notebooks use *)

Lemma all_calls_bind {A B : Type} (P : string -> list Calls.term -> bool)
    (m : Calls.prog A) (f : A -> Calls.prog B) :
  Calls.all_calls P m = true ->
  (forall a, Calls.all_calls P (f a) = true) ->
  Calls.all_calls P (Calls.bind m f) = true.
Proof.
  revert f.
  induction m as [A a | A e | A r args k IH | A items k IH | A t y IHy n IHn
                 | A it body _ k IH];
    intros f Hm Hf; cbn in *; auto.
  - apply andb_true_iff in Hm as [Hr Hk]. rewrite Hr. cbn. auto.
  - apply andb_true_iff in Hm as [Hy Hn]. rewrite IHy, IHn; auto.
  - apply andb_true_iff in Hm as [Hb Hk]. rewrite Hb. cbn. auto.
Qed.

Lemma all_calls_for_each {X : Type} (P : string -> list Calls.term -> bool)
    (xs : list X) (body : X -> Calls.prog unit) :
  Forall (fun x => Calls.all_calls P (body x) = true) xs ->
  Calls.all_calls P (Calls.for_each xs body) = true.
Proof.
  induction 1 as [| x xs Hx _ IH]; cbn; [reflexivity |].
  apply all_calls_bind; auto.
Qed.

Lemma all_calls_impl {A : Type} (P Q : string -> list Calls.term -> bool)
    (p : Calls.prog A) :
  (forall r args, P r args = true -> Q r args = true) ->
  Calls.all_calls P p = true -> Calls.all_calls Q p = true.
Proof.
  intros HPQ.
  induction p as [A a | A e | A r args k IH | A items k IH | A t y IHy n IHn
                 | A it body IHb k IH];
    cbn; auto.
  - intros [Hr Hk]%andb_true_iff. rewrite (HPQ _ _ Hr). cbn. auto.
  - intros [Hy Hn]%andb_true_iff. rewrite IHy, IHn; auto.
  - intros [Hb Hk]%andb_true_iff. rewrite IHb, IH; auto.
Qed.

(** Where [Q] does not look at the calls made before, neither does
    [all_prints Q]. *)
Lemma all_prints_history {A : Type}
    (Q : list (string * list Calls.term) -> list Calls.term -> bool)
    (p : Calls.prog A) :
  (forall b b' items, Q b items = Q b' items) ->
  forall b b', Calls.all_prints Q b p = Calls.all_prints Q b' p.
Proof.
  intros HQ.
  induction p as [A a | A e | A r args k IH | A items k IH | A t y IHy n IHn
                 | A it body IHb k IH];
    intros b b'; cbn; auto.
  - rewrite (HQ b b'), (IH b b'). reflexivity.
  - rewrite (IHy b b'), (IHn b b'). reflexivity.
  - rewrite (IHb b b'), (IH b b'). reflexivity.
Qed.

Lemma all_prints_bind {A B : Type}
    (Q : list (string * list Calls.term) -> list Calls.term -> bool)
    (m : Calls.prog A) (f : A -> Calls.prog B) :
  (forall b b' items, Q b items = Q b' items) ->
  Calls.all_prints Q [] m = true ->
  (forall a, Calls.all_prints Q [] (f a) = true) ->
  Calls.all_prints Q [] (Calls.bind m f) = true.
Proof.
  intros HQ. generalize (@nil (string * list Calls.term)) at 1 3. revert f.
  induction m as [A a | A e | A r args k IH | A items k IH | A t y IHy n IHn
                 | A it body _ k IH];
    intros f b Hm Hf; cbn in *; auto.
  - rewrite (all_prints_history Q (f a) HQ b []). apply Hf.
  - destruct (Q b items); [auto | discriminate].
  - destruct (Calls.all_prints Q b y) eqn:Hy; [|discriminate].
    rewrite IHy; auto.
  - destruct (Calls.all_prints Q b body); [auto | discriminate].
Qed.

Lemma all_prints_for_each {X : Type}
    (Q : list (string * list Calls.term) -> list Calls.term -> bool)
    (xs : list X) (body : X -> Calls.prog unit) :
  (forall b b' items, Q b items = Q b' items) ->
  Forall (fun x => Calls.all_prints Q [] (body x) = true) xs ->
  Calls.all_prints Q [] (Calls.for_each xs body) = true.
Proof.
  intros HQ. induction 1 as [| x xs Hx _ IH]; cbn; [reflexivity |].
  apply all_prints_bind; auto.
Qed.

(** *** [steepest_descent], whatever it is called with *)

Lemma sd_loop_calls (remaining : nat) (A x b B r error : Calls.term)
    (tolerance : float) (iter : Z) :
  Calls.all_calls (fun routine _ => bool_decide (routine ∈ Calls.vector_operations))
    (Calls.sd_loop remaining A x b B r error tolerance iter) = true.
Proof.
  revert x r error iter.
  induction remaining as [| remaining IH]; intros x r error iter.
  - reflexivity.
  - cbn. rewrite IH. reflexivity.
Qed.

Lemma all_results_impl {A : Type} (R R' : A -> bool) (p : Calls.prog A) :
  (forall a, R a = true -> R' a = true) ->
  Calls.all_results R p = true -> Calls.all_results R' p = true.
Proof.
  revert R R'.
  induction p as [A a | A e | A r args k IH | A items k IH | A t y IHy n IHn
                 | A it body _ k IH];
    intros R R' HR; cbn; eauto.
  intros [Hy Hn]%andb_true_iff.
  rewrite (IHy R R'), (IHn R R'); auto.
Qed.

Lemma sd_loop_results (remaining : nat) (A x b B r error : Calls.term)
    (tolerance : float) (iter : Z) :
  Calls.all_results
    (fun k => (iter <=? k)%Z && (k <=? iter + Z.of_nat remaining)%Z)
    (Calls.sd_loop remaining A x b B r error tolerance iter) = true.
Proof.
  revert x r error iter.
  induction remaining as [| remaining IH]; intros x r error iter.
  - cbn -[Z.leb Z.add Z.of_nat].
    repeat (apply andb_true_iff; split); apply Z.leb_le; lia.
  - cbn -[Z.leb Z.add Z.of_nat].
    apply andb_true_iff. split.
    + eapply all_results_impl; [| apply IH].
      intros k [H1 H2]%andb_true_iff. apply Z.leb_le in H1, H2.
      apply andb_true_iff. split; apply Z.leb_le; lia.
    + apply andb_true_iff. split; apply Z.leb_le; lia.
Qed.

Lemma steepest_descent_calls (A x b B : Calls.term) (tolerance : float)
    (maxiter : Z) :
  Calls.all_calls (fun routine _ => bool_decide (routine ∈ Calls.vector_operations))
    (Calls.steepest_descent A x b B tolerance maxiter) = true.
Proof. cbn. rewrite sd_loop_calls. reflexivity. Qed.

Lemma steepest_descent_results (A x b B : Calls.term) (tolerance : float)
    (maxiter : Z) :
  Calls.all_results (fun k => (0 <=? k)%Z && (k <=? Z.max 0 maxiter)%Z)
    (Calls.steepest_descent A x b B tolerance maxiter) = true.
Proof.
  cbn -[Z.of_nat Z.to_nat].
  eapply all_results_impl; [| apply sd_loop_results].
  intros k [H1 H2]%andb_true_iff. apply Z.leb_le in H1, H2.
  apply andb_true_iff. split; apply Z.leb_le; lia.
Qed.

(** *** The cell of the steepest descent experiment *)

Lemma cell_464_calls :
  Calls.all_calls Calls.no_solver Calls.cell_464 = true.
Proof.
  unfold Calls.cell_464. apply all_calls_for_each.
  repeat (apply List.Forall_cons; [vm_compute; reflexivity |]).
  apply List.Forall_nil.
Qed.

Lemma own_count_history (maxiter : Z) (b b' : list (string * list Calls.term))
    (items : list Calls.term) :
  Calls.own_count maxiter b items = Calls.own_count maxiter b' items.
Proof. reflexivity. Qed.

Lemma cell_464_prints :
  Calls.all_prints (Calls.own_count 200) [] Calls.cell_464 = true.
Proof.
  unfold Calls.cell_464. apply all_prints_for_each.
  - apply own_count_history.
  - repeat (apply List.Forall_cons; [vm_compute; reflexivity |]).
    apply List.Forall_nil.
Qed.


Lemma for_each_cons {X : Type} (x : X) (xs : list X)
    (body : X -> Calls.prog unit) :
  Calls.for_each (x :: xs) body
  = Calls.bind (body x) (fun _ => Calls.for_each xs body).
Proof. reflexivity. Qed.

(** A line that fails [Q] in a computation fails it in whatever the
    computation is the first part of. *)
Lemma all_prints_bind_false {A B : Type}
    (Q : list (string * list Calls.term) -> list Calls.term -> bool)
    (m : Calls.prog A) (f : A -> Calls.prog B) (before : list (string * list Calls.term)) :
  Calls.all_prints Q before m = false ->
  Calls.all_prints Q before (Calls.bind m f) = false.
Proof.
  revert f before.
  induction m as [A a | A e | A r args k IH | A items k IH | A t y IHy n IHn
                 | A it body _ k IH];
    intros f before Hm; cbn in *; try discriminate; auto.
  - destruct (Q before items); auto.
  - destruct (Calls.all_prints Q before y) eqn:Hy.
    + destruct (Calls.all_prints Q before (Calls.bind y f)); auto.
    + rewrite IHy; auto.
  - destruct (Calls.all_prints Q before body); auto.
Qed.

Lemma cell_464_prints_count : Calls.prints_count Calls.cell_464 = true.
Proof.
  unfold Calls.prints_count, Calls.cell_464. rewrite for_each_cons.
  rewrite all_prints_bind_false; [reflexivity |]. vm_compute. reflexivity.
Qed.

Lemma cell_464_not_external :
  Calls.all_prints Calls.external_count [] Calls.cell_464 = false.
Proof.
  unfold Calls.cell_464. rewrite for_each_cons.
  apply all_prints_bind_false. vm_compute. reflexivity.
Qed.

Lemma cell_464_known_solver :
  Calls.all_calls Calls.known_solver Calls.cell_464 = true.
Proof.
  eapply all_calls_impl; [| apply cell_464_calls].
  intros r args. unfold Calls.no_solver, Calls.known_solver.
  destruct (Calls.block_iterative r); [discriminate | reflexivity].
Qed.

Lemma cell_464_default_method :
  Calls.all_calls Calls.default_method Calls.cell_464 = true.
Proof.
  eapply all_calls_impl; [| apply cell_464_calls].
  intros r args. unfold Calls.no_solver, Calls.default_method.
  destruct (Calls.dolfin_solve r); [| reflexivity].
  rewrite orb_true_r. discriminate.
Qed.

Lemma cell_464_no_MinRes :
  Calls.all_calls (fun r _ => negb (String.eqb r "block.iterative.MinRes"))
                  Calls.cell_464 = true.
Proof.
  eapply all_calls_impl; [| apply cell_464_calls].
  intros r args. unfold Calls.no_solver.
  destruct (String.eqb_spec r "block.iterative.MinRes") as [-> |]; [| reflexivity].
  vm_compute. discriminate.
Qed.

(** One goal for each code cell of the notebooks: [own] for the cell of the
    steepest descent experiment, whose tree is too large to be computed, and
    [other] for the rest. *)
Ltac each_cell own other :=
  unfold Calls.notebooks, Calls.preconditioning, Calls.coupled, Calls.stokes;
  repeat first [ apply Forall_app_2 | apply Forall_cons_2 | apply Forall_nil_2 ];
  lazymatch goal with
  | |- Calls.cell_464 = _ \/ _ => own
  | |- _ = _ \/ _ => other
  | |- context [Calls.cell_464] => own
  | |- _ => other
  end.

(** C3 (as amended): in every code cell of the three notebooks but one, an
    iteration count that is printed is [len(S.residuals) - 1] for an object
    [S] that a solver class of cbc.block's [block.iterative] returned and
    that the cell applied to the right-hand side ([S*b]); such a cell prints
    a count exactly when it calls one of these classes, and a cell that
    calls dolfin's [solve] or [project] (the cells of [mixed_poisson] and
    of [stokes_solver]) prints none.  The one is the steepest descent
    experiment, lines 464-478 of preconditioning.ipynb: it calls no solver
    class of cbc.block and no solve of dolfin, and the count it prints is a
    number between 0 and 200 that the notebook's own loop computed, not one
    obtained from a solver object.  That loop, [steepest_descent], calls
    nothing but operators and methods of the vectors and operators it is
    given ([-], [*], [/], [+=], [>], [inner]) and [sqrt], whatever its
    arguments, and returns a number between 0 and [maxiter] (0 for a
    negative [maxiter]). *)
Theorem solvers_external_except_steepest_descent :
  Forall (fun cell =>
            cell = Calls.cell_464 \/
            (Calls.all_prints Calls.external_count [] cell = true /\
             Calls.prints_count cell
             = Calls.some_call (fun r _ => Calls.block_iterative r) cell /\
             Calls.some_call (fun r _ => Calls.dolfin_solve r) cell
             && Calls.prints_count cell = false))
         Calls.notebooks /\
  (Calls.all_calls Calls.no_solver Calls.cell_464 = true /\
   Calls.prints_count Calls.cell_464 = true /\
   Calls.all_prints (Calls.own_count 200) [] Calls.cell_464 = true /\
   Calls.all_prints Calls.external_count [] Calls.cell_464 = false) /\
  (forall (A x b B : Calls.term) (tolerance : float) (maxiter : Z),
     Calls.all_calls
       (fun routine _ => bool_decide (routine ∈ Calls.vector_operations))
       (Calls.steepest_descent A x b B tolerance maxiter) = true /\
     Calls.all_results (fun k => (0 <=? k) && (k <=? Z.max 0 maxiter))
       (Calls.steepest_descent A x b B tolerance maxiter) = true) /\
  (Calls.some_call (fun r _ => String.eqb r "dolfin.solve") Calls.cell_136 = true /\
   Calls.some_call (fun r _ => String.eqb r "dolfin.solve") Calls.cell_133 = true /\
   Calls.some_call (fun r _ => String.eqb r "dolfin.project") Calls.cell_133 = true).
Proof.
  split; [| split; [| split]].
  - each_cell ltac:(left; reflexivity)
              ltac:(right; split; [| split]; vm_compute; reflexivity).
  - split; [| split; [| split]].
    + apply cell_464_calls.
    + apply cell_464_prints_count.
    + apply cell_464_prints.
    + apply cell_464_not_external.
  - intros A x b B tolerance maxiter. split.
    + apply steepest_descent_calls.
    + apply steepest_descent_results.
  - repeat split; vm_compute; reflexivity.
Qed.

(** C3, the claim as stated fails: in the first round of the experiment at
    lines 464-478 of preconditioning.ipynb, when the residual passes the
    test after two rounds of the notebook's own loop, the count printed is
    that 2, and no solver class of cbc.block and no solve of dolfin has been
    called.  On the system [h_spd] the loop of [steepest_descent] itself
    runs 26 times. *)
Lemma steepest_descent_is_own_solver :
  head (Calls.last_line two_rounds)
  = Some (Calls.Str "n = %d, dofs = %d, niters = %d") /\
  Calls.count (Calls.last_line two_rounds) = Some (Calls.Int 2) /\
  forallb (fun ev => match ev with
                     | Calls.Called r args => Calls.no_solver r args
                     | Calls.Printed _ => true
                     end) two_rounds = true /\
  fst (steepest_descent 0%nat 1%nat 2%nat 3%nat 1e-4 200 h_spd) = Returns 26.
Proof. repeat split; vm_compute; reflexivity. Qed.

(** C4 (as amended): the solver classes of cbc.block that the notebooks
    call are Richardson, ConjGrad, LGMRES (a GMRES method) and MinRes, the
    minimal residual method, and each of the four is called: MinRes by the
    two experiments of coupled.ipynb ([mixed_poisson_block] and [babuska])
    and by no cell of the other two notebooks.  The fifth iterative method
    is the notebook's own [steepest_descent], whose cell calls no solver
    class and prints the count of its loop.  The remaining solves are
    dolfin's [solve] and [project], called without naming a method. *)
Theorem iterative_methods_used :
  Forall (fun cell => Calls.all_calls Calls.known_solver cell = true /\
                      Calls.all_calls Calls.default_method cell = true)
         Calls.notebooks /\
  (Calls.some_call (fun r _ => String.eqb r "block.iterative.Richardson")
                   Calls.cell_260 = true /\
   Calls.some_call (fun r _ => String.eqb r "block.iterative.ConjGrad")
                   Calls.cell_496 = true /\
   Calls.some_call (fun r _ => String.eqb r "block.iterative.LGMRES")
                   Calls.cell_627 = true /\
   Calls.some_call (fun r _ => String.eqb r "block.iterative.MinRes")
                   Calls.cell_254 = true /\
   Calls.some_call (fun r _ => String.eqb r "block.iterative.MinRes")
                   Calls.cell_557 = true) /\
  Forall (fun cell =>
            Calls.all_calls
              (fun r _ => negb (String.eqb r "block.iterative.MinRes")) cell
            = true)
         (Calls.preconditioning ++ Calls.stokes) /\
  (Calls.all_calls Calls.no_solver Calls.cell_464 = true /\
   Calls.prints_count Calls.cell_464 = true /\
   Calls.all_prints (Calls.own_count 200) [] Calls.cell_464 = true).
Proof.
  split; [| split; [| split]].
  - each_cell
      ltac:(split; [apply cell_464_known_solver | apply cell_464_default_method])
      ltac:(split; vm_compute; reflexivity).
  - repeat split; vm_compute; reflexivity.
  - each_cell ltac:(apply cell_464_no_MinRes) ltac:(vm_compute; reflexivity).
  - split; [| split].
    + apply cell_464_calls.
    + apply cell_464_prints_count.
    + apply cell_464_prints.
Qed.

(** C4, the claim as stated fails: the two experiments of coupled.ipynb
    call the solver class MinRes of cbc.block, and the count that the cell of
    [mixed_poisson_block] prints is taken from the object MinRes returned;
    MinRes is none of Richardson, steepest descent, conjugate gradient and
    GMRES. *)
Lemma minres_is_not_a_named_method :
  Calls.some_call (fun r _ => String.eqb r "block.iterative.MinRes")
                  Calls.cell_254 = true /\
  Calls.some_call (fun r _ => String.eqb r "block.iterative.MinRes")
                  Calls.cell_557 = true /\
  Calls.count (Calls.last_line (Calls.run [] Calls.cell_254))
    ≫= Calls.count_routine = Some "block.iterative.MinRes" /\
  Calls.count (Calls.last_line (Calls.run [] Calls.cell_557))
    ≫= Calls.count_routine = Some "block.iterative.MinRes" /\
  bool_decide ("block.iterative.MinRes" ∈ Calls.four_methods) = false.
Proof. repeat split; vm_compute; reflexivity. Qed.

(** ** The Makefile *)

Lemma default_goal_makefile : default_goal makefile = Some "all"%string.
Proof. vm_compute. reflexivity. Qed.

(** C6: the default goal of the Makefile is [all], whose prerequisites are
    precond.pdf and coupled.pdf and nothing else.  precond.pdf depends on
    precond.tex, p_intro.tex and p_lax_milgram.tex, coupled.pdf on
    coupled.tex, and each is made by latexmk, given pdflatex as its
    [-pdflatex] command, run on the first prerequisite.  With the sources
    present, [make] runs exactly these commands: latexmk on precond.tex when
    precond.pdf is missing or older than one of its three sources, then
    latexmk on coupled.tex when coupled.pdf is missing or older than
    coupled.tex. *)
Theorem make_all_builds_both_pdfs (fs : gmap string nat) (t1 t2 t3 t4 : nat) :
  fs !! "precond.tex"%string = Some t1 ->
  fs !! "p_intro.tex"%string = Some t2 ->
  fs !! "p_lax_milgram.tex"%string = Some t3 ->
  fs !! "coupled.tex"%string = Some t4 ->
  default_goal makefile = Some "all"%string /\
  prerequisites <$> rule_for makefile "all"
  = Some ["precond.pdf"; "coupled.pdf"]%string /\
  prerequisites <$> rule_for makefile "precond.pdf"
  = Some ["precond.tex"; "p_intro.tex"; "p_lax_milgram.tex"]%string /\
  prerequisites <$> rule_for makefile "coupled.pdf" = Some ["coupled.tex"]%string /\
  (fun r => map (expand r) (recipe r)) <$> rule_for makefile "precond.pdf"
  = Some [latexmk_on "precond.tex"] /\
  (fun r => map (expand r) (recipe r)) <$> rule_for makefile "coupled.pdf"
  = Some [latexmk_on "coupled.tex"] /\
  make makefile fs
  = Some ((if out_of_date fs "precond.pdf"
                ["precond.tex"; "p_intro.tex"; "p_lax_milgram.tex"]
           then [latexmk_on "precond.tex"] else [])
          ++ (if out_of_date fs "coupled.pdf" ["coupled.tex"]
              then [latexmk_on "coupled.tex"] else [])).
Proof.
  intros H1 H2 H3 H4.
  split; [exact default_goal_makefile|].
  do 5 (split; [vm_compute; reflexivity|]).
  unfold make, out_of_date. rewrite default_goal_makefile. cbn [existsb].
  rewrite H1, H2, H3, H4.
  assert (E : forall mtime : string -> option nat,
    mtime "precond.tex"%string = Some t1 ->
    mtime "p_intro.tex"%string = Some t2 ->
    mtime "p_lax_milgram.tex"%string = Some t3 ->
    mtime "coupled.tex"%string = Some t4 ->
    fst <$> remake (S (length makefile)) makefile mtime "all"
    = Some ((if match mtime "precond.pdf"%string with
                | Some m => (m <? t1)%nat || ((m <? t2)%nat || ((m <? t3)%nat || false))
                | None => true
                end
             then [latexmk_on "precond.tex"] else [])
            ++ (if match mtime "coupled.pdf"%string with
                   | Some m => (m <? t4)%nat || false
                   | None => true
                   end
                then [latexmk_on "coupled.tex"] else []))).
  { intros mtime M1 M2 M3 M4. cbv -[Nat.ltb app]. rewrite M1, M2, M3, M4.
    destruct (mtime "precond.pdf"%string) as [m1|];
      destruct (mtime "coupled.pdf"%string) as [m2|];
      try destruct (m1 <? t1)%nat; try destruct (m1 <? t2)%nat;
      try destruct (m1 <? t3)%nat; try destruct (m2 <? t4)%nat;
      reflexivity. }
  exact (E (fun t => fs !! t) H1 H2 H3 H4).
Qed.

(** C6, an instance: with precond.pdf older than precond.tex and coupled.pdf
    up to date, [make] runs latexmk on precond.tex only. *)
Lemma make_all_builds_both_pdfs_witness :
  make makefile fs_stale_precond = Some [latexmk_on "precond.tex"].
Proof.
  destruct (make_all_builds_both_pdfs fs_stale_precond 5 1 1 2
              eq_refl eq_refl eq_refl eq_refl) as (_ & _ & _ & _ & _ & _ & H).
  rewrite H. reflexivity.
Defined.

(** * Further properties *)

(** ** Signs of binary64 sums and squares *)

Lemma not_negative_round_aux prec emax m e l :
  not_negative (binary_round_aux prec emax false m e l).
Proof.
  unfold binary_round_aux.
  destruct (shr_fexp prec emax m e l) as [mrs' e'].
  destruct (shr_fexp prec emax _ e' loc_Exact) as [mrs'' e''].
  destruct (shr_m mrs''); simpl; try exact I.
  destruct (e'' <=? emax - prec); exact I.
Qed.

Lemma not_negative_round prec emax m e :
  not_negative (binary_round prec emax false m e).
Proof.
  unfold binary_round. destruct (shl_align m e _).
  apply not_negative_round_aux.
Qed.

Lemma not_negative_SFadd prec emax x y :
  not_negative x -> not_negative y -> not_negative (SFadd prec emax x y).
Proof.
  destruct x as [sx|sx| |sx mx ex], y as [sy|sy| |sy my ey]; simpl;
    try (destruct sx; try contradiction); try (destruct sy; try contradiction);
    intros _ _; simpl; try exact I.
  apply not_negative_round.
Qed.

Lemma not_negative_SFmul_self prec emax x : not_negative (SFmul prec emax x x).
Proof.
  destruct x as [sx|sx| |sx mx ex]; simpl; try exact I;
    destruct sx; simpl; try exact I; apply not_negative_round_aux.
Qed.

Lemma not_negative_ltb_zero (x : float) :
  not_negative (Prim2SF x) -> (x <? 0)%float = false.
Proof.
  rewrite FloatAxioms.ltb_spec. unfold SFltb.
  replace (Prim2SF 0) with (S754_zero false) by reflexivity.
  destruct (Prim2SF x) as [sx|sx| |sx mx ex]; simpl; try reflexivity.
  - destruct sx; [contradiction | reflexivity].
  - destruct sx; [contradiction | reflexivity].
Qed.

Lemma not_negative_dot_list_self (v : list float) :
  not_negative (Prim2SF (dot_list v v)).
Proof.
  unfold dot_list.
  assert (G : forall acc, not_negative (Prim2SF acc) ->
    not_negative (Prim2SF (fold_left (fun acc '(a, b) => (acc + a * b)%float)
                                     (zip v v) acc))).
  { induction v as [|a v IH]; intros acc Hacc; simpl; [exact Hacc|].
    apply IH. rewrite FloatAxioms.add_spec, FloatAxioms.mul_spec.
    apply not_negative_SFadd; [exact Hacc | apply not_negative_SFmul_self]. }
  apply G. exact I.
Qed.


(** ** Order of binary64 numbers *)

Lemma SFcompare_antisym (x y : spec_float) :
  SFcompare y x = option_map CompOpp (SFcompare x y).
Proof.
  destruct x as [sx|sx| |sx mx ex], y as [sy|sy| |sy my ey]; simpl;
    try reflexivity;
    try (destruct sx; reflexivity); try (destruct sy; reflexivity);
    try (destruct sx, sy; reflexivity).
  f_equal. change (Pos.compare_cont Eq my mx) with (Pos.compare my mx).
  change (Pos.compare_cont Eq mx my) with (Pos.compare mx my).
  rewrite (Z.compare_antisym ex ey), (Pos.compare_antisym mx my).
  destruct sx, sy; try reflexivity;
    destruct (ex ?= ey); simpl; try reflexivity;
    destruct (mx ?= my)%positive; reflexivity.
Qed.

Lemma SFcompare_refl (x : spec_float) :
  x <> S754_nan -> SFcompare x x = Some Eq.
Proof.
  destruct x as [s|s| |s m e]; simpl; intros H; try congruence.
  - destruct s; reflexivity.
  - rewrite Z.compare_refl.
    change (Pos.compare_cont Eq m m) with (Pos.compare m m).
    rewrite Pos.compare_refl. destruct s; reflexivity.
Qed.

Lemma is_nan_spec (x : float) : is_nan x = true <-> Prim2SF x = S754_nan.
Proof.
  unfold is_nan. rewrite FloatAxioms.eqb_spec. unfold SFeqb. split.
  - intros H. destruct (Prim2SF x) eqn:E; try reflexivity;
      rewrite SFcompare_refl in H by discriminate; discriminate.
  - intros ->. reflexivity.
Qed.

(** A comparison with NaN is false. *)
Lemma ltb_nan_r (x y : float) : is_nan y = true -> (x <? y)%float = false.
Proof.
  intros H. apply is_nan_spec in H. rewrite FloatAxioms.ltb_spec, H. unfold SFltb.
  destruct (Prim2SF x); reflexivity.
Qed.

Lemma ltb_nan_l (x y : float) : is_nan x = true -> (x <? y)%float = false.
Proof.
  intros H. apply is_nan_spec in H. rewrite FloatAxioms.ltb_spec, H. reflexivity.
Qed.

Lemma leb_total (x y : float) :
  is_nan x = false -> is_nan y = false ->
  (x <=? y)%float = false -> (y <=? x)%float = true.
Proof.
  intros Hx Hy. rewrite !FloatAxioms.leb_spec. unfold SFleb. rewrite (SFcompare_antisym (Prim2SF x)).
  assert (Nx : Prim2SF x <> S754_nan).
  { intros E. apply is_nan_spec in E. congruence. }
  assert (Ny : Prim2SF y <> S754_nan).
  { intros E. apply is_nan_spec in E. congruence. }
  destruct (SFcompare (Prim2SF x) (Prim2SF y)) as [[]|] eqn:E; simpl; try congruence.
  destruct (Prim2SF x), (Prim2SF y); simpl in E; congruence.
Qed.

Lemma SFleb_trans (x y z : spec_float) :
  SFleb x y = true -> SFleb y z = true -> SFleb x z = true.
Proof.
  unfold SFleb.
  destruct x as [sx|sx| |sx mx ex], y as [sy|sy| |sy my ey], z as [sz|sz| |sz mz ez];
    simpl; try discriminate; try reflexivity;
    try (destruct sx; try discriminate; try reflexivity);
    try (destruct sy; try discriminate; try reflexivity);
    try (destruct sz; try discriminate; try reflexivity);
    change (Pos.compare_cont Eq) with Pos.compare;
    destruct (Z.compare_spec ex ey), (Z.compare_spec ey ez), (Z.compare_spec ex ez);
    simpl; try discriminate; try reflexivity; try lia; subst;
    destruct (Pos.compare_spec mx my), (Pos.compare_spec my mz),
      (Pos.compare_spec mx mz);
    simpl; try discriminate; try reflexivity; try lia.
Qed.

Lemma leb_trans (x y z : float) :
  (x <=? y)%float = true -> (y <=? z)%float = true -> (x <=? z)%float = true.
Proof. rewrite !FloatAxioms.leb_spec. apply SFleb_trans. Qed.

Lemma leb_refl (x : float) : is_nan x = false -> (x <=? x)%float = true.
Proof.
  intros Hx. rewrite FloatAxioms.leb_spec. unfold SFleb. rewrite SFcompare_refl; [reflexivity|].
  intros E. apply is_nan_spec in E. congruence.
Qed.

(** ** [steepest_descent]: the iteration count *)

(** The loop run from a state that fails the test after exactly [k]
    executions of the body, and not before. *)
Lemma sd_while_exact A x b B tol maxiter : forall (k fuel : nat) s0 h0 s h',
  (k <= fuel)%nat ->
  sd_iterate k A x b B s0 h0 = (Returns s, h') ->
  sd_cond tol maxiter s = false ->
  (forall j : nat, (j < k)%nat ->
     exists sj hj, sd_iterate j A x b B s0 h0 = (Returns sj, hj) /\
                   sd_cond tol maxiter sj = true) ->
  sd_while fuel A x b B tol maxiter s0 h0 = (Returns s, h').
Proof.
  induction k as [|k IH]; intros fuel s0 h0 s h' Hfuel Hk Hc Hlt.
  - simpl in Hk. inversion Hk; subst. destruct fuel; simpl; rewrite Hc; reflexivity.
  - destruct fuel as [|fuel]; [lia|]. simpl.
    destruct (Hlt 0%nat ltac:(lia)) as (s0' & h0' & E0 & C0).
    simpl in E0. inversion E0; subst. rewrite C0.
    simpl in Hk. unfold bind in Hk |- *.
    destruct (sd_body A x b B s0' h0') as [[s1|e|] h1] eqn:Hb; try discriminate.
    apply (IH fuel s1 h1 s h'); [lia | exact Hk | exact Hc |].
    intros j Hj. destruct (Hlt (S j) ltac:(lia)) as (sj & hj & Ej & Cj).
    exists sj, hj. split; [|exact Cj].
    simpl in Ej. unfold bind in Ej. rewrite Hb in Ej. exact Ej.
Qed.

Lemma steepest_descent_exact A x b B tol maxiter (k : nat) h s h' :
  sd_after k A x b B h = (Returns s, h') ->
  sd_cond tol maxiter s = false ->
  (forall j : nat, (j < k)%nat ->
     exists sj hj, sd_after j A x b B h = (Returns sj, hj) /\
                   sd_cond tol maxiter sj = true) ->
  steepest_descent A x b B tol maxiter h = (Returns (Z.of_nat k), h').
Proof.
  intros Hk Hc Hlt. unfold sd_after in Hk.
  apply bind_inv_returns in Hk. destruct Hk as (s0 & h0 & Hinit & Hk).
  pose proof (sd_init_iter _ _ _ _ _ _ Hinit) as Hs0.
  assert (Hlt' : forall j : nat, (j < k)%nat ->
            exists sj hj, sd_iterate j A x b B s0 h0 = (Returns sj, hj) /\
                          sd_cond tol maxiter sj = true).
  { intros j Hj. destruct (Hlt j Hj) as (sj & hj & Ej & Cj).
    exists sj, hj. split; [|exact Cj].
    rewrite (sd_after_unfold _ _ _ _ _ _ _ _ Hinit) in Ej. exact Ej. }
  assert (Hfuel : (k <= Z.to_nat maxiter)%nat).
  { destruct k as [|k]; [lia|].
    destruct (Hlt' k ltac:(lia)) as (sj & hj & Ej & Cj).
    apply sd_iterate_iter in Ej. unfold sd_cond in Cj.
    apply andb_true_iff in Cj. destruct Cj as [_ Cj]. apply Z.ltb_lt in Cj. lia. }
  unfold steepest_descent, steepest_descent_fuel.
  rewrite (bind_returns _ _ _ _ _ Hinit).
  rewrite (bind_returns _ _ _ _ _
             (sd_while_exact A x b B tol maxiter k _ s0 h0 s h' Hfuel Hk Hc Hlt')).
  apply sd_iterate_iter in Hk. unfold ret. f_equal. f_equal. lia.
Qed.

(** X1: [steepest_descent] returns the first [k] at which the loop test
    [error > tolerance and iter < maxiter] fails: if the test holds after
    each of 0, ..., k-1 executions of the body and fails after [k], the call
    returns [k] and leaves the store as these [k] iterations left it. *)
Theorem steepest_descent_returns_first_failing_test (A x b B : loc)
    (tolerance : float) (maxiter : Z) (k : nat) (h : heap) (s : sd_state)
    (h' : heap) :
  sd_after k A x b B h = (Returns s, h') ->
  sd_cond tolerance maxiter s = false ->
  (forall j : nat, (j < k)%nat ->
     exists sj hj, sd_after j A x b B h = (Returns sj, hj) /\
                   sd_cond tolerance maxiter sj = true) ->
  steepest_descent A x b B tolerance maxiter h = (Returns (Z.of_nat k), h') /\
  sd_iter s = Z.of_nat k.
Proof.
  intros Hk Hc Hlt. split.
  - exact (steepest_descent_exact A x b B tolerance maxiter k h s h' Hk Hc Hlt).
  - unfold sd_after in Hk.
    apply bind_inv_returns in Hk. destruct Hk as (s0 & h0 & Hinit & Hk).
    apply sd_iterate_iter in Hk. apply sd_init_iter in Hinit. lia.
Qed.

(** X1, an instance: on the aliased store the test holds after 0, 1, 2 and 3
    iterations (errors 1, 0.5, 0.25, 0.125 against 0.1) and fails after 4. *)
Lemma steepest_descent_returns_first_failing_test_witness :
  fst (steepest_descent 0%nat 1%nat 1%nat 2%nat 0.1 200 h_alias) = Returns 4.
Proof.
  assert (H4 : exists s h', sd_after 4 0%nat 1%nat 1%nat 2%nat h_alias = (Returns s, h')
                            /\ sd_cond 0.1 200 s = false).
  { do 2 eexists. split; vm_compute; reflexivity. }
  destruct H4 as (s & h' & H4 & C4).
  destruct (steepest_descent_returns_first_failing_test 0%nat 1%nat 1%nat 2%nat
              0.1 200 4 h_alias s h' H4 C4) as [E _].
  - intros j Hj.
    destruct j as [|[|[|[|j]]]]; try lia; do 2 eexists; split; vm_compute; reflexivity.
  - rewrite E. reflexivity.
Defined.

(** X2: a NaN ends the loop without an exception.  If the tolerance is NaN,
    or the residual error after [k] iterations is NaN (the test having held
    before), the test [error > tolerance] is false and the call returns
    [k], whatever [maxiter] is: the count returned is below [maxiter]
    although the residual is not below the tolerance. *)
Theorem steepest_descent_stops_at_nan (A x b B : loc) (tolerance : float)
    (maxiter : Z) (k : nat) (h : heap) (s : sd_state) (h' : heap) :
  sd_after k A x b B h = (Returns s, h') ->
  is_nan tolerance = true \/ is_nan (sd_error s) = true ->
  (forall j : nat, (j < k)%nat ->
     exists sj hj, sd_after j A x b B h = (Returns sj, hj) /\
                   sd_cond tolerance maxiter sj = true) ->
  steepest_descent A x b B tolerance maxiter h = (Returns (Z.of_nat k), h') /\
  (sd_error s <=? tolerance)%float = false.
Proof.
  intros Hk Hnan Hlt.
  assert (Hc : sd_cond tolerance maxiter s = false).
  { unfold sd_cond. destruct Hnan as [Hn|Hn].
    - rewrite (ltb_nan_l _ _ Hn). reflexivity.
    - rewrite (ltb_nan_r _ _ Hn). reflexivity. }
  split.
  - exact (steepest_descent_exact A x b B tolerance maxiter k h s h' Hk Hc Hlt).
  - rewrite FloatAxioms.leb_spec. unfold SFleb.
    destruct Hnan as [Hn|Hn]; apply is_nan_spec in Hn; rewrite Hn.
    + destruct (Prim2SF (sd_error s)); reflexivity.
    + reflexivity.
Qed.

(** X2, an instance: with b = (1e200) the squares overflow, the first step
    is inf/inf = NaN, and the call returns 1 with [x] and the error NaN. *)
Lemma steepest_descent_stops_at_nan_witness :
  fst (steepest_descent 0%nat 1%nat 2%nat 3%nat 1e-4 200 h_overflow) = Returns 1 /\
  exists v, snd (steepest_descent 0%nat 1%nat 2%nat 3%nat 1e-4 200 h_overflow)
              !! 1%nat = Some (Vector [v]) /\ is_nan v = true.
Proof.
  assert (H1 : exists s h', sd_after 1 0%nat 1%nat 2%nat 3%nat h_overflow = (Returns s, h')
                            /\ is_nan (sd_error s) = true
                            /\ exists v, h' !! 1%nat = Some (Vector [v]) /\ is_nan v = true).
  { do 2 eexists. split; [vm_compute; reflexivity|]. split; [vm_compute; reflexivity|].
    eexists. split; vm_compute; reflexivity. }
  destruct H1 as (s & h' & H1 & N1 & Hv).
  destruct (steepest_descent_stops_at_nan 0%nat 1%nat 2%nat 3%nat 1e-4 200 1
              h_overflow s h' H1 (or_intror N1)) as [E _].
  - intros j Hj. destruct j as [|j]; [|lia].
    do 2 eexists. split; vm_compute; reflexivity.
  - rewrite E. split; [reflexivity | exact Hv].
Defined.

(** ** [steepest_descent]: edge cases and exceptions *)



Lemma backend_exception_read_vector l : raises_only backend_exception (read_vector l).
Proof.
  intros h e h' H. unfold read_vector in H.
  destruct (h !! l) as [[]|]; inversion H; unfold backend_exception; auto.
Qed.

Lemma backend_exception_read_operator l :
  raises_only backend_exception (read_operator l).
Proof.
  intros h e h' H. unfold read_operator in H.
  destruct (h !! l ≫= operator_of); inversion H; unfold backend_exception; auto.
Qed.

Lemma backend_exception_write_vector l v :
  raises_only backend_exception (write_vector l v).
Proof.
  intros h e h' H. unfold write_vector in H.
  destruct (h !! l) as [[]|]; inversion H; unfold backend_exception; auto.
Qed.

Lemma backend_exception_vec_dot u v : raises_only backend_exception (lift (vec_dot u v)).
Proof.
  intros h e h' H. unfold lift, vec_dot in H.
  destruct (_ =? _)%nat; inversion H; unfold backend_exception; auto.
Qed.

Lemma backend_exception_vec_sub u v : raises_only backend_exception (lift (vec_sub u v)).
Proof.
  intros h e h' H. unfold lift, vec_sub in H.
  destruct (_ =? _)%nat; inversion H; unfold backend_exception; auto.
Qed.

Lemma backend_exception_vec_add u v : raises_only backend_exception (lift (vec_add u v)).
Proof.
  intros h e h' H. unfold lift, vec_add in H.
  destruct (_ =? _)%nat; inversion H; unfold backend_exception; auto.
Qed.

Lemma backend_exception_mul A x : raises_only backend_exception (mul A x).
Proof.
  intros h e h' H. unfold mul in H.
  apply bind_inv_raises in H. destruct H as [H | (f & h1 & Hf & H)].
  { exact (backend_exception_read_operator _ _ _ _ H). }
  apply bind_inv_raises in H. destruct H as [H | (v & h2 & _ & H)].
  { exact (backend_exception_read_vector _ _ _ _ H). }
  apply bind_inv_raises in H. destruct H as [H | (y & h3 & _ & H)]; [|discriminate].
  unfold read_operator in Hf. destruct (h !! A) as [o|]; simpl in Hf; [|discriminate].
  unfold lift in H. destruct o as [u | m | g | |a]; simpl in Hf; inversion Hf; subst.
  - unfold vec_mul in H.
    destruct (_ =? _)%nat; inversion H; unfold backend_exception; auto.
  - unfold mat_vec in H.
    destruct (_ =? _)%nat; inversion H; unfold backend_exception; auto.
  - destruct (g v); inversion H; unfold backend_exception; auto.
  - discriminate.
Qed.

Create HintDb backend discriminated.
#[local] Hint Resolve raises_only_ret raises_only_alloc backend_exception_read_vector
  backend_exception_write_vector
  backend_exception_vec_dot backend_exception_vec_sub backend_exception_vec_add
  backend_exception_mul : backend.


Ltac backend_steps :=
  repeat first [ solve [ auto with backend ]
               | apply raises_only_bind; [ | intros ? ] ].

Lemma backend_exception_sub b y : raises_only backend_exception (sub b y).
Proof. unfold sub. backend_steps. Qed.

Lemma backend_exception_inner u v : raises_only backend_exception (inner u v).
Proof. unfold inner. backend_steps. Qed.

(** [r.inner(r)] is a sum of squares. *)
Lemma inner_self_not_negative r h rr h' :
  inner r r h = (Returns rr, h') -> (rr <? 0)%float = false.
Proof.
  unfold inner, bind, read_vector, lift. destruct (h !! r) as [[v| | | |]|] eqn:Hr;
    try discriminate.
  cbn [fst snd]. rewrite Hr. unfold vec_dot. rewrite Nat.eqb_refl.
  intros H. inversion H; subst.
  apply not_negative_ltb_zero, not_negative_dot_list_self.
Qed.

(** [sqrt(r.inner(r))] raises only what [inner] raises. *)
Lemma backend_exception_norm {A} r (k : float -> M A) :
  (forall error, raises_only backend_exception (k error)) ->
  raises_only backend_exception
    (let* rr := inner r r in let* error := py_sqrt rr in k error).
Proof.
  intros Hk h e h' H.
  apply bind_inv_raises in H. destruct H as [H | (rr & h1 & Hrr & H)].
  { exact (backend_exception_inner _ _ _ _ _ H). }
  apply inner_self_not_negative in Hrr.
  apply bind_inv_raises in H. destruct H as [H | (error & h2 & _ & H)].
  { unfold py_sqrt in H. rewrite Hrr in H. discriminate. }
  exact (Hk _ _ _ _ H).
Qed.

Lemma backend_exception_rmul rho p : raises_only backend_exception (rmul rho p).
Proof. unfold rmul. backend_steps. Qed.

Lemma backend_exception_iadd x y : raises_only backend_exception (iadd x y).
Proof. unfold iadd. backend_steps. Qed.

#[local] Hint Resolve backend_exception_sub backend_exception_inner
  backend_exception_rmul backend_exception_iadd : backend.

Ltac residual_steps :=
  repeat first [ solve [ auto with backend ]
               | apply backend_exception_norm; intros ?
               | apply raises_only_bind; [ | intros ? ] ].

Lemma backend_exception_sd_init A x b : raises_only backend_exception (sd_init A x b).
Proof. unfold sd_init. residual_steps. Qed.

Lemma backend_exception_not_zero_division e :
  backend_exception e -> e <> ZeroDivisionError.
Proof. intros [->|H]; try discriminate. intros ->. discriminate. Qed.

Lemma writes_only_mul_nowhere A x : writes_only nowhere (mul A x).
Proof. unfold mul. frame_steps. Qed.

Lemma writes_only_inner_nowhere u v : writes_only nowhere (inner u v).
Proof. unfold inner. frame_steps. Qed.

(** An iteration that ends in ZeroDivisionError has changed nothing. *)
Lemma sd_body_zero_division A x b B s h h' :
  sd_body A x b B s h = (Raises ZeroDivisionError, h') ->
  forall (l : loc) (o : object), h !! l = Some o -> h' !! l = Some o.
Proof.
  unfold sd_body. intros H l o Hl.
  assert (Keep : forall h1, frame nowhere h h1 -> h1 !! l = Some o).
  { intros h1 [_ F]. destruct (F l o Hl) as [H'|([] & _)]. exact H'. }
  pose proof (writes_only_mul_nowhere B (sd_r s) h) as F1.
  apply bind_inv_raises in H. destruct H as [H | (p & h1 & E1 & H)].
  { apply backend_exception_mul in H.
    apply backend_exception_not_zero_division in H. congruence. }
  rewrite E1 in F1. simpl in F1.
  pose proof (writes_only_mul_nowhere A p h1) as F2.
  apply bind_inv_raises in H. destruct H as [H | (Ap & h2 & E2 & H)].
  { apply backend_exception_mul in H.
    apply backend_exception_not_zero_division in H. congruence. }
  rewrite E2 in F2. simpl in F2.
  pose proof (writes_only_inner_nowhere (sd_r s) p h2) as F3.
  apply bind_inv_raises in H. destruct H as [H | (rp & h3 & E3 & H)].
  { apply backend_exception_inner in H.
    apply backend_exception_not_zero_division in H. congruence. }
  rewrite E3 in F3. simpl in F3.
  pose proof (writes_only_inner_nowhere Ap p h3) as F4.
  apply bind_inv_raises in H. destruct H as [H | (App & h4 & E4 & H)].
  { apply backend_exception_inner in H.
    apply backend_exception_not_zero_division in H. congruence. }
  rewrite E4 in F4. simpl in F4.
  assert (F : frame nowhere h h4).
  { exact (frame_trans _ _ _ _ (frame_trans _ _ _ _ (frame_trans _ _ _ _ F1 F2) F3) F4). }
  apply bind_inv_raises in H. destruct H as [H | (rho & h5 & E5 & H)].
  { unfold py_div in H. destruct (App =? 0)%float; inversion H; subst.
    exact (Keep _ F). }
  exfalso.
  assert (Rest : raises_only backend_exception
            (let* rho_p := rmul rho p in
             let* _ := iadd x rho_p in
             let* Ax := mul A x in
             let* r := sub b Ax in
             let* rr := inner r r in
             let* error := py_sqrt rr in
             ret {| sd_r := r; sd_error := error; sd_iter := sd_iter s + 1 |})).
  { residual_steps. }
  apply Rest in H. apply backend_exception_not_zero_division in H. congruence.
Qed.

(** A run of the loop that raises: some [k] iterations were completed, the
    test held, and the next execution of the body raised. *)
Lemma sd_while_raises fuel A x b B tol maxiter : forall s h e h',
  sd_while fuel A x b B tol maxiter s h = (Raises e, h') ->
  exists (k : nat) sk hk,
    sd_iterate k A x b B s h = (Returns sk, hk) /\
    sd_cond tol maxiter sk = true /\
    sd_body A x b B sk hk = (Raises e, h').
Proof.
  induction fuel as [|fuel IH]; intros s h e h' H; simpl in H;
    destruct (sd_cond tol maxiter s) eqn:C; try discriminate.
  apply bind_inv_raises in H. destruct H as [H | (s1 & h1 & Hb & H)].
  - exists 0%nat, s, h. split; [reflexivity|]. split; [exact C | exact H].
  - destruct (IH _ _ _ _ H) as (k & sk & hk & Hk & Ck & Hr).
    exists (S k), sk, hk. split; [|split; [exact Ck | exact Hr]].
    rewrite (sd_iterate_S _ _ _ _ _ _ _ _ _ Hb). exact Hk.
Qed.



(** ** [steepest_descent]: sizes *)

Lemma keeps_sizes_refl h : keeps_sizes h h.
Proof. intros l n. split; intros H; exact H. Qed.

Lemma keeps_sizes_trans h1 h2 h3 :
  keeps_sizes h1 h2 -> keeps_sizes h2 h3 -> keeps_sizes h1 h3.
Proof.
  intros H12 H23 l n. destruct (H12 l n) as [V12 M12], (H23 l n) as [V23 M23].
  split; intros H; auto.
Qed.

Lemma keeps_sizes_alloc (h : heap) (o : object) : keeps_sizes h (h ++ [o]).
Proof.
  intros l n. split.
  - intros (v & Hv & Hn). exists v. split; [|exact Hn].
    apply lookup_app_l_Some. exact Hv.
  - intros (f & Hf & Hn). exists f. split; [|exact Hn].
    destruct (h !! l) as [o'|] eqn:Hl; [|discriminate].
    rewrite (lookup_app_l_Some _ _ _ _ Hl). exact Hf.
Qed.

Lemma keeps_sizes_write (h : heap) (x : loc) (v w : list float) :
  h !! x = Some (Vector v) -> length w = length v ->
  keeps_sizes h (<[x := Vector w]> h).
Proof.
  intros Hx Hlen l n. destruct (decide (l = x)) as [->|Hne].
  - split.
    + intros (v' & Hv' & Hn). exists w. split.
      * apply list_lookup_insert_eq. apply lookup_lt_Some in Hx. exact Hx.
      * congruence.
    + intros (f & Hf & Hn). rewrite Hx in Hf. inversion Hf; subst f; clear Hf.
      assert (Hv : length v = n).
      { destruct (Hn (replicate n 0%float) (length_replicate _ _)) as (y & Hy & _).
        unfold vec_mul in Hy. rewrite length_replicate in Hy.
        destruct (Nat.eqb_spec (length v) n); [assumption | discriminate]. }
      exists (vec_mul w). split.
      * rewrite list_lookup_insert_eq by (apply lookup_lt_Some in Hx; exact Hx).
        reflexivity.
      * intros v0 Hv0. unfold vec_mul.
        replace (length w =? length v0)%nat with true
          by (symmetry; apply Nat.eqb_eq; lia).
        eexists. split; [reflexivity|]. rewrite length_zip_with. lia.
  - unfold vec_at, op_at. rewrite list_lookup_insert_ne by congruence.
    split; intros H; exact H.
Qed.

Lemma well_sized_kept n A x b B h h' :
  keeps_sizes h h' -> well_sized n A x b B h -> well_sized n A x b B h'.
Proof.
  intros K (HA & HB & Hx & Hb).
  repeat split; [apply (K A n) | apply (K B n) | apply (K x n) | apply (K b n)];
    assumption.
Qed.

Lemma sized_ret {A} (a : A) h (Q : A -> heap -> Prop) :
  Q a h -> sized_step (ret a) h Q.
Proof. intros H. unfold sized_step, ret. split; [apply keeps_sizes_refl | exact H]. Qed.

Lemma sized_bind {A B} (m : M A) (k : A -> M B) h
    (Q : A -> heap -> Prop) (R : B -> heap -> Prop) :
  sized_step m h Q ->
  (forall a h1, keeps_sizes h h1 -> Q a h1 -> sized_step (k a) h1 R) ->
  sized_step (bind m k) h R.
Proof.
  unfold sized_step, bind. intros Hm Hk.
  destruct (m h) as [[a|e|] h1]; try exact Hm.
  destruct Hm as [K1 Ha]. specialize (Hk a h1 K1 Ha).
  destruct (k a h1) as [[c|e|] h2]; try exact Hk.
  - destruct Hk as [K2 Hc]. split; [exact (keeps_sizes_trans _ _ _ K1 K2) | exact Hc].
  - destruct Hk as [He K2]. split; [exact He | exact (keeps_sizes_trans _ _ _ K1 K2)].
Qed.

Lemma mat_at_op_at h l n : mat_at h l n -> op_at h l n.
Proof.
  intros (m & Hm & Hc & Hr). exists (mat_vec m). split; [rewrite Hm; reflexivity|].
  intros v Hv. unfold mat_vec. rewrite Hc, Hv, Nat.eqb_refl.
  eexists. split; [reflexivity|]. rewrite length_map. exact Hr.
Qed.

Lemma sized_mul n A x h :
  op_at h A n -> vec_at h x n ->
  sized_step (mul A x) h (fun y h' => vec_at h' y n).
Proof.
  intros (f & HA & Hf) (v & Hx & Hv).
  unfold sized_step, mul, bind, read_operator, read_vector, lift, alloc.
  rewrite HA. cbn [fst snd]. rewrite Hx.
  destruct (Hf v Hv) as (y & Hy & Hly). rewrite Hy.
  split; [apply keeps_sizes_alloc|].
  eexists. split; [apply lookup_snoc1 | exact Hly].
Qed.

Lemma sized_sub n b y h :
  vec_at h b n -> vec_at h y n ->
  sized_step (sub b y) h (fun r h' => vec_at h' r n).
Proof.
  intros (u & Hb & Hu) (v & Hy & Hv).
  unfold sized_step, sub, bind, read_vector, lift, alloc.
  rewrite Hb, Hy. unfold vec_sub. rewrite Hu, Hv, Nat.eqb_refl.
  split; [apply keeps_sizes_alloc|].
  eexists. split; [apply lookup_snoc1|]. rewrite length_zip_with. lia.
Qed.

Lemma sized_inner n u v h :
  vec_at h u n -> vec_at h v n ->
  sized_step (inner u v) h (fun _ h' => h' = h).
Proof.
  intros (a & Hu & Ha) (c & Hv & Hc).
  unfold sized_step, inner, bind, read_vector, lift.
  rewrite Hu, Hv. unfold vec_dot. rewrite Ha, Hc, Nat.eqb_refl.
  split; [apply keeps_sizes_refl | reflexivity].
Qed.

Lemma sized_inner_self n u h :
  vec_at h u n ->
  sized_step (inner u u) h (fun rr h' => h' = h /\ (rr <? 0)%float = false).
Proof.
  intros (a & Hu & Ha).
  unfold sized_step, inner, bind, read_vector, lift.
  rewrite Hu. cbn [fst snd]. rewrite Hu. unfold vec_dot. rewrite Nat.eqb_refl.
  split; [apply keeps_sizes_refl|]. split; [reflexivity|].
  apply not_negative_ltb_zero, not_negative_dot_list_self.
Qed.

Lemma sized_rmul n rho p h :
  vec_at h p n -> sized_step (rmul rho p) h (fun y h' => vec_at h' y n).
Proof.
  intros (v & Hp & Hv).
  unfold sized_step, rmul, bind, read_vector, alloc. rewrite Hp.
  split; [apply keeps_sizes_alloc|].
  eexists. split; [apply lookup_snoc1|]. unfold vec_scale. rewrite length_map. exact Hv.
Qed.

Lemma sized_iadd n x y h :
  vec_at h x n -> vec_at h y n -> sized_step (iadd x y) h (fun _ _ => True).
Proof.
  intros (u & Hx & Hu) (v & Hy & Hv).
  unfold sized_step, iadd, bind, read_vector, lift, write_vector.
  rewrite Hx, Hy. unfold vec_add. rewrite Hu, Hv, Nat.eqb_refl. rewrite Hx.
  split; [|exact I].
  apply (keeps_sizes_write h x u); [exact Hx|]. rewrite length_zip_with. lia.
Qed.

Lemma sized_py_div a b h : sized_step (py_div a b) h (fun _ h' => h' = h).
Proof.
  unfold sized_step, py_div. destruct (b =? 0)%float; simpl.
  - split; [reflexivity | apply keeps_sizes_refl].
  - split; [apply keeps_sizes_refl | reflexivity].
Qed.

Lemma sized_py_sqrt a h :
  (a <? 0)%float = false -> sized_step (py_sqrt a) h (fun _ h' => h' = h).
Proof.
  intros Ha. unfold sized_step, py_sqrt. rewrite Ha. simpl.
  split; [apply keeps_sizes_refl | reflexivity].
Qed.

(** The residual and its norm, as computed before the loop and at the end
    of each iteration. *)
Lemma sized_residual n A x b h :
  op_at h A n -> vec_at h x n -> vec_at h b n ->
  forall iter,
  sized_step (let* Ax := mul A x in
              let* r := sub b Ax in
              let* rr := inner r r in
              let* error := py_sqrt rr in
              ret {| sd_r := r; sd_error := error; sd_iter := iter |})
             h (fun s h' => vec_at h' (sd_r s) n /\ sd_iter s = iter).
Proof.
  intros HA Hx Hb iter.
  eapply sized_bind; [exact (sized_mul n A x h HA Hx)|].
  intros Ax h1 K1 HAx.
  eapply sized_bind; [exact (sized_sub n b Ax h1 (proj1 (K1 b n) Hb) HAx)|].
  intros r h2 K2 Hr.
  eapply sized_bind; [exact (sized_inner_self n r h2 Hr)|].
  intros rr h3 K3 [-> Hrr].
  eapply sized_bind; [exact (sized_py_sqrt rr h2 Hrr)|].
  intros error h4 K4 ->.
  apply sized_ret. split; [exact Hr | reflexivity].
Qed.

Lemma sized_sd_init n A x b B h :
  well_sized n A x b B h ->
  sized_step (sd_init A x b) h (fun s h' => vec_at h' (sd_r s) n /\ sd_iter s = 0).
Proof.
  intros (HA & _ & Hx & Hb). exact (sized_residual n A x b h HA Hx Hb 0).
Qed.

Lemma sized_sd_body n A x b B s h :
  well_sized n A x b B h -> vec_at h (sd_r s) n ->
  sized_step (sd_body A x b B s) h
    (fun s' h' => vec_at h' (sd_r s') n /\ sd_iter s' = sd_iter s + 1).
Proof.
  intros (HA & HB & Hx & Hb) Hr. unfold sd_body.
  eapply sized_bind; [exact (sized_mul n B (sd_r s) h HB Hr)|].
  intros p h1 K1 Hp.
  eapply sized_bind; [exact (sized_mul n A p h1 (proj2 (K1 A n) HA) Hp)|].
  intros Ap h2 K2 HAp.
  pose proof (keeps_sizes_trans _ _ _ K1 K2) as K02.
  eapply sized_bind;
    [exact (sized_inner n (sd_r s) p h2 (proj1 (K02 _ n) Hr) (proj1 (K2 p n) Hp))|].
  intros rp h3 K3 ->.
  eapply sized_bind; [exact (sized_inner n Ap p h2 HAp (proj1 (K2 p n) Hp))|].
  intros App h4 K4 ->.
  eapply sized_bind; [exact (sized_py_div rp App h2)|].
  intros rho h5 K5 ->.
  eapply sized_bind; [exact (sized_rmul n rho p h2 (proj1 (K2 p n) Hp))|].
  intros rho_p h6 K6 Hrp.
  pose proof (keeps_sizes_trans _ _ _ K02 K6) as K06.
  eapply sized_bind; [exact (sized_iadd n x rho_p h6 (proj1 (K06 x n) Hx) Hrp)|].
  intros [] h7 K7 _.
  pose proof (keeps_sizes_trans _ _ _ K06 K7) as K07.
  exact (sized_residual n A x b h7 (proj2 (K07 A n) HA) (proj1 (K07 x n) Hx)
           (proj1 (K07 b n) Hb) (sd_iter s + 1)).
Qed.

Lemma sized_sd_while n A x b B tol maxiter : forall fuel s h,
  (Z.to_nat (maxiter - sd_iter s) <= fuel)%nat ->
  well_sized n A x b B h -> vec_at h (sd_r s) n ->
  sized_step (sd_while fuel A x b B tol maxiter s) h (fun _ _ => True).
Proof.
  induction fuel as [|fuel IH]; intros s h Hfuel Hw Hr; simpl;
    destruct (sd_cond tol maxiter s) eqn:C; try (apply sized_ret; exact I);
    unfold sd_cond in C; apply andb_true_iff in C; destruct C as [_ C];
    apply Z.ltb_lt in C; [lia|].
  eapply sized_bind; [exact (sized_sd_body n A x b B s h Hw Hr)|].
  intros s1 h1 K1 [Hr1 Hi]. apply IH.
  - rewrite Hi. lia.
  - exact (well_sized_kept _ _ _ _ _ _ _ K1 Hw).
  - exact Hr1.
Qed.

(** X5: on a store where [A] and [B] are n-by-n matrices, or operators that
    take vectors of length n to vectors of length n, and [x] and [b] are
    vectors of length n, [steepest_descent] returns or raises
    ZeroDivisionError: no operation of the backend fails, and [sqrt] is
    never applied to a negative number.  The four objects have the same
    sizes afterwards. *)
Theorem steepest_descent_on_matching_sizes (n : nat) (A x b B : loc)
    (tolerance : float) (maxiter : Z) (h : heap) :
  well_sized n A x b B h ->
  exists h' : heap,
    ((exists iter : Z,
        steepest_descent A x b B tolerance maxiter h = (Returns iter, h')) \/
     steepest_descent A x b B tolerance maxiter h = (Raises ZeroDivisionError, h')) /\
    well_sized n A x b B h'.
Proof.
  intros Hw.
  assert (S : sized_step (steepest_descent A x b B tolerance maxiter) h
                (fun _ _ => True)).
  { unfold steepest_descent, steepest_descent_fuel.
    eapply sized_bind; [exact (sized_sd_init n A x b B h Hw)|].
    intros s0 h0 K0 [Hr0 Hi0].
    eapply sized_bind.
    - apply (sized_sd_while n A x b B tolerance maxiter (Z.to_nat maxiter) s0 h0).
      + rewrite Hi0. lia.
      + exact (well_sized_kept _ _ _ _ _ _ _ K0 Hw).
      + exact Hr0.
    - intros s1 h1 _ _. apply sized_ret. exact I. }
  unfold sized_step in S.
  destruct (steepest_descent A x b B tolerance maxiter h) as [[iter|e|] h'];
    [| |contradiction]; exists h'.
  - destruct S as [K _]. split; [left; exists iter; reflexivity|].
    exact (well_sized_kept _ _ _ _ _ _ _ K Hw).
  - destruct S as [-> K]. split; [right; reflexivity|].
    exact (well_sized_kept _ _ _ _ _ _ _ K Hw).
Qed.

Lemma steepest_descent_on_matching_sizes_witness :
  well_sized 2 0%nat 1%nat 2%nat 3%nat h_spd /\
  exists h' : heap,
    ((exists iter : Z,
        steepest_descent 0%nat 1%nat 2%nat 3%nat 1e-8 200 h_spd = (Returns iter, h')) \/
     steepest_descent 0%nat 1%nat 2%nat 3%nat 1e-8 200 h_spd
       = (Raises ZeroDivisionError, h')) /\
    well_sized 2 0%nat 1%nat 2%nat 3%nat h'.
Proof.
  assert (Hw : well_sized 2 0%nat 1%nat 2%nat 3%nat h_spd).
  { repeat split; try apply mat_at_op_at; eexists; (split; [reflexivity|]);
      repeat split. }
  split; [exact Hw|].
  exact (steepest_descent_on_matching_sizes 2 0%nat 1%nat 2%nat 3%nat 1e-8 200 h_spd Hw).
Defined.

(** ** [steepest_descent]: the exceptions it can end in *)

Lemma raises_only_weaken (P Q : exn -> Prop) {A} (m : M A) :
  (forall e, P e -> Q e) -> raises_only P m -> raises_only Q m.
Proof. intros HPQ Hm h e h' H. exact (HPQ _ (Hm _ _ _ H)). Qed.

Lemma division_or_backend_py_div a b :
  raises_only (fun e => e = ZeroDivisionError \/ backend_exception e) (py_div a b).
Proof.
  intros h e h' H. unfold py_div in H.
  destruct (b =? 0)%float; inversion H. left. reflexivity.
Qed.

Ltac division_steps :=
  repeat first
    [ apply division_or_backend_py_div
    | apply (raises_only_weaken backend_exception);
        [ intros ? ?; right; assumption | solve [ residual_steps ] ]
    | apply raises_only_bind; [ | intros ? ] ].

Lemma division_or_backend_sd_body A x b B s :
  raises_only (fun e => e = ZeroDivisionError \/ backend_exception e)
    (sd_body A x b B s).
Proof. unfold sd_body. division_steps. Qed.

Lemma division_or_backend_sd_while fuel A x b B tol maxiter : forall s,
  raises_only (fun e => e = ZeroDivisionError \/ backend_exception e)
    (sd_while fuel A x b B tol maxiter s).
Proof.
  induction fuel as [|fuel IH]; intros s; simpl;
    destruct (sd_cond tol maxiter s); try apply raises_only_ret.
  - intros h e h' H. discriminate.
  - apply raises_only_bind; [apply division_or_backend_sd_body | exact IH].
Qed.

(** X6: whatever the store holds, [steepest_descent] never ends in the
    ValueError of [sqrt]: the argument [r.inner(r)] is a sum of squares,
    which in binary64 is a non-negative number, an infinity or NaN.  An
    exception is the ZeroDivisionError of the step length or comes from the
    backend. *)
Theorem steepest_descent_sqrt_never_raises (A x b B : loc) (tolerance : float)
    (maxiter : Z) (h : heap) :
  match steepest_descent A x b B tolerance maxiter h with
  | (Raises e, _) =>
      e = ZeroDivisionError \/ e = TypeError \/ raised_by_library e = true
  | _ => True
  end.
Proof.
  destruct (steepest_descent A x b B tolerance maxiter h) as [[iter|e|] h'] eqn:H;
    try exact I.
  revert H. unfold steepest_descent, steepest_descent_fuel.
  apply (raises_only_bind (fun e => e = ZeroDivisionError \/ backend_exception e)).
  - apply (raises_only_weaken backend_exception);
      [intros ? ?; right; assumption | apply backend_exception_sd_init].
  - intros s0. apply raises_only_bind.
    + apply division_or_backend_sd_while.
    + intros s1. apply raises_only_ret.
Qed.

(** ** [InvDiag] on any matrix, and its use as a preconditioner *)

Lemma getDiagonal_lookup (m : aij) (i : nat) :
  getDiagonal m !! i = (fun row => row_entry row i) <$> rows m !! i.
Proof. unfold getDiagonal. apply list_lookup_imap. Qed.

Lemma length_getDiagonal (m : aij) : length (getDiagonal m) = length (rows m).
Proof. unfold getDiagonal. apply length_imap. Qed.

Lemma length_reciprocal (d : list float) : length (reciprocal d) = length d.
Proof. unfold reciprocal. apply length_map. Qed.

Lemma reciprocal_lookup (d : list float) (i : nat) :
  reciprocal d !! i
  = (fun a => if (a =? 0)%float then a else (1 / a)%float) <$> d !! i.
Proof. unfold reciprocal. apply list_lookup_fmap. Qed.

(** X7: [InvDiag] returns on every matrix, also one with zeros on its
    diagonal: [reciprocal] leaves a zero as it is, so nothing is divided by
    zero and no infinity is stored.  The result is the diagonal matrix, of
    the size of the number of rows of [A], whose entry (i, i) is [1/a_ii],
    or [a_ii] itself when that is zero; the objects of the store are
    unchanged. *)
Theorem InvDiag_on_any_matrix (A : loc) (m : aij) (h : heap) :
  h !! A = Some (Matrix m) ->
  exists (D : aij) (h' : heap),
    InvDiag A h = (Returns (S (length h)), h') /\
    h' !! S (length h) = Some (Matrix D) /\
    ncols D = length (rows m) /\
    length (rows D) = length (rows m) /\
    (forall i j : nat,
       get_entry D i j =
       if (i =? j)%nat && (i <? length (rows m))%nat
       then if (get_entry m i i =? 0)%float then get_entry m i i
            else (1 / get_entry m i i)%float
       else 0%float) /\
    (forall (l : loc) (o : object), h !! l = Some o -> h' !! l = Some o).
Proof.
  intros HA. eexists. eexists. split; [exact (InvDiag_run A m h HA)|].
  split; [apply lookup_snoc2_snd|].
  split; [simpl; rewrite length_reciprocal; apply length_getDiagonal|].
  split; [simpl; rewrite length_imap, length_reciprocal; apply length_getDiagonal|].
  split.
  - intros i j. rewrite get_entry_diag_aij, reciprocal_lookup, getDiagonal_lookup.
    unfold get_entry.
    destruct (rows m !! i) as [row|] eqn:Hi; simpl.
    + apply lookup_lt_Some in Hi.
      destruct (Nat.ltb_spec i (length (rows m))); [|lia].
      rewrite andb_true_r. reflexivity.
    + apply lookup_ge_None in Hi.
      destruct (Nat.ltb_spec i (length (rows m))); [lia|].
      rewrite andb_false_r. reflexivity.
  - intros l o Hl. apply lookup_app_l_Some. exact Hl.
Qed.

(** X7, an instance: the matrix diag(0, 4). *)
Lemma InvDiag_on_any_matrix_witness :
  exists (D : aij) (h' : heap),
    InvDiag 0%nat [Matrix (diag2 0 4)] = (Returns 2%nat, h') /\
    get_entry D 0 0 = 0%float /\ get_entry D 1 1 = 0.25%float.
Proof.
  destruct (InvDiag_on_any_matrix 0%nat (diag2 0 4) [Matrix (diag2 0 4)] eq_refl)
    as (D & h' & Hrun & _ & _ & _ & HD & _).
  exists D, h'. split; [exact Hrun|].
  split; rewrite HD; vm_compute; reflexivity.
Defined.

(** A diagonal matrix times a vector of its size. *)
Lemma mat_vec_diag_aij (d v : list float) :
  length d = length v ->
  mat_vec (diag_aij d) v = Ok (zip_with (fun a x => (0 + a * x)%float) d v).
Proof.
  intros Hlen. unfold mat_vec. change (ncols (diag_aij d)) with (length d).
  rewrite Hlen, Nat.eqb_refl. f_equal. apply list_eq. intros i.
  rewrite list_lookup_fmap, rows_diag_aij_lookup, lookup_zip_with.
  destruct (d !! i) as [a|] eqn:Ea; cbn -[nth]; [|reflexivity].
  destruct (v !! i) as [x|] eqn:Ex; cbn -[nth].
  - rewrite (nth_lookup_Some _ _ _ _ Ex). reflexivity.
  - apply lookup_lt_Some in Ea. apply lookup_ge_None in Ex. lia.
Qed.

(** X8: the Jacobi preconditioner at work, [InvDiag(A)*r]: for a residual of
    as many entries as [A] has rows the product is a new vector with the
    entries [0 + d_i * r_i], where [d_i] is the reciprocal of the diagonal
    entry (or the entry itself when it is zero); for a residual of another
    length the product fails in the backend, after [InvDiag] has built its
    matrix. *)
Theorem InvDiag_times_vector (A r : loc) (m : aij) (v : list float) (h : heap) :
  h !! A = Some (Matrix m) ->
  h !! r = Some (Vector v) ->
  let d := reciprocal (getDiagonal m) in
  let h1 := h ++ [Vector d; Matrix (diag_aij d)] in
  (let* B := InvDiag A in mul B r) h =
  if (length (rows m) =? length v)%nat
  then (Returns (S (S (length h))),
        h1 ++ [Vector (zip_with (fun a x => (0 + a * x)%float) d v)])
  else (Raises (LibraryError "PETSc: incompatible matrix and vector sizes"), h1).
Proof.
  intros HA Hr d h1.
  rewrite (bind_returns _ _ _ _ _ (InvDiag_run A m h HA)). fold d. fold h1.
  assert (HB : h1 !! S (length h) = Some (Matrix (diag_aij d)))
    by apply lookup_snoc2_snd.
  assert (Hr1 : h1 !! r = Some (Vector v)) by (apply lookup_app_l_Some; exact Hr).
  assert (Hd : length d = length (rows m)).
  { unfold d. rewrite length_reciprocal. apply length_getDiagonal. }
  unfold mul, bind, read_operator, read_vector, lift, alloc.
  rewrite HB. simpl. rewrite Hr1.
  destruct (Nat.eqb_spec (length (rows m)) (length v)) as [E|E].
  - rewrite mat_vec_diag_aij by congruence.
    f_equal. unfold h1. rewrite length_app. simpl. f_equal. lia.
  - unfold mat_vec. change (ncols (diag_aij d)) with (length d). rewrite Hd.
    destruct (Nat.eqb_spec (length (rows m)) (length v)); [contradiction|].
    reflexivity.
Qed.

(** X8, an instance: diag(1, 11) and the residual (3, 1) of [h_spd]. *)
Lemma InvDiag_times_vector_witness :
  exists h' : heap,
    (let* B := InvDiag 0%nat in mul B 2%nat) h_spd = (Returns 6%nat, h') /\
    h' !! 6%nat = Some (Vector [3%float; (0 + 1 / 11 * 1)%float]).
Proof.
  eexists.
  rewrite (InvDiag_times_vector 0%nat 2%nat (diag2 1 11) [3%float; 1%float] h_spd
             eq_refl eq_refl).
  split; vm_compute; reflexivity.
Defined.

(** ** [stiffness_cond]: the value returned *)

Lemma insert_sorted_perm (a : float) (l : list float) :
  Permutation (insert_sorted a l) (a :: l).
Proof.
  induction l as [|b l IH]; simpl; [reflexivity|].
  destruct (a <=? b)%float; [reflexivity|].
  rewrite IH. apply perm_swap.
Qed.

Lemma np_sort_perm (l : list float) : Permutation (np_sort l) l.
Proof.
  induction l as [|a l IH]; simpl; [reflexivity|].
  rewrite insert_sorted_perm, IH. reflexivity.
Qed.

Lemma no_nan_elem_of (l : list float) (a : float) :
  no_nan l = true -> a ∈ l -> is_nan a = false.
Proof.
  unfold no_nan. rewrite forallb_forall. intros H Ha.
  apply list_elem_of_In in Ha. apply H in Ha. apply negb_true_iff. exact Ha.
Qed.

Lemma no_nan_cons (a : float) (l : list float) :
  no_nan (a :: l) = true <-> is_nan a = false /\ no_nan l = true.
Proof.
  unfold no_nan. simpl. rewrite andb_true_iff, negb_true_iff. reflexivity.
Qed.

Lemma no_nan_perm (l l' : list float) :
  Permutation l l' -> no_nan l = true -> no_nan l' = true.
Proof.
  unfold no_nan. rewrite !forallb_forall. intros P H a Ha. apply H.
  apply (Permutation_in a (Permutation_sym P)). exact Ha.
Qed.

Lemma insert_sorted_ascending (a : float) (l : list float) :
  is_nan a = false -> no_nan l = true -> ascending l ->
  ascending (insert_sorted a l).
Proof.
  intros Ha. induction l as [|b l IH]; intros Hl Hs; simpl.
  - split; [constructor | exact I].
  - apply no_nan_cons in Hl. destruct Hl as [Hb Hl].
    destruct Hs as [Hall Hs'].
    destruct (a <=? b)%float eqn:E.
    + split; [|split; assumption]. constructor; [exact E|].
      eapply Forall_impl; [exact Hall|]. intros c Hc. simpl in Hc.
      exact (leb_trans _ _ _ E Hc).
    + split; [|exact (IH Hl Hs')].
      apply (Permutation_Forall (Permutation_sym (insert_sorted_perm a l))).
      constructor; [exact (leb_total _ _ Ha Hb E) | exact Hall].
Qed.

Lemma np_sort_ascending (l : list float) : no_nan l = true -> ascending (np_sort l).
Proof.
  induction l as [|a l IH]; intros Hl; simpl; [exact I|].
  apply no_nan_cons in Hl. destruct Hl as [Ha Hl].
  apply insert_sorted_ascending; [exact Ha | | exact (IH Hl)].
  exact (no_nan_perm _ _ (Permutation_sym (np_sort_perm l)) Hl).
Qed.

Lemma ascending_first (a : float) (l : list float) :
  is_nan a = false -> ascending (a :: l) ->
  forall e, e ∈ a :: l -> (a <=? e)%float = true.
Proof.
  intros Ha [Hall _] e He.
  apply elem_of_cons in He. destruct He as [->|He]; [exact (leb_refl _ Ha)|].
  rewrite Forall_forall in Hall. apply Hall. exact He.
Qed.

Lemma ascending_last (l : list float) (z : float) :
  no_nan l = true -> ascending l -> last l = Some z ->
  forall e, e ∈ l -> (e <=? z)%float = true.
Proof.
  induction l as [|a l IH]; intros Hl Hs Hz e He; [inversion He|].
  apply no_nan_cons in Hl. destruct Hl as [Ha Hl].
  destruct Hs as [Hall Hs'].
  destruct l as [|b l].
  - simpl in Hz. inversion Hz; subst.
    apply list_elem_of_singleton in He. subst. exact (leb_refl _ Ha).
  - assert (Hz' : last (b :: l) = Some z) by exact Hz.
    apply elem_of_cons in He. destruct He as [->|He].
    + rewrite Forall_forall in Hall. apply Hall.
      apply last_Some_elem_of. exact Hz'.
    + exact (IH Hl Hs' Hz' e He).
Qed.

Section StiffnessCondValue.
Variable hmin : loc -> M float.
Variable assemble_stiffness : loc -> M ndarray.
Variable eigvalsh : ndarray -> M (list float).

(** X9: on a mesh below the size limit and with the library calls
    returning, [stiffness_cond] returns the mesh size together with the
    quotient [lmax/lmin] of the largest and the smallest eigenvalue that
    [eigvalsh] gave, whatever their order (none of them being NaN); the
    division never raises, also for [lmin = 0].  For an empty spectrum the
    indexing [[0, -1]] raises IndexError. *)
Theorem stiffness_cond_returns_extreme_ratio (dim n : Z) (h h3 h4 h5 : heap)
    (hv : float) (A : ndarray) (eigs : list float) :
  dim = 1 \/ dim = 2 \/ dim = 3 -> 1 <= n -> (n + 1) ^ dim < 5000 ->
  let cells := replicate (Z.to_nat dim) n in
  let mesh := S (length h) in
  hmin mesh ((h ++ [Mesh cells]) ++ [Mesh cells]) = (Returns hv, h3) ->
  assemble_stiffness mesh h3 = (Returns A, h4) ->
  eigvalsh A h4 = (Returns eigs, h5) ->
  no_nan eigs = true ->
  match eigs with
  | [] =>
      stiffness_cond hmin assemble_stiffness eigvalsh dim n h
      = (Raises IndexError, h5)
  | _ :: _ =>
      exists lmin lmax : float,
        stiffness_cond hmin assemble_stiffness eigvalsh dim n h
        = (Returns (hv, (lmax / lmin)%float), h5) /\
        lmin ∈ eigs /\ lmax ∈ eigs /\
        forall e : float, e ∈ eigs ->
          (lmin <=? e)%float = true /\ (e <=? lmax)%float = true
  end.
Proof.
  intros Hdim Hn Hsmall cells mesh Hh HA He Hnan.
  unfold stiffness_cond. rewrite (stiffness_cond_prefix dim n h _ Hdim Hn).
  destruct (Z.ltb_spec ((n + 1) ^ dim) 5000); [|lia].
  fold cells. fold mesh.
  rewrite (bind_returns _ _ _ _ _ Hh), (bind_returns _ _ _ _ _ HA),
    (bind_returns _ _ _ _ _ He).
  destruct eigs as [|e0 eigs']; [reflexivity|].
  pose proof (np_sort_perm (e0 :: eigs')) as P.
  pose proof (np_sort_ascending _ Hnan) as Hs.
  pose proof (no_nan_perm _ _ (Permutation_sym P) Hnan) as Hnan'.
  destruct (np_sort (e0 :: eigs')) as [|a l] eqn:Esort.
  { apply Permutation_length in P. discriminate. }
  destruct (last (a :: l)) as [z|] eqn:Ez;
    [|apply last_None in Ez; discriminate].
  exists a, z. split; [|split; [|split]].
  - unfold bind, first_and_last. rewrite Ez. reflexivity.
  - rewrite <- P. apply list_elem_of_here.
  - rewrite <- P. apply last_Some_elem_of. exact Ez.
  - intros e Hin. rewrite <- P in Hin. split.
    + apply (ascending_first a l); [|exact Hs|exact Hin].
      apply (no_nan_elem_of (a :: l)); [exact Hnan' | apply list_elem_of_here].
    + exact (ascending_last (a :: l) z Hnan' Hs Ez e Hin).
Qed.
End StiffnessCondValue.

(** X9, an instance: eigenvalues given in the order 3, 1, 2. *)
Lemma stiffness_cond_returns_extreme_ratio_witness :
  exists (lmin lmax : float) (h' : heap),
    stiffness_cond (fun _ => ret 0.5%float) (fun _ => ret [])
      (fun _ => ret [3%float; 1%float; 2%float]) 1 1 []
    = (Returns (0.5%float, (lmax / lmin)%float), h') /\
    (lmin <=? 1)%float = true /\ (3 <=? lmax)%float = true.
Proof.
  destruct (stiffness_cond_returns_extreme_ratio
              (fun _ => ret 0.5%float) (fun _ => ret [])
              (fun _ => ret [3%float; 1%float; 2%float])
              1 1 [] [Mesh [1]; Mesh [1]] [Mesh [1]; Mesh [1]] [Mesh [1]; Mesh [1]]
              0.5%float [] [3%float; 1%float; 2%float]
              ltac:(left; reflexivity) ltac:(lia) ltac:(reflexivity)
              eq_refl eq_refl eq_refl eq_refl)
    as (lmin & lmax & Hrun & _ & _ & Hall).
  exists lmin, lmax, [Mesh [1]; Mesh [1]]. split; [exact Hrun|]. split.
  - apply (Hall 1%float). apply list_elem_of_further, list_elem_of_here.
  - apply (Hall 3%float). apply list_elem_of_here.
Defined.

(** ** [expr_body] and [as_expression] *)

Section ExprBodyResult.
Variable sympy : Type.
Variable free_symbols : sympy -> gset string.
Variable ccode : sympy -> M string.
Variable Expression : body -> Z -> gmap string float -> M loc.

Let body_of := expr_body sympy free_symbols ccode.

(** The list comprehension of line 64. *)
Let each (kwargs : gmap string float) :=
  fix each (l : list (pyexpr sympy)) : M (list body) :=
    match l with
    | [] => ret []
    | e :: l' =>
        let* b := body_of kwargs e in
        let* bs := each l' in
        ret (b :: bs)
    end.

Lemma expr_body_kwargs (kw1 kw2 : gmap string float) : forall expr h,
  body_of kw1 expr h = body_of kw2 expr h.
Proof.
  intros expr. induction expr as [s|es IH] using pyexpr_nested_ind; intros h.
  - reflexivity.
  - assert (E : forall h, each kw1 es h = each kw2 es h).
    { clear h. induction IH as [|y es Hy _ IHes]; intros h; [reflexivity|].
      change (bind (body_of kw1 y)
                (fun b => bind (each kw1 es) (fun bs => ret (b :: bs))) h
              = bind (body_of kw2 y)
                  (fun b => bind (each kw2 es) (fun bs => ret (b :: bs))) h).
      unfold bind. rewrite Hy.
      destruct (body_of kw2 y h) as [[b|e|] h1]; try reflexivity.
      rewrite IHes. reflexivity. }
    change (bind (each kw1 es) (fun bs => ret (Bodies bs)) h
            = bind (each kw2 es) (fun bs => ret (Bodies bs)) h).
    unfold bind. rewrite E. reflexivity.
Qed.

(** X10: the keyword arguments have no effect on what [expr_body] returns
    or raises: the defaults it computes go into its own copy of the dict.
    So [as_expression], which calls it without them, does what it would do
    if it passed them on. *)
Theorem expr_body_ignores_kwargs (expr : pyexpr sympy) (degree : Z)
    (kwargs kwargs' : gmap string float) (h : heap) :
  expr_body sympy free_symbols ccode kwargs expr h
  = expr_body sympy free_symbols ccode kwargs' expr h /\
  as_expression sympy free_symbols ccode Expression expr degree kwargs h
  = (let* b := expr_body sympy free_symbols ccode kwargs expr in
     Expression b degree kwargs) h.
Proof.
  split; [exact (expr_body_kwargs kwargs kwargs' expr h)|].
  unfold as_expression, bind.
  rewrite (expr_body_kwargs ∅ kwargs expr h). reflexivity.
Qed.

(** X11: with a [ccode] that returns, [expr_body] returns and the result has
    the nesting of the argument: a string for an expression, a list of
    results of the same length for an iterable, each string being the
    output of [ccode] with M_PI replaced by pi.  The store is untouched. *)
Theorem expr_body_keeps_shape (c : sympy -> string)
    (kwargs : gmap string float) (expr : pyexpr sympy) (h : heap) :
  (forall e h, ccode e h = (Returns (c e), h)) ->
  expr_body sympy free_symbols ccode kwargs expr h
  = (Returns (body_map (fun e => str_replace "M_PI" "pi" (c e)) expr), h).
Proof.
  intros Hc. revert h.
  induction expr as [s|es IH] using pyexpr_nested_ind; intros h.
  - simpl. rewrite expr_body_assert_holds. unfold py_assert.
    rewrite (bind_returns _ _ h tt h eq_refl).
    rewrite (bind_returns _ _ _ _ _ (Hc s h)). reflexivity.
  - assert (E : each kwargs es h
                = (Returns (List.map (body_map (fun e => str_replace "M_PI" "pi" (c e)))
                                     es), h)).
    { induction IH as [|y es Hy _ IHes]; [reflexivity|].
      change (bind (body_of kwargs y)
                (fun b => bind (each kwargs es) (fun bs => ret (b :: bs))) h
              = (Returns (List.map (body_map (fun e => str_replace "M_PI" "pi" (c e)))
                                   (y :: es)), h)).
      unfold body_of. rewrite (bind_returns _ _ _ _ _ (Hy h)).
      rewrite (bind_returns _ _ _ _ _ IHes). reflexivity. }
    change (bind (each kwargs es) (fun bs => ret (Bodies bs)) h
            = (Returns (body_map (fun e => str_replace "M_PI" "pi" (c e))
                                 (Iterable sympy es)), h)).
    rewrite (bind_returns _ _ _ _ _ E). reflexivity.
Qed.
End ExprBodyResult.

(** X11, an instance: expressions given by their C code, a vector of two
    entries one of which is again a vector. *)
Lemma expr_body_keeps_shape_witness :
  expr_body string (fun _ => ∅) (fun s => ret s) ∅
    (Iterable string [Scalar string "2*M_PI*x[0]";
                      Iterable string [Scalar string "M_PI"]]) []
  = (Returns (Bodies [Code "2*pi*x[0]"; Bodies [Code "pi"]]), []).
Proof.
  rewrite (expr_body_keeps_shape string (fun _ => ∅) (fun s => ret s) (fun s => s)
             ∅ _ [] (fun e h => eq_refl)).
  vm_compute. reflexivity.
Defined.

(** ** [str.replace] as used by [expr_body] *)

(** What follows a possible start of M_PI in the output was there in the
    input: the inserted [pi] shares no character with it. *)
Lemma prefix_replace_from : forall (s q : string),
  q = "_PI"%string \/ q = "PI"%string \/ q = "I"%string \/ q = EmptyString ->
  String.prefix q (replace_from "M_PI" "pi" O s) = true -> String.prefix q s = true.
Proof.
  induction s as [|c s' IH]; intros q Hq H; [exact H|].
  cbn [replace_from] in H.
  destruct (String.prefix "M_PI" (String c s')).
  { change (String.prefix q (String "p" (String "i"
              (replace_from "M_PI" "pi" 3 s'))) = true) in H.
    destruct Hq as [-> | [-> | [-> | ->]]]; try reflexivity;
      cbn [String.prefix] in H;
      match type of H with
      | (if ?d then _ else _) = true => destruct d; discriminate
      end. }
  destruct Hq as [-> | [-> | [-> | ->]]]; try reflexivity;
    cbn [String.prefix] in H |- *;
    match goal with |- (if ?d then _ else _) = true => destruct d end;
    try discriminate.
  - apply (IH "PI"%string); [right; left; reflexivity | exact H].
  - apply (IH "I"%string); [right; right; left; reflexivity | exact H].
  - destruct s'; reflexivity.
Qed.

Lemma occurs_replace_from : forall (s : string) (skip : nat),
  occurs "M_PI" (replace_from "M_PI" "pi" skip s) = false.
Proof.
  induction s as [|c s' IH]; intros skip; [destruct skip; reflexivity|].
  destruct skip as [|k]; [|exact (IH k)].
  cbn [replace_from].
  destruct (String.prefix "M_PI" (String c s')) eqn:E.
  - change (occurs "M_PI" (String "p" (String "i"
              (replace_from "M_PI" "pi" 3 s'))) = false).
    cbn [occurs]. rewrite IH. reflexivity.
  - cbn [occurs]. rewrite IH, orb_false_r.
    destruct (String.prefix "M_PI" (String c (replace_from "M_PI" "pi" 0 s')))
      eqn:F; [|reflexivity].
    exfalso. cbn [String.prefix] in E, F.
    destruct (ascii_dec "M" c); [|discriminate].
    apply (prefix_replace_from s' "_PI"%string) in F; [|left; reflexivity].
    rewrite F in E. discriminate.
Qed.

Lemma replace_from_absent (old new : string) : forall s : string,
  occurs old s = false -> replace_from old new O s = s.
Proof.
  induction s as [|c s' IH]; intros H; [reflexivity|].
  cbn [occurs] in H. apply orb_false_iff in H. destruct H as [Hp Ho].
  cbn [replace_from]. rewrite Hp, (IH Ho). reflexivity.
Qed.

(** X12: line 57, [ccode(expr).replace('M_PI', 'pi')]: the string returned
    contains no M_PI, wherever and however often the input had it, also
    in overlapping positions; an input without M_PI is returned as it is. *)
Theorem str_replace_M_PI (s : string) :
  occurs "M_PI" (str_replace "M_PI" "pi" s) = false /\
  (occurs "M_PI" s = false -> str_replace "M_PI" "pi" s = s).
Proof.
  split; [apply occurs_replace_from | apply replace_from_absent].
Qed.

(** ** The Makefile: [clean] and [view] *)

(** X13: [make clean] runs [latexmk -C] whatever files exist, also a file
    named clean, since [clean] is declared phony.  [view] is not: [make
    view] runs its two recipe lines when there is no file named view, and
    nothing when there is one. *)
Theorem make_clean_and_view (fs : gmap string nat) :
  make_goal makefile fs "clean" = Some ["latexmk -C"%string] /\
  make_goal makefile fs "view"
  = Some (match fs !! "view"%string with
          | None => ["evince precond.pdf &"; "# evince coupled.pdf &"]%string
          | Some _ => []
          end).
Proof.
  assert (E : forall mtime : string -> option nat,
    fst <$> remake (S (length makefile)) makefile mtime "clean"
    = Some ["latexmk -C"%string] /\
    fst <$> remake (S (length makefile)) makefile mtime "view"
    = Some (match mtime "view"%string with
            | None => ["evince precond.pdf &"; "# evince coupled.pdf &"]%string
            | Some _ => []
            end)).
  { intros mtime. split; [vm_compute; reflexivity|].
    vm_compute. destruct (mtime _); reflexivity. }
  exact (E (fun t => fs !! t)).
Qed.

(** ** [steepest_descent]: the residual that is tested *)

Lemma residual_block A x b iter h s h' :
  (let* Ax := mul A x in
   let* r := sub b Ax in
   let* rr := inner r r in
   let* error := py_sqrt rr in
   ret {| sd_r := r; sd_error := error; sd_iter := iter |}) h = (Returns s, h') ->
  residual_of A x b s h' /\ sd_iter s = iter.
Proof.
  intros H.
  apply bind_inv_returns in H. destruct H as (Ax & h1 & Hmul & H).
  apply bind_inv_returns in H. destruct H as (r & h2 & Hsub & H).
  apply bind_inv_returns in H. destruct H as (rr & h3 & Hin & H).
  apply bind_inv_returns in H. destruct H as (error & h4 & Hsq & H).
  inversion H; subst; clear H.
  unfold mul, bind, read_operator, read_vector, lift, alloc in Hmul.
  destruct (h !! A ≫= operator_of) as [f|] eqn:HA; [|discriminate].
  cbn [fst snd] in Hmul.
  destruct (h !! x) as [[vx| | | |]|] eqn:Hx; try discriminate.
  destruct (f vx) as [y|e] eqn:Hf; [|discriminate].
  inversion Hmul; subst; clear Hmul.
  unfold sub, bind, read_vector, lift, alloc in Hsub.
  destruct ((h ++ [Vector y]) !! b) as [[vb| | | |]|] eqn:Hb; try discriminate.
  cbn [fst snd] in Hsub. rewrite lookup_snoc1 in Hsub.
  unfold vec_sub in Hsub.
  destruct (Nat.eqb_spec (length vb) (length y)) as [Hlen|]; [|discriminate].
  inversion Hsub; subst; clear Hsub.
  set (rv := zip_with (fun a c => (a - c)%float) vb y) in *.
  unfold inner, bind, read_vector, lift in Hin.
  rewrite lookup_snoc1 in Hin. cbn [fst snd] in Hin. rewrite lookup_snoc1 in Hin.
  unfold vec_dot in Hin. rewrite Nat.eqb_refl in Hin.
  inversion Hin; subst; clear Hin.
  unfold py_sqrt in Hsq. destruct (dot_list rv rv <? 0)%float; [discriminate|].
  inversion Hsq; subst; clear Hsq.
  split; [|reflexivity].
  exists f, vx, vb, y. split; [|split; [|split; [|split; [|split; [|split]]]]].
  - destruct (h !! A) as [o|] eqn:HA'; [|discriminate].
    rewrite (lookup_app_l_Some _ _ _ _ (lookup_app_l_Some _ _ _ _ HA')). exact HA.
  - apply lookup_app_l_Some, lookup_app_l_Some. exact Hx.
  - apply lookup_app_l_Some. exact Hb.
  - exact Hf.
  - exact Hlen.
  - apply lookup_snoc1.
  - reflexivity.
Qed.

Lemma residual_sd_init A x b h s h' :
  sd_init A x b h = (Returns s, h') -> residual_of A x b s h'.
Proof. intros H. exact (proj1 (residual_block A x b 0 h s h' H)). Qed.

Lemma residual_sd_body A x b B s0 h s h' :
  sd_body A x b B s0 h = (Returns s, h') -> residual_of A x b s h'.
Proof.
  unfold sd_body. intros H.
  do 7 (apply bind_inv_returns in H; destruct H as (? & ? & _ & H)).
  exact (proj1 (residual_block _ _ _ _ _ _ _ H)).
Qed.

Lemma residual_sd_iterate A x b B : forall (k : nat) s0 h0 s h',
  residual_of A x b s0 h0 ->
  sd_iterate k A x b B s0 h0 = (Returns s, h') -> residual_of A x b s h'.
Proof.
  induction k as [|k IH]; intros s0 h0 s h' H0 H; simpl in H.
  - inversion H; subst. exact H0.
  - apply bind_inv_returns in H. destruct H as (s1 & h1 & Hb & H).
    exact (IH _ _ _ _ (residual_sd_body _ _ _ _ _ _ _ _ Hb) H).
Qed.

(** X14: the error that ends the loop is the norm of the residual of the
    iterate that is left in [x]: when [steepest_descent] returns, the store
    holds the vector [r = b - A*x] computed from the final [x], and if fewer
    than [maxiter] iterations were made, [sqrt(r.inner(r))] is not above the
    tolerance.  The residual is recomputed from [x] in each iteration, not
    updated. *)
Theorem steepest_descent_tests_true_residual (A x b B : loc) (tolerance : float)
    (maxiter iter : Z) (h h' : heap) :
  steepest_descent A x b B tolerance maxiter h = (Returns iter, h') ->
  exists s : sd_state,
    residual_of A x b s h' /\ sd_iter s = iter /\
    (iter < maxiter -> (tolerance <? sd_error s)%float = false).
Proof.
  unfold steepest_descent, steepest_descent_fuel. intros H.
  apply bind_inv_returns in H. destruct H as (s0 & h0 & Hinit & H).
  apply bind_inv_returns in H. destruct H as (s & h1 & Hloop & H).
  inversion H; subst; clear H.
  destruct (sd_while_returns _ _ _ _ _ _ _ _ _ _ _ Hloop) as (k & Hk & Hc & _).
  exists s. split; [|split; [reflexivity|]].
  - exact (residual_sd_iterate _ _ _ _ _ _ _ _ _ (residual_sd_init _ _ _ _ _ _ Hinit) Hk).
  - intros Hlt. unfold sd_cond in Hc. apply andb_false_iff in Hc.
    destruct Hc as [Hc|Hc]; [exact Hc|]. apply Z.ltb_ge in Hc. lia.
Qed.

(** X14, an instance: the system [h_spd] with tolerance 1e-4. *)
Lemma steepest_descent_tests_true_residual_witness :
  exists (iter : Z) (h' : heap) (s : sd_state),
    steepest_descent 0%nat 1%nat 2%nat 3%nat 1e-4 200 h_spd = (Returns iter, h') /\
    iter < 200 /\
    residual_of 0%nat 1%nat 2%nat s h' /\
    (1e-4 <? sd_error s)%float = false.
Proof.
  assert (E : exists iter h',
    steepest_descent 0%nat 1%nat 2%nat 3%nat 1e-4 200 h_spd = (Returns iter, h') /\
    (iter <? 200) = true).
  { eexists. eexists. split; vm_compute; reflexivity. }
  destruct E as (iter & h' & E & Hlt). apply Z.ltb_lt in Hlt.
  destruct (steepest_descent_tests_true_residual _ _ _ _ _ _ _ _ _ E)
    as (s & Hres & _ & Htol).
  exists iter, h', s. split; [exact E|]. split; [exact Hlt|].
  split; [exact Hres | exact (Htol Hlt)].
Defined.
